(** * OrderBook.cpp: a shallow embedding of the resting-order book

    The development follows [src/OrderBook.cpp]: the records [Limit], [Order]
    and [PriceLevel], the two price tables ([std::map<double, Limit>], one
    per side), the order arena ([std::list<Order>]), the order index
    ([std::unordered_map]) and the operations [newOrder], [cancelOrder],
    [amendOrder], [getSnapshot], [printBook] and [getBBO] with their two
    private helpers, and [main].

    - [uint64_t] values are integers in [Z] with the wrap-around written out.
    - [double] prices are IEEE values ([spec_float]); only their comparisons
      are used by the program.
    - Pointers and list iterators are addresses handed out by a bump
      allocator that never reuses an address, so that an iterator kept by an
      order after its list node is gone is recognisably dangling.
    - Behaviour the C++ standard leaves undefined is the outcome [Undefined]:
      a NaN key in a [std::map], an erase through an iterator that is not
      a node of the list, a dereference of a dangling iterator.
    - The clock [newOrder] reads is an argument, [now].
    - What is written to [std::cout] is the list of the values inserted.
    - An exception is the outcome [Throws]: [std::vector::reserve] throws
      [std::length_error] beyond [max_size()].  Memory is taken to be
      available: no allocation throws [std::bad_alloc]. *)

From Stdlib Require Import ZArith List Bool Lia.
From Stdlib Require Import Floats.SpecFloat.
From stdpp Require Import base option list sorting strings gmap.

Local Open Scope Z_scope.

(** ** Machine integers *)

Definition two64 : Z := 2 ^ 64.

(** Arithmetic on [uint64_t] is modulo [2^64]. *)
Definition wrap64 (x : Z) : Z := x mod two64.

(** Conversion of a [uint64_t] value to [int64_t] (two's complement). *)
Definition to_int64 (x : Z) : Z := if x <? 2 ^ 63 then x else x - two64.

Definition u64 (x : Z) : Prop := 0 <= x < two64.

(** ** Doubles *)

(** IEEE 754 values.  The doubles are the values [x] with
    [valid_binary 53 1024 x = true]; nothing below depends on it. *)
Definition double : Type := spec_float.

Definition is_nan (x : double) : bool :=
  match x with S754_nan => true | _ => false end.

(** [a < b], [a > b] and [a != b] on doubles. *)
Definition less (a b : double) : bool := SFltb a b.
Definition greater (a b : double) : bool := SFltb b a.
Definition d_neq (a b : double) : bool := negb (SFeqb a b).

(** The double nearest to an integer literal such as [100.0]. *)
Definition dbl (z : Z) : double := binary_normalize 53 1024 z 0 false.

Definition d_inf : double := S754_infinity false.

(** ** Outcomes *)

Inductive result (A : Type) : Type :=
| Ok (a : A)
| Undefined.
Arguments Ok {A} a.
Arguments Undefined {A}.

(** The error monad of outcomes, with stdpp's [x ← r; k] notation. *)
#[global] Instance result_ret : MRet result := fun A a => Ok a.
#[global] Instance result_bind : MBind result := fun A B k r =>
  match r with
  | Ok a => k a
  | Undefined => Undefined
  end.

(** ** Exceptions *)

(** The exceptions the program can meet. *)
Inductive exception : Type :=
| length_error.

(** A call that returns or leaves by an exception. *)
Inductive outcome (A : Type) : Type :=
| Returns (a : A)
| Throws (e : exception).
Arguments Returns {A} a.
Arguments Throws {A} e.

#[global] Instance outcome_ret : MRet outcome := fun A a => Returns a.
#[global] Instance outcome_bind : MBind outcome := fun A B k r =>
  match r with
  | Returns a => k a
  | Throws e => Throws e
  end.

(** * The program *)

(** ** Data model *)

(** Addresses of heap nodes: arena nodes and nodes of member lists. *)
Definition addr : Type := nat.

Module Limit.
(** [struct Limit]; a member-list node is its address paired with the
    [Order*] it stores. *)
Record t : Type := mk {
  total_quantity : Z;
  orders : list (addr * addr)
}.
Definition empty : t := mk 0 [].
End Limit.

Module Order.
(** [struct Order]; [position_in_limit] is [None] while the iterator is
    value-initialised. *)
Record t : Type := mk {
  order_id : Z;
  is_buy : bool;
  price : double;
  quantity : Z;
  timestamp_ns : Z;
  position_in_limit : option addr
}.
End Order.

Module PriceLevel.
Record t : Type := mk {
  price : double;
  total_quantity : Z
}.
End PriceLevel.

(** A [std::map<double, Limit, Compare>] in iteration order. *)
Definition table : Type := list (double * Limit.t).

(** [class OrderBook].  [order_storage] holds the nodes of the
    [std::list<Order>] by address, a [std::list<Order>::iterator] being the
    address of its node; the list is never traversed.  [next_addr] is the
    allocator's next free address, which the program does not see. *)
Record OrderBook : Type := mkBook {
  bids : table;
  asks : table;
  order_storage : gmap addr Order.t;
  order_lookup : gmap Z addr;
  next_order_id : Z;
  next_addr : addr
}.

Definition empty_book : OrderBook := mkBook [] [] ∅ ∅ 1 0%nat.

(** ** std::map over doubles *)

Section StdMap.
Variable comp : double -> double -> bool.

(** [find]: the first entry whose key is not before [k], when [k] is not
    before it either. *)
Fixpoint map_find (k : double) (m : table) : option (double * Limit.t) :=
  match m with
  | [] => None
  | (k', v) :: tl =>
      if comp k' k then map_find k tl
      else if comp k k' then None
      else Some (k', v)
  end.

(** [operator[]]: the table after the look-up, which default-constructs
    a [Limit] in key order when no equivalent key is present. *)
Fixpoint map_subscript (k : double) (m : table) : table :=
  match m with
  | [] => [(k, Limit.empty)]
  | (k', v) :: tl =>
      if comp k' k then (k', v) :: map_subscript k tl
      else if comp k k' then (k, Limit.empty) :: m
      else m
  end.

(** A write through the reference or iterator obtained for [k]. *)
Fixpoint map_update (k : double) (f : Limit.t -> Limit.t) (m : table) : table :=
  match m with
  | [] => []
  | (k', v) :: tl =>
      if comp k' k then (k', v) :: map_update k f tl
      else if comp k k' then m
      else (k', f v) :: tl
  end.

(** [erase] of the iterator obtained by [find(k)]. *)
Fixpoint map_erase (k : double) (m : table) : table :=
  match m with
  | [] => []
  | (k', v) :: tl =>
      if comp k' k then (k', v) :: map_erase k tl
      else if comp k k' then m
      else tl
  end.
End StdMap.

(** The two tables: [bids] uses [std::greater<double>], [asks] the default
    [std::less<double>]. *)
Inductive Side : Type := Bids | Asks.

Definition comp_of (sd : Side) : double -> double -> bool :=
  match sd with Bids => greater | Asks => less end.

Definition side_table (sd : Side) (b : OrderBook) : table :=
  match sd with Bids => bids b | Asks => asks b end.

Definition set_side_table (sd : Side) (t : table) (b : OrderBook) : OrderBook :=
  match sd with
  | Bids => mkBook t (asks b) (order_storage b) (order_lookup b)
              (next_order_id b) (next_addr b)
  | Asks => mkBook (bids b) t (order_storage b) (order_lookup b)
              (next_order_id b) (next_addr b)
  end.

Definition set_storage (st : gmap addr Order.t) (b : OrderBook) : OrderBook :=
  mkBook (bids b) (asks b) st (order_lookup b) (next_order_id b) (next_addr b).

Definition set_lookup (lk : gmap Z addr) (b : OrderBook) : OrderBook :=
  mkBook (bids b) (asks b) (order_storage b) lk (next_order_id b) (next_addr b).

Definition set_next_order_id (n : Z) (b : OrderBook) : OrderBook :=
  mkBook (bids b) (asks b) (order_storage b) (order_lookup b) n (next_addr b).

Definition set_next_addr (a : addr) (b : OrderBook) : OrderBook :=
  mkBook (bids b) (asks b) (order_storage b) (order_lookup b)
    (next_order_id b) a.

(** [std::list::erase(pos)]: the list without the node at address [pos];
    no result when [pos] is not a node of this list. *)
Fixpoint list_erase (pos : addr) (l : list (addr * addr)) : option (list (addr * addr)) :=
  match l with
  | [] => None
  | (n, p) :: tl =>
      if Nat.eqb n pos then Some tl
      else option_map (cons (n, p)) (list_erase pos tl)
  end.

(** ** Internal helpers *)

Definition with_position (pos : addr) (o : Order.t) : Order.t :=
  Order.mk (Order.order_id o) (Order.is_buy o) (Order.price o)
    (Order.quantity o) (Order.timestamp_ns o) (Some pos).

Definition with_price_quantity (p : double) (q : Z) (o : Order.t) : Order.t :=
  Order.mk (Order.order_id o) (Order.is_buy o) p q
    (Order.timestamp_ns o) (Order.position_in_limit o).

Definition with_quantity (q : Z) (o : Order.t) : Order.t :=
  Order.mk (Order.order_id o) (Order.is_buy o) (Order.price o) q
    (Order.timestamp_ns o) (Order.position_in_limit o).

(** [push_back] of the order's pointer on a fresh node, then
    [total_quantity += quantity]. *)
Definition limit_push (node order_it : addr) (q : Z) (l : Limit.t) : Limit.t :=
  Limit.mk (wrap64 (Limit.total_quantity l + q))
    (Limit.orders l ++ [(node, order_it)]).

(** [add_order_internal(book_side, order_it)].  A NaN key breaks the strict
    weak ordering [std::map] requires of its comparison. *)
Definition add_order_internal (sd : Side) (order_it : addr) (b : OrderBook)
  : result OrderBook :=
  match order_storage b !! order_it with
  | None => Undefined
  | Some o =>
      let price := Order.price o in
      if is_nan price then Undefined
      else
        let node := next_addr b in
        let t := map_subscript (comp_of sd) price (side_table sd b) in
        let t := map_update (comp_of sd) price
                   (limit_push node order_it (Order.quantity o)) t in
        Ok (set_next_addr (S node)
              (set_storage (<[order_it := with_position node o]> (order_storage b))
                 (set_side_table sd t b)))
  end.

(** [remove_order_internal(book_side, order_it)]. *)
Definition remove_order_internal (sd : Side) (order_it : addr) (b : OrderBook)
  : result OrderBook :=
  match order_storage b !! order_it with
  | None => Undefined
  | Some o =>
      let price := Order.price o in
      if is_nan price then Undefined
      else
        match map_find (comp_of sd) price (side_table sd b) with
        | None => Ok b
        | Some (_, limit) =>
            let total := wrap64 (Limit.total_quantity limit - Order.quantity o) in
            match Order.position_in_limit o with
            | None => Undefined
            | Some pos =>
                match list_erase pos (Limit.orders limit) with
                | None => Undefined
                | Some members =>
                    if total =? 0
                    then Ok (set_side_table sd
                               (map_erase (comp_of sd) price (side_table sd b)) b)
                    else Ok (set_side_table sd
                               (map_update (comp_of sd) price
                                  (fun _ => Limit.mk total members)
                                  (side_table sd b)) b)
                end
            end
        end
  end.

(** ** Public operations *)

(** [newOrder(is_buy, price, quantity)]; [now] is the clock reading. *)
Definition newOrder (is_buy : bool) (price : double) (quantity now : Z)
    (b : OrderBook) : result (Z * OrderBook) :=
  let current_id := next_order_id b in
  let b := set_next_order_id (wrap64 (current_id + 1)) b in
  let order_it := next_addr b in
  let b := set_next_addr (S order_it)
             (set_storage
                (<[order_it := Order.mk current_id is_buy price quantity
                                 (wrap64 now) None]> (order_storage b)) b) in
  let b := set_lookup (<[current_id := order_it]> (order_lookup b)) b in
  b ← (if is_buy then add_order_internal Bids order_it b
       else add_order_internal Asks order_it b);
  Ok (current_id, b).

(** [cancelOrder(order_id)]. *)
Definition cancelOrder (order_id : Z) (b : OrderBook) : result (bool * OrderBook) :=
  match order_lookup b !! order_id with
  | None => Ok (false, b)
  | Some order_it =>
      match order_storage b !! order_it with
      | None => Undefined
      | Some o =>
          b ← (if Order.is_buy o then remove_order_internal Bids order_it b
               else remove_order_internal Asks order_it b);
          let b := set_lookup (delete order_id (order_lookup b)) b in
          let b := set_storage (delete order_it (order_storage b)) b in
          Ok (true, b)
      end
  end.

(** The quantity-only branch of [amendOrder]:
    [book_side[price].total_quantity += quantity_delta]. *)
Definition adjust_total (sd : Side) (price : double) (quantity_delta : Z)
    (b : OrderBook) : result OrderBook :=
  if is_nan price then Undefined
  else
    let t := map_subscript (comp_of sd) price (side_table sd b) in
    Ok (set_side_table sd
          (map_update (comp_of sd) price
             (fun l => Limit.mk (wrap64 (Limit.total_quantity l + quantity_delta))
                         (Limit.orders l)) t) b).

(** [amendOrder(order_id, new_price, new_quantity)]. *)
Definition amendOrder (order_id : Z) (new_price : double) (new_quantity : Z)
    (b : OrderBook) : result (bool * OrderBook) :=
  match order_lookup b !! order_id with
  | None => Ok (false, b)
  | Some order_it =>
      match order_storage b !! order_it with
      | None => Undefined
      | Some o =>
          if d_neq (Order.price o) new_price then
            b ← (if Order.is_buy o then remove_order_internal Bids order_it b
                 else remove_order_internal Asks order_it b);
            let b := set_storage
                       (alter (with_price_quantity new_price new_quantity)
                          order_it (order_storage b)) b in
            b ← (if Order.is_buy o then add_order_internal Bids order_it b
                 else add_order_internal Asks order_it b);
            Ok (true, b)
          else
            let old_quantity := Order.quantity o in
            let quantity_delta := to_int64 (wrap64 (new_quantity - old_quantity)) in
            let b := set_storage
                       (<[order_it := with_quantity new_quantity o]>
                          (order_storage b)) b in
            b ← (if Order.is_buy o
                 then adjust_total Bids (Order.price o) quantity_delta b
                 else adjust_total Asks (Order.price o) quantity_delta b);
            Ok (true, b)
      end
  end.

(** One side of [getSnapshot]: the loop over a table that stops once
    [out] holds [depth] entries. *)
Fixpoint snapshot_side (depth : nat) (out : list PriceLevel.t) (m : table)
  : list PriceLevel.t :=
  match m with
  | [] => out
  | (k, l) :: tl =>
      if (depth <=? length out)%nat then out
      else snapshot_side depth (out ++ [PriceLevel.mk k (Limit.total_quantity l)]) tl
  end.

(** [std::vector<PriceLevel>::max_size()]: with 64-bit pointers and the
    16 bytes of a [PriceLevel] (a [double] and a [uint64_t]) it is
    [PTRDIFF_MAX / sizeof(PriceLevel)], which is [2^59 - 1]. *)
Definition vector_max_size : Z := (2 ^ 63 - 1) / 16.

(** [v.reserve(n)]: [std::length_error] when [n] exceeds [max_size()];
    otherwise the capacity grows and the elements stay. *)
Definition reserve (n : nat) (v : list PriceLevel.t) : outcome (list PriceLevel.t) :=
  if vector_max_size <? Z.of_nat n then Throws length_error else Returns v.

(** [getSnapshot(depth, out_bids, out_asks)]: both vectors are cleared,
    then space for [depth] entries is reserved in each, then the two
    loops run.  The result is the two vectors when the call returns. *)
Definition getSnapshot (depth : nat) (b : OrderBook)
  : outcome (list PriceLevel.t * list PriceLevel.t) :=
  let out_bids := [] in
  let out_asks := [] in
  out_bids ← reserve depth out_bids;
  out_asks ← reserve depth out_asks;
  Returns (snapshot_side depth out_bids (bids b),
           snapshot_side depth out_asks (asks b)).

Definition best_of (m : table) : PriceLevel.t :=
  match m with
  | [] => PriceLevel.mk (S754_zero false) 0
  | (k, l) :: _ => PriceLevel.mk k (Limit.total_quantity l)
  end.

(** [getBBO()]: both levels start as [{0, 0}]. *)
Definition getBBO (b : OrderBook) : PriceLevel.t * PriceLevel.t :=
  (best_of (bids b), best_of (asks b)).

(** ** Printing *)

(** What is inserted into [std::cout], in order: string literals, values of
    type [double] and [uint64_t], [std::endl] and the two manipulators.  How
    the stream renders a number is not modelled. *)
Inductive token : Type :=
| Text (s : string)
| Double (d : double)
| UInt64 (n : Z)
| Endl
| Fixed
| SetPrecision (n : nat).

(** [std::cout << level.price << " | " << level.total_quantity << std::endl]. *)
Definition print_level (x : PriceLevel.t) : list token :=
  [Double (PriceLevel.price x); Text " | ";
   UInt64 (PriceLevel.total_quantity x); Endl].

(** [printBook(depth)]: the snapshot is taken first, so that an exception
    of [getSnapshot] leaves before anything is written; then the asks of
    the snapshot from last to first ([rbegin] to [rend]), then its bids
    from first to last. *)
Definition printBook (depth : nat) (b : OrderBook) : outcome (list token) :=
  snap ← getSnapshot depth b;
  let snap_bids := snap.1 in
  let snap_asks := snap.2 in
  Returns
    ([Text "--- ORDER BOOK ---"; Endl; Fixed; SetPrecision 2;
      Text "ASKS (Price | Quantity)"; Endl;
      Text "----------------------"; Endl]
     ++ flat_map print_level (rev snap_asks)
     ++ [Text "----------------------"; Endl;
         Text "BIDS (Price | Quantity)"; Endl;
         Text "----------------------"; Endl]
     ++ flat_map print_level snap_bids
     ++ [Text "----------------------"; Endl; Endl]).

(** How [main] ends: by its [return], or in [std::terminate] on an
    exception that nothing catches. *)
Inductive ending : Type :=
| Exit (status : Z)
| Terminate (e : exception).

(** [main()]: what it writes to [std::cout] and how it ends.  [now i] is
    the clock reading of the [i]-th call of [newOrder]; [printBook()] has
    the default depth 10, and [main] catches nothing. *)
Definition main (now : nat -> Z) : result (list token * ending) :=
  let book := empty_book in
  let out := [Text "--- Initial Empty Book ---"; Endl] in
  match printBook 10 book with
  | Throws e => Ok (out, Terminate e)
  | Returns printed =>
  let out := out ++ printed in
  '(order1, book) ← newOrder true (dbl 100) 10 (now 0%nat) book;
  '(order2, book) ← newOrder true (dbl 100) 5 (now 1%nat) book;
  '(order3, book) ← newOrder true (dbl 99) 20 (now 2%nat) book;
  '(order4, book) ← newOrder false (dbl 100) 15 (now 3%nat) book;
  '(order5, book) ← newOrder false (dbl 102) 10 (now 4%nat) book;
  '(order6, book) ← newOrder false (dbl 101) 5 (now 5%nat) book;
  let out := out ++ [Text "--- Book After Adding Orders ---"; Endl] in
  match printBook 10 book with
  | Throws e => Ok (out, Terminate e)
  | Returns printed =>
  let out := out ++ printed in
  let bbo := getBBO book in
  let out := out ++ [Text "Best Bid: "; Double (PriceLevel.price bbo.1);
                     Text " | Qty: "; UInt64 (PriceLevel.total_quantity bbo.1);
                     Endl] in
  let out := out ++ [Text "Best Ask: "; Double (PriceLevel.price bbo.2);
                     Text " | Qty: "; UInt64 (PriceLevel.total_quantity bbo.2);
                     Endl; Endl] in
  let out := out ++ [Text "--- Cancelling Order ID: "; UInt64 order2;
                     Text " (BUY 5 @ 100.0) ---"; Endl] in
  '(_, book) ← cancelOrder order2 book;
  match printBook 10 book with
  | Throws e => Ok (out, Terminate e)
  | Returns printed =>
  let out := out ++ printed in
  let out := out ++ [Text "--- Amending Order ID: "; UInt64 order3;
                     Text " from 20 to 25 @ 99.0 ---"; Endl] in
  '(_, book) ← amendOrder order3 (dbl 99) 25 book;
  match printBook 10 book with
  | Throws e => Ok (out, Terminate e)
  | Returns printed =>
  let out := out ++ printed in
  let out := out ++ [Text "--- Amending Order ID: "; UInt64 order5;
                     Text " from 10 @ 102.0 to 10 @ 100.5 ---"; Endl] in
  '(_, book) ← amendOrder order5 (binary_normalize 53 1024 201 (-1) false) 10 book;
  match printBook 10 book with
  | Throws e => Ok (out, Terminate e)
  | Returns printed =>
  let out := out ++ printed in
  Ok (out, Exit 0)
  end end end end end.

(** * Vocabulary of the properties *)

(** ** Tables in key order *)

(** What [std::map] requires of its comparison, on keys that are not NaN. *)
Class StrictWeak (comp : double -> double -> bool) : Prop := {
  sw_irrefl a : comp a a = false;
  sw_trans a b c : comp a b = true -> comp b c = true -> comp a c = true;
  sw_neg_trans a b c :
    is_nan b = false -> comp a c = true -> comp a b = true \/ comp b c = true
}.

(** Keys the comparison does not tell apart. *)
Definition keq (comp : double -> double -> bool) (a b : double) : Prop :=
  comp a b = false /\ comp b a = false.

(** Keys in strictly increasing [comp] order, none of them NaN. *)
Definition keys_ok (comp : double -> double -> bool) (ks : list double) : Prop :=
  StronglySorted (fun a b => comp a b = true) ks /\
  Forall (fun k => is_nan k = false) ks.

Definition table_ok (comp : double -> double -> bool) (t : table) : Prop :=
  keys_ok comp (t.*1).

(** The table an order of the given side belongs to. *)
Definition side_of (is_buy : bool) : Side := if is_buy then Bids else Asks.

(** ** Well-formed books *)

(** A handle no member list refers to. *)
Definition detached (b : OrderBook) (h : addr) : Prop :=
  forall sd k l n, (k, l) ∈ side_table sd b -> (n, h) ∉ Limit.orders l.

(** Well-formedness of the book: what every state reached from the empty
    book satisfies. *)
Record wf (b : OrderBook) : Prop := {
  wf_tables sd : table_ok (comp_of sd) (side_table sd b);
  wf_alloc h o :
    order_storage b !! h = Some o ->
    (h < next_addr b)%nat /\
    forall n, Order.position_in_limit o = Some n -> (n < next_addr b)%nat;
  wf_counter : 0 <= next_order_id b;
  wf_index id h :
    order_lookup b !! id = Some h ->
    id < next_order_id b /\
    exists o, order_storage b !! h = Some o /\ Order.order_id o = id;
  wf_members sd k l n h :
    (k, l) ∈ side_table sd b -> (n, h) ∈ Limit.orders l ->
    exists o, order_storage b !! h = Some o /\
              side_of (Order.is_buy o) = sd /\
              is_nan (Order.price o) = false /\
              keq (comp_of sd) (Order.price o) k /\
              Order.position_in_limit o = Some n;
  wf_nodes sd k l :
    (k, l) ∈ side_table sd b -> NoDup ((Limit.orders l).*1);
  wf_totals sd k l :
    (k, l) ∈ side_table sd b -> u64 (Limit.total_quantity l)
}.

(** The book [add_order_internal] returns. *)
Definition added (sd : Side) (h : addr) (o : Order.t) (b : OrderBook) : OrderBook :=
  set_next_addr (S (next_addr b))
    (set_storage (<[h := with_position (next_addr b) o]> (order_storage b))
       (set_side_table sd
          (map_update (comp_of sd) (Order.price o)
             (limit_push (next_addr b) h (Order.quantity o))
             (map_subscript (comp_of sd) (Order.price o) (side_table sd b))) b)).

(** The table [remove_order_internal] leaves once the level is found and
    the node erased. *)
Definition removed_table (sd : Side) (o : Order.t) (limit : Limit.t)
    (members : list (addr * addr)) (t : table) : table :=
  let total := wrap64 (Limit.total_quantity limit - Order.quantity o) in
  if total =? 0 then map_erase (comp_of sd) (Order.price o) t
  else map_update (comp_of sd) (Order.price o)
         (fun _ => Limit.mk total members) t.

(** The book [newOrder] hands to [add_order_internal]: the order is in the
    arena and the index, and in no level yet. *)
Definition allocated (is_buy : bool) (price : double) (quantity now : Z)
    (b : OrderBook) : OrderBook :=
  set_lookup (<[next_order_id b := next_addr b]> (order_lookup b))
    (set_next_addr (S (next_addr b))
       (set_storage
          (<[next_addr b := Order.mk (next_order_id b) is_buy price quantity
                              (wrap64 now) None]> (order_storage b))
          (set_next_order_id (wrap64 (next_order_id b + 1)) b))).

(** ** Reachable books *)

(** Books reached from the empty book by calls of the public operations
    that return, with [uint64_t] quantities, while fewer than [2^64 - 1]
    identifiers have been issued. *)
Inductive reachable : OrderBook -> Prop :=
| reachable_empty : reachable empty_book
| reachable_new b is_buy price quantity now id b' :
    reachable b -> u64 quantity -> next_order_id b < two64 - 1 ->
    newOrder is_buy price quantity now b = Ok (id, b') -> reachable b'
| reachable_cancel b id r b' :
    reachable b -> cancelOrder id b = Ok (r, b') -> reachable b'
| reachable_amend b id price quantity r b' :
    reachable b -> u64 quantity ->
    amendOrder id price quantity b = Ok (r, b') -> reachable b'.

(** Scripts of calls, to build reachable books by computation. *)
Inductive call : Type :=
| NewOrder (is_buy : bool) (price : double) (quantity now : Z)
| CancelOrder (order_id : Z)
| AmendOrder (order_id : Z) (new_price : double) (new_quantity : Z).

Definition in_u64 (x : Z) : bool := (0 <=? x) && (x <? two64).

Definition play (c : call) (b : OrderBook) : option OrderBook :=
  match c with
  | NewOrder is_buy price quantity now =>
      if in_u64 quantity && (next_order_id b <? two64 - 1) then
        match newOrder is_buy price quantity now b with
        | Ok (_, b') => Some b'
        | Undefined => None
        end
      else None
  | CancelOrder order_id =>
      match cancelOrder order_id b with
      | Ok (_, b') => Some b'
      | Undefined => None
      end
  | AmendOrder order_id new_price new_quantity =>
      if in_u64 new_quantity then
        match amendOrder order_id new_price new_quantity b with
        | Ok (_, b') => Some b'
        | Undefined => None
        end
      else None
  end.

Fixpoint replay (cs : list call) (b : OrderBook) : option OrderBook :=
  match cs with
  | [] => Some b
  | c :: cs =>
      match play c b with
      | Some b' => replay cs b'
      | None => None
      end
  end.

(** The book a script leaves, the empty book when the script fails. *)
Definition book_after (cs : list call) : OrderBook :=
  match replay cs empty_book with
  | Some b => b
  | None => empty_book
  end.

(** ** Observations *)

(** The level a price designates on a side, if any. *)
Definition level_at (sd : Side) (p : double) (b : OrderBook)
  : option (double * Limit.t) :=
  map_find (comp_of sd) p (side_table sd b).

(** One half of [getBBO]. *)
Definition bbo_side (sd : Side) (b : OrderBook) : PriceLevel.t :=
  match sd with Bids => fst (getBBO b) | Asks => snd (getBBO b) end.

(** One of the two vectors after a call of [getSnapshot]: what the call
    returns in it, and the empty vector when the call throws, since both
    vectors are cleared before anything else is done. *)
Definition snapshot_of (sd : Side) (depth : nat) (b : OrderBook) : list PriceLevel.t :=
  match getSnapshot depth b with
  | Returns (out_bids, out_asks) =>
      match sd with Bids => out_bids | Asks => out_asks end
  | Throws _ => []
  end.

(** An order some level refers to. *)
Definition resting (b : OrderBook) (h : addr) : Prop :=
  exists sd k l n, (k, l) ∈ side_table sd b /\ (n, h) ∈ Limit.orders l.

Definition opposite (sd : Side) : Side :=
  match sd with Bids => Asks | Asks => Bids end.

(** C7 as the specification words it: the answer of [getBBO] for a side
    without levels differs from its answer for any side that has one. *)
Definition bbo_marks_empty_side : Prop :=
  forall sd b1 b2,
    reachable b1 -> reachable b2 ->
    side_table sd b1 = [] -> side_table sd b2 <> [] ->
    bbo_side sd b1 <> bbo_side sd b2.

(** ** What a caller can observe of a book *)

(** An order as a caller knows it: identifier, side, price, quantity. *)
Definition view_order (st : gmap addr Order.t) (h : addr)
  : option (Z * bool * double * Z) :=
  (fun o => (Order.order_id o, Order.is_buy o, Order.price o, Order.quantity o))
    <$> st !! h.

(** A level: price, total and the members in queue order. *)
Definition view_level (st : gmap addr Order.t) (kl : double * Limit.t)
  : double * Z * list (option (Z * bool * double * Z)) :=
  (kl.1, Limit.total_quantity kl.2,
   map (fun nh => view_order st nh.2) (Limit.orders kl.2)).

Definition view_table (st : gmap addr Order.t) (t : table) :=
  map (view_level st) t.




(** The book a price-changing [amendOrder] returns, given the book [b1]
    that [remove_order_internal] left. *)
Definition amended (h : addr) (o : Order.t) (p : double) (q : Z) (b1 : OrderBook)
  : OrderBook :=
  added (side_of (Order.is_buy o)) h (with_price_quantity p q o)
    (set_storage (<[h := with_price_quantity p q o]> (order_storage b1)) b1).


(** ** Quantities *)

Definition quantity_of (st : gmap addr Order.t) (h : addr) : Z :=
  match st !! h with
  | Some o => Order.quantity o
  | None => 0
  end.

(** The sum of the [quantity] fields of the orders a member list points to. *)
Definition members_quantity (st : gmap addr Order.t) (l : list (addr * addr)) : Z :=
  foldr (fun nh acc => quantity_of st nh.2 + acc) 0 l.

(** The total of the level a price designates, 0 when it has none. *)
Definition level_total (sd : Side) (p : double) (b : OrderBook) : Z :=
  match level_at sd p b with
  | Some (_, l) => Limit.total_quantity l
  | None => 0
  end.

(** C4 as the specification words it: for every live order, a
    quantity-only [amendOrder] returns [true], sets the order's quantity,
    leaves the member sequence of the order's level as it is and changes
    the level's total by exactly the new quantity minus the old one. *)
Definition quantity_only_amend_as_specified : Prop :=
  forall b id h o q,
    reachable b -> u64 q ->
    order_lookup b !! id = Some h -> order_storage b !! h = Some o ->
    exists b' o' k l l',
      amendOrder id (Order.price o) q b = Ok (true, b') /\
      order_storage b' !! h = Some o' /\ Order.quantity o' = q /\
      level_at (side_of (Order.is_buy o)) (Order.price o) b = Some (k, l) /\
      level_at (side_of (Order.is_buy o)) (Order.price o) b' = Some (k, l') /\
      Limit.orders l' = Limit.orders l /\
      Limit.total_quantity l' - Limit.total_quantity l = q - Order.quantity o.

(** C1 as the specification words it. *)
Definition quantity_sum_invariant (b : OrderBook) : Prop :=
  forall sd k l,
    (k, l) ∈ side_table sd b ->
    Limit.total_quantity l = members_quantity (order_storage b) (Limit.orders l).

(** C2 as the specification words it: the levels of a table are those with
    a positive total and members, and every order has its level. *)
Definition level_existence_invariant (b : OrderBook) : Prop :=
  (forall sd k l,
     (k, l) ∈ side_table sd b ->
     0 < Limit.total_quantity l /\ Limit.orders l <> []) /\
  (forall h o, order_storage b !! h = Some o -> resting b h).

(** Books reached from the empty book by calls that return, where every
    quantity passed is positive and keeps the total of the level it goes
    to below [2^64]. *)
Inductive guarded : OrderBook -> Prop :=
| guarded_empty : guarded empty_book
| guarded_new b is_buy price quantity now id b' :
    guarded b -> 0 < quantity ->
    level_total (side_of is_buy) price b + quantity < two64 ->
    next_order_id b < two64 - 1 ->
    newOrder is_buy price quantity now b = Ok (id, b') -> guarded b'
| guarded_cancel b id r b' :
    guarded b -> cancelOrder id b = Ok (r, b') -> guarded b'
| guarded_amend b id price quantity r b' :
    guarded b -> 0 < quantity ->
    (forall h o, order_lookup b !! id = Some h -> order_storage b !! h = Some o ->
       level_total (side_of (Order.is_buy o)) price b + quantity < two64) ->
    amendOrder id price quantity b = Ok (r, b') -> guarded b'.

(** The invariant of guarded books.  With [hx = Some h] the order at [h]
    is between [remove_order_internal] and [add_order_internal]: it is in
    no level and its quantity is not constrained. *)
Record solid_but (hx : option addr) (b : OrderBook) : Prop := {
  sb_wf : wf b;
  sb_quantity h o :
    order_storage b !! h = Some o -> Some h <> hx -> 0 < Order.quantity o;
  sb_total sd k l :
    (k, l) ∈ side_table sd b ->
    Limit.total_quantity l = members_quantity (order_storage b) (Limit.orders l);
  sb_members sd k l : (k, l) ∈ side_table sd b -> Limit.orders l <> [];
  sb_resting h o :
    order_storage b !! h = Some o -> Some h <> hx -> resting b h;
  sb_detached h : hx = Some h -> detached b h
}.

(** The book the quantity-only branch of [amendOrder] returns. *)
Definition adjusted (h : addr) (o : Order.t) (q : Z) (b : OrderBook) : OrderBook :=
  set_side_table (side_of (Order.is_buy o))
    (map_update (comp_of (side_of (Order.is_buy o))) (Order.price o)
       (fun l => Limit.mk
                   (wrap64 (Limit.total_quantity l
                            + to_int64 (wrap64 (q - Order.quantity o))))
                   (Limit.orders l))
       (map_subscript (comp_of (side_of (Order.is_buy o))) (Order.price o)
          (side_table (side_of (Order.is_buy o)) b)))
    (set_storage (<[h := with_quantity q o]> (order_storage b)) b).

(** Replay of a script under the conditions of [guarded]. *)
Definition play_guarded (c : call) (b : OrderBook) : option OrderBook :=
  match c with
  | NewOrder is_buy price quantity now =>
      if (0 <? quantity)
         && (level_total (side_of is_buy) price b + quantity <? two64)
         && (next_order_id b <? two64 - 1)
      then match newOrder is_buy price quantity now b with
           | Ok (_, b') => Some b'
           | Undefined => None
           end
      else None
  | CancelOrder order_id =>
      match cancelOrder order_id b with
      | Ok (_, b') => Some b'
      | Undefined => None
      end
  | AmendOrder order_id new_price new_quantity =>
      if (0 <? new_quantity)
         && match order_lookup b !! order_id with
            | Some h =>
                match order_storage b !! h with
                | Some o =>
                    level_total (side_of (Order.is_buy o)) new_price b
                    + new_quantity <? two64
                | None => true
                end
            | None => true
            end
      then match amendOrder order_id new_price new_quantity b with
           | Ok (_, b') => Some b'
           | Undefined => None
           end
      else None
  end.

Fixpoint replay_guarded (cs : list call) (b : OrderBook) : option OrderBook :=
  match cs with
  | [] => Some b
  | c :: cs =>
      match play_guarded c b with
      | Some b' => replay_guarded cs b'
      | None => None
      end
  end.

(** The book a guarded script leaves, the empty book when it fails. *)
Definition guarded_book_after (cs : list call) : OrderBook :=
  match replay_guarded cs empty_book with
  | Some b => b
  | None => empty_book
  end.

(** ** Vocabulary of the further properties *)

(** The entry [getSnapshot] makes of a level. *)
Definition level_row (kl : double * Limit.t) : PriceLevel.t :=
  PriceLevel.mk kl.1 (Limit.total_quantity kl.2).

(** The price and quantity pairs of a print-out, top to bottom. *)
Fixpoint printed_levels (out : list token) : list PriceLevel.t :=
  match out with
  | [] => []
  | Double d :: Text s :: UInt64 q :: tl =>
      PriceLevel.mk d q :: printed_levels tl
  | _ :: tl => printed_levels tl
  end.

(** The lines of a print-out. *)
Fixpoint printed_lines (out : list token) : nat :=
  match out with
  | [] => 0%nat
  | Endl :: tl => S (printed_lines tl)
  | _ :: tl => printed_lines tl
  end.

(** An order that no level refers to although its price has a level on
    its side: its [position_in_limit] belongs to a member list that is no
    more. *)
Definition displaced (b : OrderBook) (h : addr) (o : Order.t) : Prop :=
  ~ resting b h /\
  is_Some (level_at (side_of (Order.is_buy o)) (Order.price o) b).

(** ** Example books *)

(** The calls of the program's [main]. *)
Definition main_book : OrderBook :=
  book_after [NewOrder true (dbl 100) 10 0; NewOrder true (dbl 100) 5 0;
              NewOrder true (dbl 99) 20 0; NewOrder false (dbl 100) 15 0;
              NewOrder false (dbl 102) 10 0; NewOrder false (dbl 101) 5 0;
              CancelOrder 2; AmendOrder 3 (dbl 99) 25;
              AmendOrder 5 (binary_normalize 53 1024 201 (-1) false) 10].

(** A bid at price 0.0 for quantity 0. *)
Definition zero_bid_book : OrderBook :=
  book_after [NewOrder true (dbl 0) 0 0].

(** Bids at 100.0 and 99.0 and asks at 101.0 and 102.0. *)
Definition two_sided_book : OrderBook :=
  book_after [NewOrder true (dbl 100) 10 0; NewOrder true (dbl 99) 20 0;
              NewOrder false (dbl 101) 5 0; NewOrder false (dbl 102) 10 0].

(** Two bids at 100.0, for quantities 10 and 5. *)
Definition two_bids_book : OrderBook :=
  book_after [NewOrder true (dbl 100) 10 0; NewOrder true (dbl 100) 5 0].

(** A zero-quantity bid, a second bid at the same price that is cancelled
    again, and a quantity-only amendment of the first bid. *)
Definition orphan_amended_book : OrderBook :=
  book_after [NewOrder true (dbl 100) 0 0; NewOrder true (dbl 100) 5 0;
              CancelOrder 2; AmendOrder 1 (dbl 100) 7].

(** Two bids of [2^63] at one price. *)
Definition overflowed_book : OrderBook :=
  book_after [NewOrder true (dbl 100) (2 ^ 63) 0;
              NewOrder true (dbl 100) (2 ^ 63) 0].

(** A single bid of quantity 0. *)
Definition zero_quantity_book : OrderBook :=
  book_after [NewOrder true (dbl 100) 0 0].

(** A zero-quantity bid whose level went with the cancellation of a second
    bid, and a third bid that made a level at the price again. *)
Definition displaced_order_book : OrderBook :=
  book_after [NewOrder true (dbl 100) 0 0; NewOrder true (dbl 100) 5 0;
              CancelOrder 2; NewOrder true (dbl 100) 3 0].

(** A zero-quantity bid whose level went with the cancellation of a second
    bid. *)
Definition orphaned_order_book : OrderBook :=
  book_after [NewOrder true (dbl 100) 0 0; NewOrder true (dbl 100) 5 0;
              CancelOrder 2].

(** Bids at 100.0 (one amended to 99.0, one cancelled) and an ask. *)
Definition guarded_example_book : OrderBook :=
  guarded_book_after
    [NewOrder true (dbl 100) 10 0; NewOrder true (dbl 100) 5 0;
     NewOrder false (dbl 101) 5 0; AmendOrder 1 (dbl 99) 20; CancelOrder 2].

(** * Properties *)

Lemma SFltb_irrefl a : SFltb a a = false.
Proof.
  unfold SFltb, SFcompare.
  destruct a as [[]|[]| |[] m e]; simpl; try reflexivity;
    rewrite Z.compare_refl;
    change (Pos.compare_cont Eq m m) with (m ?= m)%positive;
    rewrite Pos.compare_refl; reflexivity.
Qed.

Ltac cmp_cases :=
  repeat match goal with
  | |- context [Pos.compare_cont Eq ?a ?b] =>
      change (Pos.compare_cont Eq a b) with (a ?= b)%positive
  | H : context [Pos.compare_cont Eq ?a ?b] |- _ =>
      change (Pos.compare_cont Eq a b) with (a ?= b)%positive in H
  end;
  repeat match goal with
  | H : context [(?a ?= ?b)%Z] |- _ =>
      destruct (Z.compare_spec a b); simpl in H
  | |- context [(?a ?= ?b)%Z] =>
      destruct (Z.compare_spec a b); simpl
  | H : context [(?a ?= ?b)%positive] |- _ =>
      destruct (Pos.compare_spec a b); simpl in H
  | |- context [(?a ?= ?b)%positive] =>
      destruct (Pos.compare_spec a b); simpl
  end;
  try discriminate; try reflexivity; try lia.

Lemma SFltb_trans a b c :
  SFltb a b = true -> SFltb b c = true -> SFltb a c = true.
Proof.
  unfold SFltb, SFcompare.
  destruct a as [[]|[]| |[] ma ea], b as [[]|[]| |[] mb eb],
    c as [[]|[]| |[] mc ec]; simpl; intros Hab Hbc;
    try discriminate; try reflexivity; cmp_cases.
Qed.

Lemma SFltb_neg_trans a b c :
  is_nan b = false -> SFltb a c = true ->
  SFltb a b = true \/ SFltb b c = true.
Proof.
  unfold SFltb, SFcompare.
  destruct a as [[]|[]| |[] ma ea], b as [[]|[]| |[] mb eb],
    c as [[]|[]| |[] mc ec]; simpl; intros Hb Hac;
    try discriminate; try (left; reflexivity); try (right; reflexivity);
    cmp_cases; try (left; reflexivity); try (right; reflexivity).
Qed.

Lemma SFeqb_congr a b x :
  SFeqb a b = true ->
  SFcompare a x = SFcompare b x /\ SFcompare x a = SFcompare x b.
Proof.
  unfold SFeqb, SFcompare.
  destruct a as [[]|[]| |[] ma ea], b as [[]|[]| |[] mb eb],
    x as [[]|[]| |[] mx ex]; simpl; intros Hab;
    try discriminate; try (split; reflexivity); cmp_cases; subst;
    split; try reflexivity; cmp_cases.
Qed.

#[global] Instance less_StrictWeak : StrictWeak less.
Proof.
  split; unfold less.
  - apply SFltb_irrefl.
  - apply SFltb_trans.
  - apply SFltb_neg_trans.
Qed.

#[global] Instance greater_StrictWeak : StrictWeak greater.
Proof.
  split; unfold greater.
  - apply SFltb_irrefl.
  - intros a b c Hab Hbc. exact (SFltb_trans c b a Hbc Hab).
  - intros a b c Hb Hac.
    destruct (SFltb_neg_trans c b a Hb Hac); [right | left]; assumption.
Qed.

#[global] Instance comp_of_StrictWeak sd : StrictWeak (comp_of sd).
Proof. destruct sd; simpl; apply _. Qed.

Section TableTheory.
Context (comp : double -> double -> bool) `{!StrictWeak comp}.

Lemma keq_refl a : keq comp a a.
Proof. split; apply sw_irrefl. Qed.

Lemma keq_sym a b : keq comp a b -> keq comp b a.
Proof. intros [? ?]; split; assumption. Qed.

Lemma comp_keq_r a b c :
  is_nan c = false -> comp a b = true -> keq comp b c -> comp a c = true.
Proof.
  intros Hc Hab [_ Hcb].
  destruct (sw_neg_trans a c b Hc Hab) as [H | H]; [exact H | congruence].
Qed.

Lemma table_ok_nil : table_ok comp [].
Proof. split; constructor. Qed.

Lemma table_ok_cons_inv k v t :
  table_ok comp ((k, v) :: t) ->
  table_ok comp t /\ is_nan k = false /\
  (forall k' l, (k', l) ∈ t -> comp k k' = true).
Proof.
  intros [Hs Hn]. simpl in *.
  apply StronglySorted_inv in Hs as [Hs Hall].
  apply Forall_cons in Hn as [Hk Hn].
  split; [split; assumption |]. split; [assumption |].
  intros k' l Hin. rewrite Forall_forall in Hall. apply Hall.
  apply list_elem_of_fmap. exists (k', l). split; [reflexivity | assumption].
Qed.

Lemma table_ok_cons k v t :
  table_ok comp t -> is_nan k = false ->
  (forall k' l, (k', l) ∈ t -> comp k k' = true) ->
  table_ok comp ((k, v) :: t).
Proof.
  intros [Hs Hn] Hk Hall. split; simpl.
  - constructor; [assumption |]. apply Forall_forall. intros k' Hin.
    apply list_elem_of_fmap in Hin as [[k0 l] [-> Hin]]. eapply Hall, Hin.
  - constructor; assumption.
Qed.

Lemma map_find_elem k t k' l :
  map_find comp k t = Some (k', l) -> (k', l) ∈ t /\ keq comp k' k.
Proof.
  induction t as [| [k0 v] t IH]; simpl; [discriminate |].
  destruct (comp k0 k) eqn:E1.
  - intros H. destruct (IH H) as [Hin Hk]. split; [right; exact Hin | exact Hk].
  - destruct (comp k k0) eqn:E2; [discriminate |].
    intros [= <- <-]. split; [left | split; assumption].
Qed.

Lemma elem_map_find k t k' l :
  table_ok comp t -> is_nan k = false ->
  (k', l) ∈ t -> keq comp k' k -> map_find comp k t = Some (k', l).
Proof.
  intros Hok Hk. induction t as [| [k0 v] t IH]; intros Hin Heq.
  - inversion Hin.
  - apply table_ok_cons_inv in Hok as (Hok & Hk0 & Hlt). simpl.
    apply elem_of_cons in Hin as [[= <- <-] | Hin].
    + destruct Heq as [-> ->]. reflexivity.
    + rewrite (comp_keq_r k0 k' k Hk (Hlt _ _ Hin) Heq). apply IH; assumption.
Qed.

Lemma elem_subscript k t k' l' :
  (k', l') ∈ map_subscript comp k t <->
  (k', l') ∈ t \/ (map_find comp k t = None /\ k' = k /\ l' = Limit.empty).
Proof.
  induction t as [| [k0 v] t IH]; simpl.
  - rewrite list_elem_of_singleton. split.
    + intros [= -> ->]. right. auto.
    + intros [H | (_ & -> & ->)]; [inversion H | reflexivity].
  - destruct (comp k0 k) eqn:E1.
    + rewrite !elem_of_cons, IH. tauto.
    + destruct (comp k k0) eqn:E2.
      * rewrite !elem_of_cons. split.
        -- intros [[= -> ->] | H]; [right; auto | left; exact H].
        -- intros [H | (_ & -> & ->)]; [right; exact H | left; reflexivity].
      * split; [intros H; left; exact H |].
        intros [H | (H & _)]; [exact H | discriminate].
Qed.

Lemma later_keys_differ k k0 v t k' l :
  table_ok comp ((k0, v) :: t) -> is_nan k = false ->
  comp k0 k = false -> (k', l) ∈ t -> ~ keq comp k' k.
Proof.
  intros Hok Hk E1 Hin [H1 H2].
  apply table_ok_cons_inv in Hok as (_ & _ & Hlt).
  pose proof (Hlt _ _ Hin) as Hc.
  destruct (sw_neg_trans k0 k k' Hk Hc) as [H | H]; congruence.
Qed.

Lemma elem_update k f t k' l' :
  table_ok comp t -> is_nan k = false ->
  (k', l') ∈ map_update comp k f t <->
  ((k', l') ∈ t /\ ~ keq comp k' k) \/
  (exists l, map_find comp k t = Some (k', l) /\ l' = f l).
Proof.
  intros Hok Hk. induction t as [| [k0 v] t IH]; simpl.
  - split; [intros H; inversion H |].
    intros [[H _] | (l & H & _)]; [inversion H | discriminate].
  - pose proof (table_ok_cons_inv _ _ _ Hok) as (Hok' & Hk0 & Hlt).
    destruct (comp k0 k) eqn:E1.
    + rewrite !elem_of_cons, (IH Hok'). split.
      * intros [[= -> ->] | [[H1 H2] | H]]; [| left; auto | right; exact H].
        left. split; [left; reflexivity |]. intros [H _]. congruence.
      * intros [[[[= -> ->] | H1] H2] | H]; auto.
    + destruct (comp k k0) eqn:E2.
      * split.
        -- intros H. left. split; [exact H |].
           apply elem_of_cons in H as [[= -> ->] | H].
           ++ intros [_ H']. congruence.
           ++ eapply later_keys_differ; eassumption.
        -- intros [[H _] | (l & H & _)]; [exact H | discriminate].
      * rewrite !elem_of_cons. split.
        -- intros [[= -> ->] | H]; [right; eauto |].
           left. split; [right; exact H |].
           eapply later_keys_differ; eassumption.
        -- intros [[[[= -> ->] | H1] H2] | (l & [= <- <-] & ->)].
           ++ exfalso. apply H2. split; assumption.
           ++ right; exact H1.
           ++ left; reflexivity.
Qed.

Lemma elem_erase k t k' l' :
  table_ok comp t -> is_nan k = false ->
  (k', l') ∈ map_erase comp k t <-> (k', l') ∈ t /\ ~ keq comp k' k.
Proof.
  intros Hok Hk. induction t as [| [k0 v] t IH]; simpl.
  - split; [intros H; inversion H | intros [H _]; inversion H].
  - pose proof (table_ok_cons_inv _ _ _ Hok) as (Hok' & Hk0 & Hlt).
    destruct (comp k0 k) eqn:E1.
    + rewrite !elem_of_cons, (IH Hok'). split.
      * intros [[= -> ->] | [H1 H2]]; [| auto].
        split; [left; reflexivity |]. intros [H _]. congruence.
      * intros [[[= -> ->] | H1] H2]; auto.
    + destruct (comp k k0) eqn:E2.
      * split; [| intros [H _]; exact H].
        intros H. split; [exact H |].
        apply elem_of_cons in H as [[= -> ->] | H].
        -- intros [_ H']. congruence.
        -- eapply later_keys_differ; eassumption.
      * rewrite elem_of_cons. split.
        -- intros H. split; [right; exact H |].
           eapply later_keys_differ; eassumption.
        -- intros [[[= -> ->] | H1] H2]; [| exact H1].
           exfalso. apply H2. split; assumption.
Qed.

Lemma map_update_keys k f t : (map_update comp k f t).*1 = t.*1.
Proof.
  induction t as [| [k0 v] t IH]; [reflexivity |].
  cbn [map_update]. destruct (comp k0 k).
  - rewrite !fmap_cons. f_equal. exact IH.
  - destruct (comp k k0); reflexivity.
Qed.

Lemma table_ok_update k f t :
  table_ok comp t -> table_ok comp (map_update comp k f t).
Proof. unfold table_ok. rewrite map_update_keys. auto. Qed.

Lemma table_ok_subscript k t :
  table_ok comp t -> is_nan k = false -> table_ok comp (map_subscript comp k t).
Proof.
  intros Hok Hk. induction t as [| [k0 v] t IH]; simpl.
  - apply table_ok_cons; [apply table_ok_nil | assumption |].
    intros ? ? H; inversion H.
  - pose proof (table_ok_cons_inv _ _ _ Hok) as (Hok' & Hk0 & Hlt).
    destruct (comp k0 k) eqn:E1.
    + apply table_ok_cons; [apply IH; assumption | assumption |].
      intros k' l Hin. apply elem_subscript in Hin as [Hin | (_ & -> & _)].
      * eapply Hlt, Hin.
      * exact E1.
    + destruct (comp k k0) eqn:E2; [| exact Hok].
      apply table_ok_cons; [exact Hok | assumption |].
      intros k' l Hin. apply elem_of_cons in Hin as [[= -> ->] | Hin].
      * exact E2.
      * eapply sw_trans; [exact E2 | eapply Hlt, Hin].
Qed.

Lemma table_ok_erase k t :
  table_ok comp t -> table_ok comp (map_erase comp k t).
Proof.
  intros Hok. induction t as [| [k0 v] t IH]; simpl; [exact Hok |].
  pose proof (table_ok_cons_inv _ _ _ Hok) as (Hok' & Hk0 & Hlt).
  destruct (comp k0 k) eqn:E1.
  - apply table_ok_cons; [apply IH; assumption | assumption |].
    intros k' l Hin.
    assert (Hsub : forall x, x ∈ map_erase comp k t -> x ∈ t).
    { clear. induction t as [| [k1 v1] t IH]; simpl; [auto |].
      intros x. destruct (comp k1 k).
      - rewrite !elem_of_cons. intros [-> | H]; auto.
      - destruct (comp k k1); [auto | intros H; right; exact H]. }
    eapply Hlt, Hsub, Hin.
  - destruct (comp k k0); assumption.
Qed.

(** Reading back the level just written through [operator[]]. *)
Lemma map_find_update_subscript k f t :
  map_find comp k (map_update comp k f (map_subscript comp k t)) =
  Some (match map_find comp k t with
        | Some (k', v) => (k', f v)
        | None => (k, f Limit.empty)
        end).
Proof.
  induction t as [| [k0 v] t IH]; simpl.
  - rewrite sw_irrefl. simpl. rewrite sw_irrefl. reflexivity.
  - destruct (comp k0 k) eqn:E1; simpl.
    + rewrite E1. simpl. rewrite E1. exact IH.
    + destruct (comp k k0) eqn:E2; simpl.
      * rewrite sw_irrefl. simpl. rewrite sw_irrefl. reflexivity.
      * rewrite E1, E2. simpl. rewrite E1, E2. reflexivity.
Qed.

(** The levels of a table after [operator[]] and a write to the level
    obtained. *)
Lemma elem_written k f t k' l' :
  table_ok comp t -> is_nan k = false ->
  (k', l') ∈ map_update comp k f (map_subscript comp k t) ->
  ((k', l') ∈ t /\ ~ keq comp k' k) \/
  (exists l, l' = f l /\ keq comp k' k /\
     ((k', l) ∈ t \/
      (l = Limit.empty /\ k' = k /\ map_find comp k t = None))).
Proof.
  intros Hok Hk Hin.
  apply elem_update in Hin; [| apply table_ok_subscript; assumption | assumption].
  destruct Hin as [[Hin Hne] | (l & Hf & ->)].
  - apply elem_subscript in Hin as [Hin | (_ & -> & _)]; [left; auto |].
    exfalso. apply Hne, keq_refl.
  - right. exists l. apply map_find_elem in Hf as [Hin Hkeq].
    split; [reflexivity |]. split; [exact Hkeq |].
    apply elem_subscript in Hin as [Hin | (Hn & -> & ->)]; auto.
Qed.

Lemma elem_written_other k f t k' l :
  table_ok comp t -> is_nan k = false ->
  (k', l) ∈ t -> ~ keq comp k' k ->
  (k', l) ∈ map_update comp k f (map_subscript comp k t).
Proof.
  intros Hok Hk Hin Hne.
  apply elem_update; [apply table_ok_subscript; assumption | assumption |].
  left. split; [| exact Hne]. apply elem_subscript. left. exact Hin.
Qed.

Lemma elem_written_same k f t k' l :
  table_ok comp t -> is_nan k = false ->
  (k', l) ∈ t -> keq comp k' k ->
  (k', f l) ∈ map_update comp k f (map_subscript comp k t).
Proof.
  intros Hok Hk Hin Heq.
  apply elem_update; [apply table_ok_subscript; assumption | assumption |].
  right. exists l. split; [| reflexivity].
  apply elem_map_find; try assumption.
  - apply table_ok_subscript; assumption.
  - apply elem_subscript. left. exact Hin.
Qed.

Lemma elem_written_new k f t :
  table_ok comp t -> is_nan k = false ->
  map_find comp k t = None ->
  (k, f Limit.empty) ∈ map_update comp k f (map_subscript comp k t).
Proof.
  intros Hok Hk Hnone.
  apply elem_update; [apply table_ok_subscript; assumption | assumption |].
  right. exists Limit.empty. split; [| reflexivity].
  apply elem_map_find; try assumption.
  - apply table_ok_subscript; assumption.
  - apply elem_subscript. right. auto.
  - apply keq_refl.
Qed.
End TableTheory.

Lemma wrap64_range x : u64 (wrap64 x).
Proof. unfold u64, wrap64, two64. apply Z.mod_pos_bound. lia. Qed.

Lemma wrap64_small x : u64 x -> wrap64 x = x.
Proof. unfold u64, wrap64. intros H. apply Z.mod_small. exact H. Qed.

Lemma to_int64_wrap x : wrap64 (to_int64 (wrap64 x)) = wrap64 x.
Proof.
  unfold to_int64. destruct (wrap64 x <? 2 ^ 63).
  - unfold wrap64. apply Z.mod_mod. unfold two64. lia.
  - unfold wrap64. rewrite Zminus_mod, Z_mod_same_full, Z.sub_0_r.
    rewrite !Z.mod_mod; unfold two64; lia.
Qed.

(** The total written by the quantity-only branch of [amendOrder]. *)
Lemma amend_delta_wrap total new_q old_q :
  wrap64 (total + to_int64 (wrap64 (new_q - old_q))) =
  wrap64 (total + (new_q - old_q)).
Proof.
  unfold wrap64 at 1. rewrite Zplus_mod.
  fold (wrap64 (to_int64 (wrap64 (new_q - old_q)))).
  rewrite to_int64_wrap. unfold wrap64. rewrite <- Zplus_mod. reflexivity.
Qed.

Section ListErase.
Implicit Types l : list (addr * addr).

Lemma list_erase_elem pos l l' :
  NoDup (l.*1) -> list_erase pos l = Some l' ->
  forall n h, (n, h) ∈ l' <-> (n, h) ∈ l /\ n <> pos.
Proof.
  revert l'. induction l as [| [n0 h0] l IH]; simpl; intros l' Hnd He n h.
  - discriminate.
  - apply NoDup_cons in Hnd as [Hn0 Hnd].
    destruct (Nat.eqb_spec n0 pos) as [-> | Hne].
    + injection He as <-. rewrite elem_of_cons. split.
      * intros Hin. split; [right; exact Hin |]. intros ->.
        apply Hn0. apply list_elem_of_fmap. exists (pos, h). auto.
      * intros [[[= -> ->] | Hin] Hne]; [congruence | exact Hin].
    + destruct (list_erase pos l) as [l0 |] eqn:E; [| discriminate].
      injection He as <-. rewrite !elem_of_cons, (IH l0 Hnd eq_refl).
      split.
      * intros [[= -> ->] | [H1 H2]]; auto.
      * intros [[[= -> ->] | H1] H2]; auto.
Qed.

Lemma list_erase_sub pos l l' :
  list_erase pos l = Some l' -> forall x, x ∈ l' -> x ∈ l.
Proof.
  revert l'. induction l as [| [n0 h0] l IH]; simpl; intros l' He x.
  - discriminate.
  - destruct (Nat.eqb n0 pos).
    + injection He as <-. intros H; right; exact H.
    + destruct (list_erase pos l) as [l0 |] eqn:E; [| discriminate].
      injection He as <-. rewrite !elem_of_cons.
      intros [-> | H]; [left; reflexivity | right; eapply IH; eauto].
Qed.

Lemma list_erase_NoDup pos l l' :
  NoDup (l.*1) -> list_erase pos l = Some l' -> NoDup (l'.*1).
Proof.
  revert l'. induction l as [| [n0 h0] l IH]; simpl; intros l' Hnd He.
  - discriminate.
  - apply NoDup_cons in Hnd as [Hn0 Hnd].
    destruct (Nat.eqb n0 pos).
    + injection He as <-. exact Hnd.
    + destruct (list_erase pos l) as [l0 |] eqn:E; [| discriminate].
      injection He as <-. simpl. apply NoDup_cons. split; [| eauto].
      intros Hin. apply Hn0.
      apply list_elem_of_fmap in Hin as [[n1 h1] [Heq Hin]]. simpl in Heq. subst n1.
      apply list_elem_of_fmap. exists (n0, h1). split; [reflexivity |].
      eapply list_erase_sub; eauto.
Qed.

Lemma list_erase_is_Some pos h l :
  (pos, h) ∈ l -> is_Some (list_erase pos l).
Proof.
  induction l as [| [n0 h0] l IH]; simpl; intros Hin.
  - inversion Hin.
  - destruct (Nat.eqb_spec n0 pos) as [-> | Hne]; [eauto |].
    apply elem_of_cons in Hin as [[= <- <-] | Hin]; [congruence |].
    destruct (IH Hin) as [l0 ->]. simpl. eauto.
Qed.
End ListErase.

Lemma wf_empty_book : wf empty_book.
Proof.
  split; simpl.
  - intros []; apply table_ok_nil; apply _.
  - intros h o H. rewrite lookup_empty in H. discriminate.
  - lia.
  - intros id h H. rewrite lookup_empty in H. discriminate.
  - intros [] k l n h H; inversion H.
  - intros [] k l H; inversion H.
  - intros [] k l H; inversion H.
Qed.

Lemma side_table_set_same sd t b : side_table sd (set_side_table sd t b) = t.
Proof. destruct sd; reflexivity. Qed.

Lemma side_table_set_other sd sd' t b :
  sd <> sd' -> side_table sd' (set_side_table sd t b) = side_table sd' b.
Proof. destruct sd, sd'; intros H; try reflexivity; congruence. Qed.

(** In a well-formed book an order is referenced from its own level only,
    and from the node its iterator names. *)
Lemma member_level b sd k l n h o :
  wf b -> (k, l) ∈ side_table sd b -> (n, h) ∈ Limit.orders l ->
  order_storage b !! h = Some o ->
  side_of (Order.is_buy o) = sd /\
  Order.position_in_limit o = Some n /\
  is_nan (Order.price o) = false /\
  map_find (comp_of sd) (Order.price o) (side_table sd b) = Some (k, l).
Proof.
  intros Hwf Hk Hn Ho.
  destruct (wf_members b Hwf sd k l n h Hk Hn)
    as (o' & Ho' & Hsd & Hnan & Hkeq & Hpos).
  rewrite Ho in Ho'. injection Ho' as <-.
  split; [exact Hsd |]. split; [exact Hpos |]. split; [exact Hnan |].
  apply elem_map_find; try assumption.
  - apply _.
  - apply (wf_tables b Hwf).
  - apply keq_sym. exact Hkeq.
Qed.

#[global] Instance Side_eq_dec : EqDecision Side.
Proof. solve_decision. Defined.

Lemma side_table_set_storage sd st b :
  side_table sd (set_storage st b) = side_table sd b.
Proof. destruct sd; reflexivity. Qed.

Lemma side_table_set_lookup sd lk b :
  side_table sd (set_lookup lk b) = side_table sd b.
Proof. destruct sd; reflexivity. Qed.

Lemma side_table_set_next_addr sd a b :
  side_table sd (set_next_addr a b) = side_table sd b.
Proof. destruct sd; reflexivity. Qed.

Lemma side_table_set_next_order_id sd a b :
  side_table sd (set_next_order_id a b) = side_table sd b.
Proof. destruct sd; reflexivity. Qed.

Lemma order_storage_set_side sd t b :
  order_storage (set_side_table sd t b) = order_storage b.
Proof. destruct sd; reflexivity. Qed.

Lemma order_lookup_set_side sd t b :
  order_lookup (set_side_table sd t b) = order_lookup b.
Proof. destruct sd; reflexivity. Qed.

Lemma next_addr_set_side sd t b :
  next_addr (set_side_table sd t b) = next_addr b.
Proof. destruct sd; reflexivity. Qed.

Lemma next_order_id_set_side sd t b :
  next_order_id (set_side_table sd t b) = next_order_id b.
Proof. destruct sd; reflexivity. Qed.

Ltac book_simpl :=
  repeat (rewrite ?side_table_set_storage, ?side_table_set_lookup,
            ?side_table_set_next_addr, ?side_table_set_next_order_id,
            ?order_storage_set_side, ?order_lookup_set_side,
            ?next_addr_set_side, ?next_order_id_set_side,
            ?side_table_set_same; simpl).

Ltac book_simpl_in H :=
  repeat (rewrite ?side_table_set_storage, ?side_table_set_lookup,
            ?side_table_set_next_addr, ?side_table_set_next_order_id,
            ?order_storage_set_side, ?order_lookup_set_side,
            ?next_addr_set_side, ?next_order_id_set_side,
            ?side_table_set_same in H; simpl in H).

Lemma add_order_internal_eq sd h o b :
  order_storage b !! h = Some o -> is_nan (Order.price o) = false ->
  add_order_internal sd h b = Ok (added sd h o b).
Proof. intros Ho Hn. unfold add_order_internal. rewrite Ho, Hn. reflexivity. Qed.

Lemma add_order_internal_inv sd h b b' :
  add_order_internal sd h b = Ok b' ->
  exists o, order_storage b !! h = Some o /\ is_nan (Order.price o) = false /\
            b' = added sd h o b.
Proof.
  unfold add_order_internal. destruct (order_storage b !! h) as [o |]; [| discriminate].
  destruct (is_nan (Order.price o)) eqn:E; [discriminate |].
  intros [= <-]. eauto.
Qed.

Lemma side_table_added sd sd' h o b :
  sd' <> sd -> side_table sd' (added sd h o b) = side_table sd' b.
Proof. unfold added. destruct sd, sd'; intros H; try reflexivity; congruence. Qed.

Lemma node_allocated b sd k l n h :
  wf b -> (k, l) ∈ side_table sd b -> (n, h) ∈ Limit.orders l ->
  (n < next_addr b)%nat /\ (h < next_addr b)%nat.
Proof.
  intros Hwf Hk Hn.
  destruct (wf_members b Hwf sd k l n h Hk Hn) as (o & Ho & _ & _ & _ & Hpos).
  destruct (wf_alloc b Hwf h o Ho) as [Hh Hp]. split; [apply Hp, Hpos | exact Hh].
Qed.

Lemma added_wf sd h o b :
  wf b -> order_storage b !! h = Some o -> side_of (Order.is_buy o) = sd ->
  is_nan (Order.price o) = false -> detached b h ->
  wf (added sd h o b).
Proof.
  intros Hwf Ho Hsd Hnan Hdet.
  pose proof (wf_tables b Hwf sd) as Hok.
  split.
  - intros sd'. destruct (decide (sd' = sd)) as [-> | Hne].
    + unfold added. book_simpl.
      apply table_ok_update, table_ok_subscript; (apply _ || assumption).
    + rewrite side_table_added by assumption. apply (wf_tables b Hwf).
  - intros h0 o0. unfold added. book_simpl.
    rewrite lookup_insert. case_decide as Hh.
    + intros [= <-]. subst h0. destruct (wf_alloc b Hwf h o Ho) as [Hlt _].
      split; [lia |]. simpl. intros n [= <-]. lia.
    + intros Ho0. destruct (wf_alloc b Hwf h0 o0 Ho0) as [Hlt Hp].
      split; [lia |]. intros n Hn. specialize (Hp n Hn). lia.
  - unfold added. book_simpl. apply (wf_counter b Hwf).
  - intros id h0. unfold added. book_simpl. intros Hid.
    destruct (wf_index b Hwf id h0 Hid) as [Hlt (o0 & Ho0 & Hid0)].
    split; [exact Hlt |]. rewrite lookup_insert. case_decide as Hh.
    + subst h0. rewrite Ho in Ho0. injection Ho0 as <-. eexists. split; [reflexivity | exact Hid0].
    + eauto.
  - intros sd' k l n0 h0 Hk Hn.
    assert (Hold : forall k1 l1, (k1, l1) ∈ side_table sd' b ->
              (n0, h0) ∈ Limit.orders l1 ->
              exists o1, order_storage (added sd h o b) !! h0 = Some o1 /\
                side_of (Order.is_buy o1) = sd' /\
                is_nan (Order.price o1) = false /\
                keq (comp_of sd') (Order.price o1) k1 /\
                Order.position_in_limit o1 = Some n0).
    { intros k1 l1 Hk1 Hn1.
      destruct (wf_members b Hwf sd' k1 l1 n0 h0 Hk1 Hn1) as (o1 & Ho1 & H1).
      exists o1. split; [| exact H1]. unfold added. book_simpl.
      rewrite lookup_insert_ne; [exact Ho1 |].
      intros <-. exact (Hdet sd' k1 l1 n0 Hk1 Hn1). }
    destruct (decide (sd' = sd)) as [-> | Hne].
    + unfold added in Hk. book_simpl_in Hk.
      apply elem_written in Hk; [| apply _ | assumption | assumption].
      destruct Hk as [[Hk _] | (l0 & -> & Hkeq & Hk)]; [eauto |].
      simpl in Hn. apply elem_of_app in Hn as [Hn | Hn].
      * destruct Hk as [Hk | (-> & _)]; [eauto | inversion Hn].
      * apply list_elem_of_singleton in Hn. injection Hn as -> ->.
        exists (with_position (next_addr b) o). unfold added. book_simpl.
        rewrite lookup_insert_eq. simpl.
        split; [reflexivity |]. split; [exact Hsd |]. split; [exact Hnan |].
        split; [apply keq_sym; exact Hkeq | reflexivity].
    + rewrite side_table_added in Hk by assumption. eauto.
  - intros sd' k l Hk. destruct (decide (sd' = sd)) as [-> | Hne].
    + unfold added in Hk. book_simpl_in Hk.
      apply elem_written in Hk; [| apply _ | assumption | assumption].
      destruct Hk as [[Hk _] | (l0 & -> & Hkeq & Hk)];
        [exact (wf_nodes b Hwf sd k l Hk) |].
      simpl. rewrite fmap_app. simpl. apply NoDup_app. split; [| split].
      * destruct Hk as [Hk | (-> & _)];
          [exact (wf_nodes b Hwf sd k l0 Hk) | constructor].
      * intros n Hn1 Hn2. apply list_elem_of_singleton in Hn2. subst n.
        destruct Hk as [Hk | (-> & _)]; [| inversion Hn1].
        apply list_elem_of_fmap in Hn1 as [[n1 h1] [Heq Hn1]]. simpl in Heq. subst n1.
        destruct (node_allocated b sd k l0 _ h1 Hwf Hk Hn1). lia.
      * apply NoDup_singleton.
    + rewrite side_table_added in Hk by assumption. exact (wf_nodes b Hwf sd' k l Hk).
  - intros sd' k l Hk. destruct (decide (sd' = sd)) as [-> | Hne].
    + unfold added in Hk. book_simpl_in Hk.
      apply elem_written in Hk; [| apply _ | assumption | assumption].
      destruct Hk as [[Hk _] | (l0 & -> & Hkeq & Hk)];
        [exact (wf_totals b Hwf sd k l Hk) |].
      simpl. apply wrap64_range.
    + rewrite side_table_added in Hk by assumption. exact (wf_totals b Hwf sd' k l Hk).
Qed.

Lemma remove_order_internal_inv sd h b b' :
  remove_order_internal sd h b = Ok b' ->
  exists o, order_storage b !! h = Some o /\ is_nan (Order.price o) = false /\
    ((map_find (comp_of sd) (Order.price o) (side_table sd b) = None /\ b' = b) \/
     (exists k limit n members,
        map_find (comp_of sd) (Order.price o) (side_table sd b) = Some (k, limit) /\
        Order.position_in_limit o = Some n /\
        list_erase n (Limit.orders limit) = Some members /\
        b' = set_side_table sd
               (removed_table sd o limit members (side_table sd b)) b)).
Proof.
  unfold remove_order_internal, removed_table.
  destruct (order_storage b !! h) as [o |]; [| discriminate].
  destruct (is_nan (Order.price o)) eqn:E; [discriminate |].
  destruct (map_find _ _ _) as [[k limit] |] eqn:Ef.
  - destruct (Order.position_in_limit o) as [n |] eqn:Ep; [| discriminate].
    destruct (list_erase n (Limit.orders limit)) as [members |] eqn:El;
      [| discriminate].
    intros Hb'. exists o. split; [reflexivity |]. split; [exact E |].
    right. exists k, limit, n, members. split; [exact Ef |].
    split; [exact Ep |]. split; [exact El |].
    destruct (_ =? 0); injection Hb' as <-; reflexivity.
  - intros [= <-]. exists o. auto.
Qed.

Lemma elem_removed_table sd o limit members t k l :
  table_ok (comp_of sd) t -> is_nan (Order.price o) = false ->
  (k, l) ∈ removed_table sd o limit members t ->
  ((k, l) ∈ t /\ ~ keq (comp_of sd) k (Order.price o)) \/
  (exists l0, map_find (comp_of sd) (Order.price o) t = Some (k, l0) /\
     l = Limit.mk (wrap64 (Limit.total_quantity limit - Order.quantity o)) members /\
     wrap64 (Limit.total_quantity limit - Order.quantity o) <> 0).
Proof.
  intros Hok Hnan. unfold removed_table.
  destruct (Z.eqb_spec (wrap64 (Limit.total_quantity limit - Order.quantity o)) 0)
    as [Hz | Hz]; intros Hin.
  - left. apply elem_erase in Hin; (apply _ || assumption).
  - apply elem_update in Hin; [| apply _ | assumption | assumption].
    destruct Hin as [Hin | (l0 & Hf & ->)]; [left; exact Hin |].
    right. exists l0. auto.
Qed.

Lemma removed_table_ok sd o limit members t :
  table_ok (comp_of sd) t ->
  table_ok (comp_of sd) (removed_table sd o limit members t).
Proof.
  intros Hok. unfold removed_table. destruct (_ =? 0).
  - apply table_ok_erase; (apply _ || assumption).
  - apply table_ok_update; (apply _ || assumption).
Qed.

Lemma not_found_detached b h o :
  wf b -> order_storage b !! h = Some o -> is_nan (Order.price o) = false ->
  map_find (comp_of (side_of (Order.is_buy o))) (Order.price o)
    (side_table (side_of (Order.is_buy o)) b) = None ->
  detached b h.
Proof.
  intros Hwf Ho Hnan Hnone sd k l n Hk Hn.
  destruct (member_level b sd k l n h o Hwf Hk Hn Ho) as (Hsd & _ & _ & Hf).
  subst sd. rewrite Hf in Hnone. discriminate.
Qed.

Lemma remove_order_internal_frame sd h b b' :
  remove_order_internal sd h b = Ok b' ->
  order_storage b' = order_storage b /\ order_lookup b' = order_lookup b /\
  next_order_id b' = next_order_id b /\ next_addr b' = next_addr b /\
  (forall sd', sd' <> sd -> side_table sd' b' = side_table sd' b).
Proof.
  intros H. apply remove_order_internal_inv in H
    as (o & _ & _ & [[_ ->] | (k & limit & n & members & _ & _ & _ & ->)]).
  - repeat split; reflexivity.
  - book_simpl. repeat split; try reflexivity.
    intros sd' Hne. apply side_table_set_other. congruence.
Qed.

Lemma remove_order_internal_wf sd h o b b' :
  wf b -> order_storage b !! h = Some o -> side_of (Order.is_buy o) = sd ->
  remove_order_internal sd h b = Ok b' ->
  wf b' /\ detached b' h.
Proof.
  intros Hwf Ho Hsd Hrem.
  apply remove_order_internal_inv in Hrem as (o' & Ho' & Hnan & Hcase).
  rewrite Ho in Ho'. injection Ho' as <-.
  destruct Hcase as [[Hnone ->] | (k0 & limit & n & members & Hf & Hpos & Her & ->)].
  { split; [exact Hwf |]. subst sd. eapply not_found_detached; eassumption. }
  pose proof (wf_tables b Hwf sd) as Hok.
  pose proof (map_find_elem _ _ _ _ _ Hf) as [Hk0 Hkeq0].
  pose proof (wf_nodes b Hwf sd k0 limit Hk0) as Hnd.
  assert (Hsub : forall sd' k l n1 h1,
            (k, l) ∈ side_table sd'
              (set_side_table sd (removed_table sd o limit members (side_table sd b)) b) ->
            (n1, h1) ∈ Limit.orders l ->
            exists l1, (k, l1) ∈ side_table sd' b /\ (n1, h1) ∈ Limit.orders l1 /\
                       h1 <> h).
  { intros sd' k l n1 h1 Hk Hn1.
    destruct (decide (sd' = sd)) as [-> | Hne].
    - book_simpl_in Hk. apply elem_removed_table in Hk; [| assumption | assumption].
      destruct Hk as [[Hk Hne] | (l0 & Hf' & -> & _)].
      + exists l. split; [exact Hk |]. split; [exact Hn1 |]. intros ->.
        destruct (wf_members b Hwf sd k l n1 h Hk Hn1) as (o1 & Ho1 & _ & _ & Hkeq & _).
        rewrite Ho in Ho1. injection Ho1 as <-. apply Hne, keq_sym, Hkeq.
      + rewrite Hf in Hf'. injection Hf' as <- <-. simpl in Hn1.
        apply (list_erase_elem n _ _ Hnd Her) in Hn1 as [Hn1 Hne].
        exists limit. split; [exact Hk0 |]. split; [exact Hn1 |]. intros ->.
        destruct (wf_members b Hwf sd k0 limit n1 h Hk0 Hn1)
          as (o1 & Ho1 & _ & _ & _ & Hp).
        rewrite Ho in Ho1. injection Ho1 as <-. congruence.
    - rewrite side_table_set_other in Hk by congruence.
      exists l. split; [exact Hk |]. split; [exact Hn1 |]. intros ->.
      destruct (wf_members b Hwf sd' k l n1 h Hk Hn1) as (o1 & Ho1 & Hsd1 & _).
      rewrite Ho in Ho1. injection Ho1 as <-. congruence. }
  split.
  - split.
    + intros sd'. destruct (decide (sd' = sd)) as [-> | Hne].
      * book_simpl. apply removed_table_ok, Hok.
      * rewrite side_table_set_other by congruence. apply (wf_tables b Hwf).
    + book_simpl. apply (wf_alloc b Hwf).
    + book_simpl. apply (wf_counter b Hwf).
    + book_simpl. apply (wf_index b Hwf).
    + intros sd' k l n1 h1 Hk Hn1. book_simpl.
      destruct (Hsub sd' k l n1 h1 Hk Hn1) as (l1 & Hk1 & Hn1' & _).
      exact (wf_members b Hwf sd' k l1 n1 h1 Hk1 Hn1').
    + intros sd' k l Hk. destruct (decide (sd' = sd)) as [-> | Hne].
      * book_simpl_in Hk. apply elem_removed_table in Hk; [| assumption | assumption].
        destruct Hk as [[Hk _] | (l0 & _ & -> & _)];
          [exact (wf_nodes b Hwf sd k l Hk) |].
        simpl. eapply list_erase_NoDup; eassumption.
      * rewrite side_table_set_other in Hk by congruence.
        exact (wf_nodes b Hwf sd' k l Hk).
    + intros sd' k l Hk. destruct (decide (sd' = sd)) as [-> | Hne].
      * book_simpl_in Hk. apply elem_removed_table in Hk; [| assumption | assumption].
        destruct Hk as [[Hk _] | (l0 & _ & -> & _)];
          [exact (wf_totals b Hwf sd k l Hk) |].
        simpl. apply wrap64_range.
      * rewrite side_table_set_other in Hk by congruence.
        exact (wf_totals b Hwf sd' k l Hk).
  - intros sd' k l n1 Hk Hn1.
    destruct (Hsub sd' k l n1 h Hk Hn1) as (_ & _ & _ & Hne). congruence.
Qed.

Lemma detached_set_storage st b h :
  detached b h -> detached (set_storage st b) h.
Proof. intros H sd k l n. rewrite side_table_set_storage. apply H. Qed.

(** Overwriting an order in place keeps the book well formed when the
    order is in no level, or when its side, price and iterator stay. *)
Lemma wf_store h o o' b :
  wf b -> order_storage b !! h = Some o ->
  Order.order_id o' = Order.order_id o ->
  Order.position_in_limit o' = Order.position_in_limit o ->
  detached b h \/
    (Order.is_buy o' = Order.is_buy o /\ Order.price o' = Order.price o) ->
  wf (set_storage (<[h := o']> (order_storage b)) b).
Proof.
  intros Hwf Ho Hid Hpos Hcase. split.
  - intros sd. rewrite side_table_set_storage. apply (wf_tables b Hwf).
  - intros h0 o0. simpl. rewrite lookup_insert. case_decide as Hh.
    + intros [= <-]. subst h0. rewrite Hpos. apply (wf_alloc b Hwf h o Ho).
    + apply (wf_alloc b Hwf).
  - apply (wf_counter b Hwf).
  - intros id h0. simpl. intros Hl.
    destruct (wf_index b Hwf id h0 Hl) as [Hlt (o0 & Ho0 & Hid0)].
    split; [exact Hlt |]. rewrite lookup_insert. case_decide as Hh.
    + subst h0. rewrite Ho in Ho0. injection Ho0 as <-.
      exists o'. split; [reflexivity | congruence].
    + eauto.
  - intros sd k l n h0. rewrite side_table_set_storage. simpl. intros Hk Hn.
    destruct (wf_members b Hwf sd k l n h0 Hk Hn)
      as (o0 & Ho0 & Hsd & Hnan & Hkeq & Hp).
    rewrite lookup_insert. case_decide as Hh; [| eauto 10].
    subst h0. rewrite Ho in Ho0. injection Ho0 as <-.
    destruct Hcase as [Hdet | [Hb Hpr]].
    + exfalso. exact (Hdet sd k l n Hk Hn).
    + exists o'. rewrite Hb, Hpr, Hpos. split; [reflexivity |].
      split; [exact Hsd |]. split; [exact Hnan |]. split; [exact Hkeq | exact Hp].
  - intros sd k l. rewrite side_table_set_storage. apply (wf_nodes b Hwf).
  - intros sd k l. rewrite side_table_set_storage. apply (wf_totals b Hwf).
Qed.

Lemma alter_stored {A} (f : A -> A) (h : addr) (x : A) (st : gmap addr A) :
  st !! h = Some x -> alter f h st = <[h := f x]> st.
Proof.
  intros Hx. apply map_eq. intros i. rewrite lookup_alter, lookup_insert.
  case_decide as Hi; [subst i; rewrite Hx |]; reflexivity.
Qed.

(** The book after an order left the index and the arena. *)
Lemma wf_destroy id h b :
  wf b -> order_lookup b !! id = Some h -> detached b h ->
  wf (set_storage (delete h (order_storage b))
        (set_lookup (delete id (order_lookup b)) b)).
Proof.
  intros Hwf Hl Hdet.
  destruct (wf_index b Hwf id h Hl) as [_ (o & Ho & Hid)].
  split.
  - intros sd. rewrite side_table_set_storage, side_table_set_lookup.
    apply (wf_tables b Hwf).
  - intros h0 o0. simpl. rewrite lookup_delete. case_decide; [discriminate |].
    apply (wf_alloc b Hwf).
  - apply (wf_counter b Hwf).
  - intros id0 h0. simpl. rewrite lookup_delete. case_decide as Hi; [discriminate |].
    intros Hl0. destruct (wf_index b Hwf id0 h0 Hl0) as [Hlt (o0 & Ho0 & Hid0)].
    split; [exact Hlt |]. exists o0. split; [| exact Hid0].
    rewrite lookup_delete_ne; [exact Ho0 |]. intros <-.
    rewrite Ho in Ho0. injection Ho0 as <-. congruence.
  - intros sd k l n h0. rewrite side_table_set_storage, side_table_set_lookup.
    simpl. intros Hk Hn.
    destruct (wf_members b Hwf sd k l n h0 Hk Hn) as (o0 & Ho0 & H0).
    exists o0. split; [| exact H0]. rewrite lookup_delete_ne; [exact Ho0 |].
    intros <-. exact (Hdet sd k l n Hk Hn).
  - intros sd k l. rewrite side_table_set_storage, side_table_set_lookup.
    apply (wf_nodes b Hwf).
  - intros sd k l. rewrite side_table_set_storage, side_table_set_lookup.
    apply (wf_totals b Hwf).
Qed.

Lemma newOrder_eq is_buy price quantity now b :
  newOrder is_buy price quantity now b =
  b' ← add_order_internal (side_of is_buy) (next_addr b)
         (allocated is_buy price quantity now b);
  Ok (next_order_id b, b').
Proof. unfold newOrder. destruct is_buy; reflexivity. Qed.

Lemma handle_not_member b sd k l n :
  wf b -> (k, l) ∈ side_table sd b -> (n, next_addr b) ∉ Limit.orders l.
Proof.
  intros Hwf Hk Hn. destruct (node_allocated b sd k l n _ Hwf Hk Hn). lia.
Qed.

Lemma allocated_wf is_buy price quantity now b :
  wf b -> next_order_id b < two64 - 1 ->
  wf (allocated is_buy price quantity now b) /\
  detached (allocated is_buy price quantity now b) (next_addr b).
Proof.
  intros Hwf Hid.
  pose proof (wf_counter b Hwf) as H0.
  assert (Hw : wrap64 (next_order_id b + 1) = next_order_id b + 1).
  { apply wrap64_small. unfold u64. lia. }
  assert (Hfresh : order_storage b !! next_addr b = None).
  { destruct (order_storage b !! next_addr b) as [o |] eqn:E; [| reflexivity].
    destruct (wf_alloc b Hwf _ o E). lia. }
  split; [split |].
  - intros sd. unfold allocated. book_simpl. apply (wf_tables b Hwf).
  - intros h0 o0. unfold allocated. simpl. rewrite lookup_insert.
    case_decide as Hh.
    + intros [= <-]. subst h0. simpl. split; [lia | discriminate].
    + intros Ho0. destruct (wf_alloc b Hwf h0 o0 Ho0) as [Hlt Hp].
      split; [lia |]. intros n Hn. specialize (Hp n Hn). lia.
  - unfold allocated. simpl. rewrite Hw. lia.
  - intros id h0. unfold allocated. simpl. rewrite Hw, lookup_insert.
    case_decide as Hi.
    + intros [= <-]. subst id. split; [lia |].
      rewrite lookup_insert_eq. eexists. split; reflexivity.
    + intros Hl. destruct (wf_index b Hwf id h0 Hl) as [Hlt (o0 & Ho0 & Hid0)].
      split; [lia |]. exists o0. split; [| exact Hid0].
      rewrite lookup_insert_ne; [exact Ho0 |]. intros <-. congruence.
  - intros sd k l n h0. unfold allocated. book_simpl. intros Hk Hn.
    destruct (wf_members b Hwf sd k l n h0 Hk Hn) as (o0 & Ho0 & H1).
    exists o0. split; [| exact H1].
    rewrite lookup_insert_ne; [exact Ho0 |]. intros <-. congruence.
  - intros sd k l. unfold allocated. book_simpl. apply (wf_nodes b Hwf).
  - intros sd k l. unfold allocated. book_simpl. apply (wf_totals b Hwf).
  - intros sd k l n. unfold allocated. book_simpl. intros Hk.
    eapply handle_not_member; eassumption.
Qed.

Lemma newOrder_wf is_buy price quantity now b id b' :
  wf b -> next_order_id b < two64 - 1 ->
  newOrder is_buy price quantity now b = Ok (id, b') -> wf b'.
Proof.
  intros Hwf Hid. rewrite newOrder_eq.
  destruct (allocated_wf is_buy price quantity now b Hwf Hid) as [Hwf1 Hdet].
  destruct (add_order_internal _ _ _) as [b1 |] eqn:Ha; [| discriminate].
  simpl. intros [= <- <-].
  apply add_order_internal_inv in Ha as (o & Ho & Hnan & ->).
  assert (Ho' := Ho). unfold allocated in Ho'. simpl in Ho'.
  rewrite lookup_insert_eq in Ho'. injection Ho' as <-.
  apply added_wf; try assumption. reflexivity.
Qed.

Lemma cancelOrder_eq id b :
  cancelOrder id b =
  match order_lookup b !! id with
  | None => Ok (false, b)
  | Some h =>
      match order_storage b !! h with
      | None => Undefined
      | Some o =>
          b1 ← remove_order_internal (side_of (Order.is_buy o)) h b;
          Ok (true, set_storage (delete h (order_storage b1))
                      (set_lookup (delete id (order_lookup b1)) b1))
      end
  end.
Proof.
  unfold cancelOrder. destruct (order_lookup b !! id) as [h |]; [| reflexivity].
  destruct (order_storage b !! h) as [o |]; [| reflexivity].
  destruct (Order.is_buy o); reflexivity.
Qed.

Lemma amendOrder_eq id p q b :
  amendOrder id p q b =
  match order_lookup b !! id with
  | None => Ok (false, b)
  | Some h =>
      match order_storage b !! h with
      | None => Undefined
      | Some o =>
          let sd := side_of (Order.is_buy o) in
          if d_neq (Order.price o) p then
            b1 ← remove_order_internal sd h b;
            b2 ← add_order_internal sd h
                   (set_storage (alter (with_price_quantity p q) h
                                   (order_storage b1)) b1);
            Ok (true, b2)
          else
            b1 ← adjust_total sd (Order.price o)
                   (to_int64 (wrap64 (q - Order.quantity o)))
                   (set_storage (<[h := with_quantity q o]> (order_storage b)) b);
            Ok (true, b1)
      end
  end.
Proof.
  unfold amendOrder. destruct (order_lookup b !! id) as [h |]; [| reflexivity].
  destruct (order_storage b !! h) as [o |]; [| reflexivity].
  destruct (Order.is_buy o); reflexivity.
Qed.

Lemma cancelOrder_wf id b r b' :
  wf b -> cancelOrder id b = Ok (r, b') -> wf b'.
Proof.
  intros Hwf. rewrite cancelOrder_eq.
  destruct (order_lookup b !! id) as [h |] eqn:Hl; [| intros [= <- <-]; exact Hwf].
  destruct (order_storage b !! h) as [o |] eqn:Ho; [| discriminate].
  destruct (remove_order_internal _ _ _) as [b1 |] eqn:Hr; [| discriminate].
  simpl. intros [= <- <-].
  destruct (remove_order_internal_wf _ h o b b1 Hwf Ho eq_refl Hr) as [Hwf1 Hdet].
  destruct (remove_order_internal_frame _ _ _ _ Hr) as (Hst & Hlk & _).
  apply wf_destroy; [exact Hwf1 | rewrite Hlk; exact Hl | exact Hdet].
Qed.

Lemma adjust_total_wf sd price delta b b' :
  wf b -> adjust_total sd price delta b = Ok b' -> wf b'.
Proof.
  intros Hwf. unfold adjust_total.
  destruct (is_nan price) eqn:Hnan; [discriminate |]. intros [= <-].
  pose proof (wf_tables b Hwf sd) as Hok.
  assert (Hsub : forall sd' k l,
            (k, l) ∈ side_table sd'
              (set_side_table sd
                 (map_update (comp_of sd) price
                    (fun l => Limit.mk (wrap64 (Limit.total_quantity l + delta))
                                (Limit.orders l))
                    (map_subscript (comp_of sd) price (side_table sd b))) b) ->
            u64 (Limit.total_quantity l) /\
            (Limit.orders l = [] \/
             exists l1, (k, l1) ∈ side_table sd' b /\ Limit.orders l = Limit.orders l1)).
  { intros sd' k l Hk. destruct (decide (sd' = sd)) as [-> | Hne].
    - book_simpl_in Hk.
      apply elem_written in Hk; [| apply _ | assumption | assumption].
      destruct Hk as [[Hk _] | (l0 & -> & _ & Hk)].
      + split; [exact (wf_totals b Hwf sd k l Hk) | right; eauto].
      + simpl. split; [apply wrap64_range |].
        destruct Hk as [Hk | (-> & _)]; [right; eauto | left; reflexivity].
    - rewrite side_table_set_other in Hk by congruence.
      split; [exact (wf_totals b Hwf sd' k l Hk) | right; eauto]. }
  split.
  - intros sd'. destruct (decide (sd' = sd)) as [-> | Hne].
    + book_simpl. apply table_ok_update, table_ok_subscript; (apply _ || assumption).
    + rewrite side_table_set_other by congruence. apply (wf_tables b Hwf).
  - book_simpl. apply (wf_alloc b Hwf).
  - book_simpl. apply (wf_counter b Hwf).
  - book_simpl. apply (wf_index b Hwf).
  - intros sd' k l n h Hk Hn. book_simpl.
    destruct (Hsub sd' k l Hk) as [_ [He | (l1 & Hk1 & He)]]; rewrite He in Hn.
    + inversion Hn.
    + exact (wf_members b Hwf sd' k l1 n h Hk1 Hn).
  - intros sd' k l Hk.
    destruct (Hsub sd' k l Hk) as [_ [He | (l1 & Hk1 & He)]]; rewrite He.
    + constructor.
    + exact (wf_nodes b Hwf sd' k l1 Hk1).
  - intros sd' k l Hk. apply (Hsub sd' k l Hk).
Qed.

Lemma amendOrder_wf id p q b r b' :
  wf b -> amendOrder id p q b = Ok (r, b') -> wf b'.
Proof.
  intros Hwf. rewrite amendOrder_eq.
  destruct (order_lookup b !! id) as [h |] eqn:Hl; [| intros [= <- <-]; exact Hwf].
  destruct (order_storage b !! h) as [o |] eqn:Ho; [| discriminate].
  cbv zeta. destruct (d_neq (Order.price o) p).
  - destruct (remove_order_internal _ _ _) as [b1 |] eqn:Hr; [| discriminate].
    simpl.
    destruct (remove_order_internal_wf _ h o b b1 Hwf Ho eq_refl Hr) as [Hwf1 Hdet].
    destruct (remove_order_internal_frame _ _ _ _ Hr) as (Hst & _).
    assert (Ho1 : order_storage b1 !! h = Some o) by (rewrite Hst; exact Ho).
    rewrite (alter_stored _ _ _ _ Ho1).
    destruct (add_order_internal _ _ _) as [b2 |] eqn:Ha; [| discriminate].
    simpl. intros [= <- <-].
    apply add_order_internal_inv in Ha as (o2 & Ho2 & Hnan & ->).
    simpl in Ho2. rewrite lookup_insert_eq in Ho2. injection Ho2 as <-.
    apply added_wf;
      [apply wf_store with (o := o); auto
      | simpl; apply lookup_insert_eq
      | reflexivity
      | exact Hnan
      | apply detached_set_storage, Hdet].
  - destruct (adjust_total _ _ _ _) as [b1 |] eqn:Ha; [| discriminate].
    simpl. intros [= <- <-].
    eapply adjust_total_wf; [| exact Ha].
    apply wf_store with (o := o); auto.
Qed.

Lemma reachable_wf b : reachable b -> wf b.
Proof.
  induction 1 as [| b is_buy price quantity now id b' _ IH _ Hid Hn
                  | b id r b' _ IH Hc | b id price quantity r b' _ IH _ Ha].
  - apply wf_empty_book.
  - eapply newOrder_wf; eassumption.
  - eapply cancelOrder_wf; eassumption.
  - eapply amendOrder_wf; eassumption.
Qed.

Lemma in_u64_spec x : in_u64 x = true -> u64 x.
Proof. unfold in_u64, u64. intros H. apply andb_true_iff in H. lia. Qed.

Lemma play_reachable c b b' : reachable b -> play c b = Some b' -> reachable b'.
Proof.
  intros Hr. destruct c as [is_buy price quantity now | id | id p q]; simpl.
  - destruct (in_u64 quantity) eqn:Hq; [| discriminate].
    destruct (Z.ltb_spec (next_order_id b) (two64 - 1)); [| discriminate]. simpl.
    destruct (newOrder _ _ _ _ _) as [[id b1] |] eqn:Hn; [| discriminate].
    intros [= <-]. eapply reachable_new; eauto using in_u64_spec.
  - destruct (cancelOrder _ _) as [[r b1] |] eqn:Hc; [| discriminate].
    intros [= <-]. eapply reachable_cancel; eauto.
  - destruct (in_u64 q) eqn:Hq; [| discriminate].
    destruct (amendOrder _ _ _ _) as [[r b1] |] eqn:Ha; [| discriminate].
    intros [= <-]. eapply reachable_amend; eauto using in_u64_spec.
Qed.

Lemma replay_reachable cs b b' :
  reachable b -> replay cs b = Some b' -> reachable b'.
Proof.
  revert b. induction cs as [| c cs IH]; simpl; intros b Hr.
  - intros [= <-]. exact Hr.
  - destruct (play c b) as [b1 |] eqn:Hp; [| discriminate].
    apply IH. eapply play_reachable; eassumption.
Qed.

Lemma book_after_reachable cs : reachable (book_after cs).
Proof.
  unfold book_after. destruct (replay cs empty_book) as [b |] eqn:E.
  - eapply replay_reachable; [apply reachable_empty | exact E].
  - apply reachable_empty.
Defined.

Lemma d_neq_false_not_nan a b : d_neq a b = false -> is_nan a = false.
Proof.
  unfold d_neq, SFeqb, SFcompare. destruct a; try reflexivity.
  simpl. discriminate.
Qed.

Lemma newOrder_ok is_buy price quantity now b :
  is_nan price = false ->
  newOrder is_buy price quantity now b =
  Ok (next_order_id b,
      added (side_of is_buy) (next_addr b)
        (Order.mk (next_order_id b) is_buy price quantity (wrap64 now) None)
        (allocated is_buy price quantity now b)).
Proof.
  intros Hnan. rewrite newOrder_eq.
  rewrite (add_order_internal_eq _ _
             (Order.mk (next_order_id b) is_buy price quantity (wrap64 now) None)).
  - reflexivity.
  - unfold allocated. simpl. apply lookup_insert_eq.
  - exact Hnan.
Qed.

Lemma side_table_allocated sd is_buy price quantity now b :
  side_table sd (allocated is_buy price quantity now b) = side_table sd b.
Proof. destruct sd; reflexivity. Qed.

Lemma snapshot_side_take depth out t :
  snapshot_side depth out t =
  out ++ take (depth - length out)
           (map (fun kl => PriceLevel.mk kl.1 (Limit.total_quantity kl.2)) t).
Proof.
  revert out. induction t as [| [k l] t IH]; intros out; simpl.
  - rewrite take_nil, app_nil_r. reflexivity.
  - destruct (Nat.leb_spec depth (length out)) as [Hle | Hlt].
    + replace (depth - length out)%nat with 0%nat by lia.
      simpl. rewrite app_nil_r. reflexivity.
    + rewrite IH, length_app. simpl.
      replace (depth - length out)%nat with (S (depth - (length out + 1)))%nat by lia.
      simpl. rewrite <- app_assoc. reflexivity.
Qed.

Lemma snapshot_side_rows depth t :
  snapshot_side depth [] t = take depth (map level_row t).
Proof. rewrite snapshot_side_take. simpl. rewrite Nat.sub_0_r. reflexivity. Qed.

Lemma getSnapshot_returns depth b :
  Z.of_nat depth <= vector_max_size ->
  getSnapshot depth b =
  Returns (take depth (map level_row (bids b)), take depth (map level_row (asks b))).
Proof.
  intros Hd. unfold getSnapshot, reserve.
  destruct (Z.ltb_spec vector_max_size (Z.of_nat depth)) as [Hlt | _]; [lia |].
  simpl. rewrite !snapshot_side_rows. reflexivity.
Qed.

Lemma getSnapshot_throws depth b :
  vector_max_size < Z.of_nat depth -> getSnapshot depth b = Throws length_error.
Proof.
  intros Hd. unfold getSnapshot, reserve.
  destruct (Z.ltb_spec vector_max_size (Z.of_nat depth)) as [_ | Hle]; [| lia].
  reflexivity.
Qed.

Lemma snapshot_of_rows sd depth b :
  snapshot_of sd depth b =
  if Z.of_nat depth <=? vector_max_size
  then take depth (map level_row (side_table sd b))
  else [].
Proof.
  unfold snapshot_of.
  destruct (Z.leb_spec (Z.of_nat depth) vector_max_size) as [Hle | Hgt].
  - rewrite getSnapshot_returns by exact Hle. destruct sd; reflexivity.
  - rewrite getSnapshot_throws by exact Hgt. reflexivity.
Qed.

(** C3.  [cancelOrder] and [amendOrder] on an identifier that is not in
    the order index (never issued, or cancelled since) return [false] and
    leave the whole book as it was: both tables, the arena, the index and
    the identifier counter. *)
Theorem not_found_leaves_book_unchanged b id p q :
  order_lookup b !! id = None ->
  cancelOrder id b = Ok (false, b) /\ amendOrder id p q b = Ok (false, b).
Proof.
  intros Hl. unfold cancelOrder, amendOrder. rewrite Hl. split; reflexivity.
Qed.

Lemma not_found_leaves_book_unchanged_witness :
  cancelOrder 999999 empty_book = Ok (false, empty_book) /\
  amendOrder 999999 (dbl 100) 5 empty_book = Ok (false, empty_book).
Proof.
  apply (not_found_leaves_book_unchanged empty_book 999999 (dbl 100) 5).
  reflexivity.
Defined.

(** An identifier that was cancelled is no longer in the index. *)
Lemma cancelled_not_in_index b id b' :
  cancelOrder id b = Ok (true, b') -> order_lookup b' !! id = None.
Proof.
  rewrite cancelOrder_eq.
  destruct (order_lookup b !! id) as [h |]; [| discriminate].
  destruct (order_storage b !! h) as [o |]; [| discriminate].
  destruct (remove_order_internal _ _ _) as [b1 |]; [| discriminate].
  simpl. intros [= <-]. simpl. apply lookup_delete_eq.
Qed.

(** C4, as the code has it.  [amendOrder] of an order whose price has a
    level, with a price that compares equal to the order's price, returns
    [true].  The order then has the new quantity and is otherwise as it
    was: identifier, side, price, time stamp and list position.  The level
    keeps its key and its member sequence, so the order keeps its place in
    it, and the level's [total_quantity] moves by the difference of new and
    old quantity modulo 2^64: by exactly that difference, which may be
    negative, whenever the result lies in [0, 2^64). *)
Theorem quantity_only_amend_keeps_priority b id h o p q k l :
  order_lookup b !! id = Some h ->
  order_storage b !! h = Some o ->
  d_neq (Order.price o) p = false ->
  level_at (side_of (Order.is_buy o)) (Order.price o) b = Some (k, l) ->
  exists b' o' total,
    amendOrder id p q b = Ok (true, b') /\
    order_storage b' !! h = Some o' /\
    Order.quantity o' = q /\
    Order.order_id o' = Order.order_id o /\
    Order.is_buy o' = Order.is_buy o /\
    Order.price o' = Order.price o /\
    Order.timestamp_ns o' = Order.timestamp_ns o /\
    Order.position_in_limit o' = Order.position_in_limit o /\
    (forall h', h' <> h -> order_storage b' !! h' = order_storage b !! h') /\
    level_at (side_of (Order.is_buy o)) (Order.price o) b'
      = Some (k, Limit.mk total (Limit.orders l)) /\
    total = wrap64 (Limit.total_quantity l + (q - Order.quantity o)) /\
    (u64 (Limit.total_quantity l + (q - Order.quantity o)) ->
     total - Limit.total_quantity l = q - Order.quantity o).
Proof.
  intros Hl Ho Hp Hlev. unfold level_at in *.
  rewrite amendOrder_eq, Hl, Ho. cbv zeta. rewrite Hp.
  unfold adjust_total. rewrite (d_neq_false_not_nan _ _ Hp).
  rewrite side_table_set_storage. simpl.
  eexists. exists (with_quantity q o).
  exists (wrap64 (Limit.total_quantity l + (q - Order.quantity o))).
  split; [reflexivity |]. book_simpl.
  split; [apply lookup_insert_eq |].
  do 6 (split; [reflexivity |]).
  split; [intros h' Hne; apply lookup_insert_ne; congruence |].
  split; [| split; [reflexivity |]].
  - rewrite map_find_update_subscript by apply _. rewrite Hlev.
    rewrite amend_delta_wrap. reflexivity.
  - intros Hr. rewrite (wrap64_small _ Hr). lia.
Qed.

(** C4 fails on a reachable book: after two bids of [2^63] at one price
    the level's total is 0, and the amendment of the first bid to quantity
    1 moves it to [2^63 + 1], while new minus old is [1 - 2^63]. *)
Lemma quantity_only_amend_is_not_exact : ~ quantity_only_amend_as_specified.
Proof.
  intros H.
  destruct (H overflowed_book 1 0%nat
              (Order.mk 1 true (dbl 100) (2 ^ 63) 0 (Some 1%nat)) 1)
    as (b' & o' & k & l & l' & Ha & _ & _ & Hl & Hl' & _ & Ht).
  - apply book_after_reachable.
  - vm_compute. split; [discriminate | reflexivity].
  - vm_compute. reflexivity.
  - vm_compute. reflexivity.
  - vm_compute in Ha. injection Ha as <-.
    vm_compute in Hl. injection Hl as <- <-.
    vm_compute in Hl'. injection Hl' as <-.
    vm_compute in Ht. discriminate.
Qed.

(** C7, as the code has it.  For each side [getBBO] returns the price and
    total of the first level of the table, which is the best price of the
    side, and the pair (0.0, 0) when the side has no level; no separate
    empty marker exists. *)
Theorem bbo_is_first_level_or_zero b sd :
  reachable b ->
  (side_table sd b = [] /\ bbo_side sd b = PriceLevel.mk (S754_zero false) 0) \/
  (exists k l t,
     side_table sd b = (k, l) :: t /\
     bbo_side sd b = PriceLevel.mk k (Limit.total_quantity l) /\
     forall k' l', (k', l') ∈ t -> comp_of sd k k' = true).
Proof.
  intros Hr. pose proof (wf_tables b (reachable_wf b Hr) sd) as Hok.
  destruct (side_table sd b) as [| [k l] t] eqn:E.
  - left. split; [reflexivity |]. destruct sd; simpl in *; rewrite E; reflexivity.
  - right. exists k, l, t. split; [reflexivity |]. split.
    + destruct sd; simpl in *; rewrite E; reflexivity.
    + apply table_ok_cons_inv in Hok as (_ & _ & Hlt); exact Hlt.
Qed.

(** C7 fails: the empty book and a book with a bid level at price 0.0 give
    the same best bid, (0.0, 0). *)
Lemma bbo_zero_sentinel_is_ambiguous : ~ bbo_marks_empty_side.
Proof.
  intros H.
  apply (H Bids empty_book zero_bid_book).
  - apply reachable_empty.
  - apply book_after_reachable.
  - reflexivity.
  - vm_compute. discriminate.
  - vm_compute. reflexivity.
Qed.

Lemma bbo_is_first_level_or_zero_witness :
  (side_table Bids zero_bid_book = [] /\
   bbo_side Bids zero_bid_book = PriceLevel.mk (S754_zero false) 0) \/
  (exists k l t,
     side_table Bids zero_bid_book = (k, l) :: t /\
     bbo_side Bids zero_bid_book = PriceLevel.mk k (Limit.total_quantity l) /\
     forall k' l', (k', l') ∈ t -> comp_of Bids k k' = true).
Proof.
  apply (bbo_is_first_level_or_zero zero_bid_book Bids).
  apply book_after_reachable.
Defined.

Lemma keq_dec comp a b : {keq comp a b} + {~ keq comp a b}.
Proof.
  unfold keq. destruct (comp a b), (comp b a);
    (left; split; reflexivity) || (right; intros [? ?]; discriminate).
Defined.

(** C9.  [newOrder] leaves the table of the opposite side as it is,
    whatever the price, so also when the price meets or beats the best
    opposite price; every order in the arena and every entry of the index
    stays as it was, and every level on the order's own side keeps its
    members, in order, with at most the new order behind them. *)
Theorem new_order_never_crosses b is_buy p q now :
  reachable b -> is_nan p = false ->
  exists b',
    newOrder is_buy p q now b = Ok (next_order_id b, b') /\
    side_table (opposite (side_of is_buy)) b'
      = side_table (opposite (side_of is_buy)) b /\
    (forall h o, order_storage b !! h = Some o -> order_storage b' !! h = Some o) /\
    (forall id h, order_lookup b !! id = Some h -> order_lookup b' !! id = Some h) /\
    (forall k l, (k, l) ∈ side_table (side_of is_buy) b ->
       exists l' tail, (k, l') ∈ side_table (side_of is_buy) b' /\
                  Limit.orders l' = Limit.orders l ++ tail).
Proof.
  intros Hr Hnan. pose proof (reachable_wf b Hr) as Hwf.
  eexists. split; [apply newOrder_ok; exact Hnan |].
  split; [| split; [| split]].
  - rewrite side_table_added by (destruct is_buy; discriminate).
    apply side_table_allocated.
  - intros h o Ho. unfold added, allocated. book_simpl.
    destruct (wf_alloc b Hwf h o Ho) as [Hlt _].
    rewrite !lookup_insert_ne by lia. exact Ho.
  - intros id h Hl. unfold added, allocated. book_simpl.
    destruct (wf_index b Hwf id h Hl) as [Hlt _].
    rewrite lookup_insert_ne by lia. exact Hl.
  - intros k l Hk. unfold added. book_simpl.
    rewrite side_table_allocated.
    pose proof (wf_tables b Hwf (side_of is_buy)) as Hok.
    destruct (keq_dec (comp_of (side_of is_buy)) k p) as [Heq | Hne].
    + eexists. exists [(S (next_addr b), next_addr b)].
      split; [apply elem_written_same; (apply _ || eassumption) |].
      reflexivity.
    + exists l, []. split; [| rewrite app_nil_r; reflexivity].
      apply elem_written_other; (apply _ || assumption).
Qed.

Lemma new_order_never_crosses_witness :
  exists b',
    newOrder true (dbl 105) 7 0 two_sided_book
      = Ok (next_order_id two_sided_book, b') /\
    side_table Asks b' = side_table Asks two_sided_book /\
    (forall h o, order_storage two_sided_book !! h = Some o ->
                 order_storage b' !! h = Some o) /\
    (forall id h, order_lookup two_sided_book !! id = Some h ->
                  order_lookup b' !! id = Some h) /\
    (forall k l, (k, l) ∈ side_table Bids two_sided_book ->
       exists l' tail, (k, l') ∈ side_table Bids b' /\
                  Limit.orders l' = Limit.orders l ++ tail).
Proof.
  apply (new_order_never_crosses two_sided_book true (dbl 105) 7 0).
  - apply book_after_reachable.
  - reflexivity.
Defined.

Lemma SFeqb_refl a : is_nan a = false -> SFeqb a a = true.
Proof.
  unfold SFeqb, SFcompare.
  destruct a as [[]|[]| |[] m e]; simpl; try reflexivity; try discriminate;
    intros _; rewrite Z.compare_refl;
    change (Pos.compare_cont Eq m m) with (m ?= m)%positive;
    rewrite Pos.compare_refl; reflexivity.
Qed.

Lemma remove_resting_ok b h o :
  wf b -> order_storage b !! h = Some o -> resting b h ->
  exists k l n members,
    level_at (side_of (Order.is_buy o)) (Order.price o) b = Some (k, l) /\
    Order.position_in_limit o = Some n /\
    (n, h) ∈ Limit.orders l /\
    list_erase n (Limit.orders l) = Some members /\
    remove_order_internal (side_of (Order.is_buy o)) h b =
    Ok (set_side_table (side_of (Order.is_buy o))
          (removed_table (side_of (Order.is_buy o)) o l members
             (side_table (side_of (Order.is_buy o)) b)) b).
Proof.
  intros Hwf Ho (sd & k & l & n & Hk & Hn).
  destruct (member_level b sd k l n h o Hwf Hk Hn Ho) as (Hsd & Hpos & Hnan & Hf).
  subst sd. destruct (list_erase_is_Some n h _ Hn) as [members Her].
  exists k, l, n, members. unfold level_at.
  split; [exact Hf |]. split; [exact Hpos |]. split; [exact Hn |].
  split; [exact Her |].
  unfold remove_order_internal, removed_table. rewrite Ho, Hnan, Hf, Hpos, Her.
  destruct (_ =? 0); reflexivity.
Qed.

(** [amendOrder] on an order that rests in a level returns, and the order
    then carries the new quantity at a price equal to the new price. *)
Lemma amend_resting_ok b id h p q :
  wf b -> order_lookup b !! id = Some h -> resting b h -> is_nan p = false ->
  exists b' o',
    amendOrder id p q b = Ok (true, b') /\
    order_storage b' !! h = Some o' /\
    Order.quantity o' = q /\ d_neq (Order.price o') p = false.
Proof.
  intros Hwf Hl Hrest Hnan.
  destruct (wf_index b Hwf id h Hl) as [_ (o & Ho & _)].
  rewrite amendOrder_eq, Hl, Ho. cbv zeta.
  destruct (d_neq (Order.price o) p) eqn:Hp.
  - destruct (remove_resting_ok b h o Hwf Ho Hrest)
      as (k & l & n & members & _ & _ & _ & _ & ->).
    simpl. book_simpl. rewrite (alter_stored _ _ _ _ Ho).
    erewrite add_order_internal_eq;
      [| simpl; apply lookup_insert_eq | exact Hnan].
    simpl. eexists. eexists. split; [reflexivity |].
    unfold added. book_simpl. rewrite lookup_insert_eq.
    split; [reflexivity |]. simpl. split; [reflexivity |].
    unfold d_neq. rewrite SFeqb_refl by exact Hnan. reflexivity.
  - unfold adjust_total. rewrite (d_neq_false_not_nan _ _ Hp). simpl.
    eexists. eexists. split; [reflexivity |]. book_simpl.
    rewrite lookup_insert_eq. split; [reflexivity |]. simpl. auto.
Qed.

(** C8, as the code has it.  Neither [newOrder] nor [amendOrder] checks its
    arguments: for every price that is not NaN, negative and infinite ones
    included, and every quantity, [newOrder] creates and indexes the order
    and [amendOrder] on a resting order returns [true] and gives the order
    the new quantity and price. *)
Theorem arguments_are_not_validated b is_buy p q now :
  reachable b -> is_nan p = false ->
  (exists b',
     newOrder is_buy p q now b = Ok (next_order_id b, b') /\
     order_lookup b' !! next_order_id b = Some (next_addr b) /\
     order_storage b' !! next_addr b =
       Some (Order.mk (next_order_id b) is_buy p q (wrap64 now)
               (Some (S (next_addr b))))) /\
  (forall id h,
     order_lookup b !! id = Some h -> resting b h ->
     exists b' o',
       amendOrder id p q b = Ok (true, b') /\
       order_storage b' !! h = Some o' /\
       Order.quantity o' = q /\ d_neq (Order.price o') p = false).
Proof.
  intros Hr Hnan. split.
  - eexists. split; [apply newOrder_ok; exact Hnan |].
    unfold added, allocated. book_simpl.
    split; apply lookup_insert_eq.
  - intros id h Hl Hrest.
    apply amend_resting_ok; auto using reachable_wf.
Qed.

(** C8 fails: a buy order at price -1.0 is accepted into the empty book,
    and so is one at an infinite price. *)
Lemma negative_price_is_accepted :
  (exists b', newOrder true (dbl (-1)) 5 0 empty_book = Ok (1, b') /\
              b' <> empty_book /\
              bbo_side Bids b' = PriceLevel.mk (dbl (-1)) 5) /\
  (exists b', newOrder true d_inf 5 0 empty_book = Ok (1, b') /\
              b' <> empty_book /\
              bbo_side Bids b' = PriceLevel.mk d_inf 5).
Proof.
  split; eexists; (split; [vm_compute; reflexivity |]);
    (split; [intros H; apply (f_equal next_order_id) in H; vm_compute in H;
             discriminate | vm_compute; reflexivity]).
Qed.

Lemma arguments_are_not_validated_witness :
  (exists b',
     newOrder false (dbl (-1)) 5 0 two_sided_book
       = Ok (next_order_id two_sided_book, b') /\
     order_lookup b' !! next_order_id two_sided_book
       = Some (next_addr two_sided_book) /\
     order_storage b' !! next_addr two_sided_book =
       Some (Order.mk (next_order_id two_sided_book) false (dbl (-1)) 5
               (wrap64 0) (Some (S (next_addr two_sided_book))))) /\
  (forall id h,
     order_lookup two_sided_book !! id = Some h -> resting two_sided_book h ->
     exists b' o',
       amendOrder id (dbl (-1)) 5 two_sided_book = Ok (true, b') /\
       order_storage b' !! h = Some o' /\
       Order.quantity o' = 5 /\ d_neq (Order.price o') (dbl (-1)) = false).
Proof.
  apply (arguments_are_not_validated two_sided_book false (dbl (-1)) 5 0).
  - apply book_after_reachable.
  - reflexivity.
Defined.

(** C10.  [newOrder] with quantity 0 returns, with an identifier that was
    not in the index; the order is indexed and stored with quantity 0 and
    is the last member of the level of its price, whose total it leaves as
    it was.  When the price had no level, the new level has total 0 and
    this one member, every snapshot deep enough lists it with total 0
    (for a depth within the [max_size()] of the vectors, beyond which
    [getSnapshot] throws), and [getBBO] reports it with total 0 when it is
    the only level of its side. *)
Theorem zero_quantity_order_is_visible b is_buy p now :
  reachable b -> is_nan p = false ->
  exists b',
    newOrder is_buy p 0 now b = Ok (next_order_id b, b') /\
    order_lookup b !! next_order_id b = None /\
    order_lookup b' !! next_order_id b = Some (next_addr b) /\
    order_storage b' !! next_addr b =
      Some (Order.mk (next_order_id b) is_buy p 0 (wrap64 now)
              (Some (S (next_addr b)))) /\
    match level_at (side_of is_buy) p b with
    | Some (k, l) =>
        level_at (side_of is_buy) p b' =
        Some (k, Limit.mk (Limit.total_quantity l)
                   (Limit.orders l ++ [(S (next_addr b), next_addr b)]))
    | None =>
        level_at (side_of is_buy) p b' =
          Some (p, Limit.mk 0 [(S (next_addr b), next_addr b)]) /\
        (forall depth,
           (length (side_table (side_of is_buy) b') <= depth)%nat ->
           Z.of_nat depth <= vector_max_size ->
           getSnapshot depth b' =
             Returns (snapshot_of Bids depth b', snapshot_of Asks depth b') /\
           PriceLevel.mk p 0 ∈ snapshot_of (side_of is_buy) depth b') /\
        (side_table (side_of is_buy) b = [] ->
         bbo_side (side_of is_buy) b' = PriceLevel.mk p 0)
    end.
Proof.
  intros Hr Hnan. pose proof (reachable_wf b Hr) as Hwf.
  eexists. split; [apply newOrder_ok; exact Hnan |].
  split; [| split; [| split]].
  - destruct (order_lookup b !! next_order_id b) as [h |] eqn:E; [| reflexivity].
    destruct (wf_index b Hwf _ h E). lia.
  - unfold added, allocated. book_simpl. apply lookup_insert_eq.
  - unfold added, allocated. book_simpl. apply lookup_insert_eq.
  - assert (Hlev : level_at (side_of is_buy) p
             (added (side_of is_buy) (next_addr b)
                (Order.mk (next_order_id b) is_buy p 0 (wrap64 now) None)
                (allocated is_buy p 0 now b)) =
             Some (match level_at (side_of is_buy) p b with
                   | Some (k, l) =>
                       (k, limit_push (S (next_addr b)) (next_addr b) 0 l)
                   | None =>
                       (p, limit_push (S (next_addr b)) (next_addr b) 0 Limit.empty)
                   end)).
    { unfold level_at, added. book_simpl. rewrite side_table_allocated.
      rewrite map_find_update_subscript by apply _.
      destruct (map_find _ _ _) as [[k l] |]; reflexivity. }
    destruct (level_at (side_of is_buy) p b) as [[k l] |] eqn:E.
    + rewrite Hlev. unfold limit_push. rewrite Z.add_0_r, wrap64_small; [reflexivity |].
      apply map_find_elem in E as [Hk _]. exact (wf_totals b Hwf _ k l Hk).
    + split; [exact Hlev |]. split.
      * intros depth Hd Hmax.
        assert (Hin : (p, Limit.mk 0 [(S (next_addr b), next_addr b)]) ∈
                  side_table (side_of is_buy)
                    (added (side_of is_buy) (next_addr b)
                       (Order.mk (next_order_id b) is_buy p 0 (wrap64 now) None)
                       (allocated is_buy p 0 now b))).
        { apply map_find_elem in Hlev as [Hin _]. exact Hin. }
        revert Hd Hin.
        generalize (added (side_of is_buy) (next_addr b)
                      (Order.mk (next_order_id b) is_buy p 0 (wrap64 now) None)
                      (allocated is_buy p 0 now b)).
        intros b1 Hd Hin.
        assert (Hle : (Z.of_nat depth <=? vector_max_size) = true)
          by (apply Z.leb_le; exact Hmax).
        split.
        { rewrite !snapshot_of_rows, Hle. apply getSnapshot_returns, Hmax. }
        rewrite snapshot_of_rows, Hle.
        rewrite take_ge by (rewrite length_map; exact Hd).
        apply list_elem_of_fmap. eexists. split; [| exact Hin]. reflexivity.
      * intros He. unfold added.
        destruct is_buy; simpl in *; rewrite He; simpl;
          rewrite (sw_irrefl (comp := _)); reflexivity.
Qed.






Lemma amend_price_change_eq b id h o p q :
  order_lookup b !! id = Some h -> order_storage b !! h = Some o ->
  d_neq (Order.price o) p = true ->
  amendOrder id p q b =
  match remove_order_internal (side_of (Order.is_buy o)) h b with
  | Ok b1 => if is_nan p then Undefined else Ok (true, amended h o p q b1)
  | Undefined => Undefined
  end.
Proof.
  intros Hl Ho Hp. rewrite amendOrder_eq, Hl, Ho. cbv zeta. rewrite Hp.
  destruct (remove_order_internal _ _ _) as [b1 |] eqn:Hr; [| reflexivity].
  destruct (remove_order_internal_frame _ _ _ _ Hr) as (Hst & _).
  simpl. rewrite alter_stored with (x := o) by (rewrite Hst; exact Ho).
  unfold add_order_internal, amended, added. simpl.
  rewrite lookup_insert_eq. simpl. destruct (is_nan p); reflexivity.
Qed.





Example two_bids_level :
  level_at Bids (dbl 100) two_bids_book =
  Some (dbl 100, Limit.mk 15 [(1%nat, 0%nat); (3%nat, 2%nat)]).
Proof. vm_compute. reflexivity. Qed.

Section MembersQuantity.
Implicit Types (st : gmap addr Order.t) (l : list (addr * addr)).

Lemma members_quantity_app st l1 l2 :
members_quantity st (l1 ++ l2) = members_quantity st l1 + members_quantity st l2.
Proof.
unfold members_quantity. induction l1 as [| x l1 IH]; simpl; [reflexivity |].
rewrite IH. lia.
Qed.

Lemma members_quantity_ext st st' l :
(forall n x, (n, x) ∈ l -> quantity_of st' x = quantity_of st x) ->
members_quantity st' l = members_quantity st l.
Proof.
unfold members_quantity. induction l as [| [n x] l IH]; simpl; intros H;
  [reflexivity |].
rewrite (H n x) by left. rewrite IH; [reflexivity |].
intros n' x' Hin. apply (H n' x'). right. exact Hin.
Qed.

Lemma members_quantity_erase st n h l l' :
NoDup (l.*1) -> (n, h) ∈ l -> list_erase n l = Some l' ->
members_quantity st l = quantity_of st h + members_quantity st l'.
Proof.
unfold members_quantity. revert l'.
induction l as [| [n0 h0] l IH]; simpl; intros l' Hnd Hin He.
- inversion Hin.
- apply NoDup_cons in Hnd as [Hn0 Hnd].
  destruct (Nat.eqb_spec n0 n) as [-> | Hne].
  + injection He as <-.
    apply elem_of_cons in Hin as [[= <-] | Hin]; [reflexivity |].
    exfalso. apply Hn0. apply list_elem_of_fmap. exists (n, h). auto.
  + destruct (list_erase n l) as [l0 |] eqn:E; [| discriminate].
    injection He as <-. simpl.
    apply elem_of_cons in Hin as [[= <- <-] | Hin]; [congruence |].
    rewrite (IH l0 Hnd Hin eq_refl). lia.
Qed.

Lemma members_quantity_pos st l :
(forall n x, (n, x) ∈ l -> 0 < quantity_of st x) ->
0 <= members_quantity st l /\ (l <> [] -> 0 < members_quantity st l).
Proof.
unfold members_quantity. induction l as [| [n x] l IH]; simpl; intros H.
- split; [lia | congruence].
- pose proof (H n x ltac:(left)) as Hx.
  destruct IH as [IH _]; [intros n' x' Hin; apply (H n' x'); right; exact Hin |].
  split; [lia | intros _; lia].
Qed.
End MembersQuantity.

Lemma elem_removed_other sd o limit members t k l :
  table_ok (comp_of sd) t -> is_nan (Order.price o) = false ->
  (k, l) ∈ t -> ~ keq (comp_of sd) k (Order.price o) ->
  (k, l) ∈ removed_table sd o limit members t.
Proof.
  intros Hok Hnan Hin Hne. unfold removed_table. destruct (_ =? 0).
  - apply elem_erase; (apply _ || auto).
  - apply elem_update; (apply _ || auto).
Qed.

Lemma elem_removed_same sd o limit members t k l0 :
  table_ok (comp_of sd) t -> is_nan (Order.price o) = false ->
  map_find (comp_of sd) (Order.price o) t = Some (k, l0) ->
  wrap64 (Limit.total_quantity limit - Order.quantity o) <> 0 ->
  (k, Limit.mk (wrap64 (Limit.total_quantity limit - Order.quantity o)) members)
    ∈ removed_table sd o limit members t.
Proof.
  intros Hok Hnan Hf Hz. unfold removed_table.
  destruct (Z.eqb_spec (wrap64 (Limit.total_quantity limit - Order.quantity o)) 0);
    [congruence |].
  apply elem_update; [apply _ | assumption | assumption |]. right. eauto.
Qed.

Lemma map_find_congr sd a b t :
  SFeqb a b = true ->
  map_find (comp_of sd) a t = map_find (comp_of sd) b t.
Proof.
  intros Hab. induction t as [| [k v] t IH]; simpl; [reflexivity |].
  assert (H1 : comp_of sd k a = comp_of sd k b).
  { destruct (SFeqb_congr a b k Hab) as [E1 E2].
    destruct sd; simpl; unfold greater, less, SFltb; rewrite ?E1, ?E2; reflexivity. }
  assert (H2 : comp_of sd a k = comp_of sd b k).
  { destruct (SFeqb_congr a b k Hab) as [E1 E2].
    destruct sd; simpl; unfold greater, less, SFltb; rewrite ?E1, ?E2; reflexivity. }
  rewrite H1, H2, IH. reflexivity.
Qed.

Lemma quantity_of_stored (st : gmap addr Order.t) h o :
  st !! h = Some o -> quantity_of st h = Order.quantity o.
Proof. unfold quantity_of. intros ->. reflexivity. Qed.

Lemma member_quantity_positive hx b sd k l n x :
  solid_but hx b -> (k, l) ∈ side_table sd b -> (n, x) ∈ Limit.orders l ->
  0 < quantity_of (order_storage b) x.
Proof.
  intros Hs Hk Hx.
  destruct (wf_members b (sb_wf _ _ Hs) sd k l n x Hk Hx) as (o & Ho & _).
  rewrite (quantity_of_stored _ _ _ Ho). apply (sb_quantity _ _ Hs x o Ho).
  intros <-. exact (sb_detached _ _ Hs x eq_refl sd k l n Hk Hx).
Qed.

Lemma solid_empty_book : solid_but None empty_book.
Proof.
  split; simpl.
  - apply wf_empty_book.
  - intros h o H. rewrite lookup_empty in H. discriminate.
  - intros [] k l H; inversion H.
  - intros [] k l H; inversion H.
  - intros h o H. rewrite lookup_empty in H. discriminate.
  - discriminate.
Qed.

Lemma node_unique (l : list (addr * addr)) n h1 h2 :
  NoDup (l.*1) -> (n, h1) ∈ l -> (n, h2) ∈ l -> h1 = h2.
Proof.
  induction l as [| [n0 h0] l IH]; simpl; intros Hnd H1 H2.
  - inversion H1.
  - apply NoDup_cons in Hnd as [Hn0 Hnd].
    assert (Hnot : forall x, (n0, x) ∉ l).
    { intros x Hx. apply Hn0. apply list_elem_of_fmap. exists (n0, x). auto. }
    apply elem_of_cons in H1 as [E1 | H1];
      apply elem_of_cons in H2 as [E2 | H2].
    + congruence.
    + injection E1 as -> ->. exfalso. exact (Hnot _ H2).
    + injection E2 as -> ->. exfalso. exact (Hnot _ H1).
    + exact (IH Hnd H1 H2).
Qed.

Lemma remove_solid b h o b1 :
  solid_but None b -> order_storage b !! h = Some o ->
  remove_order_internal (side_of (Order.is_buy o)) h b = Ok b1 ->
  solid_but (Some h) b1.
Proof.
  intros Hs Ho Hrem. pose proof (sb_wf _ _ Hs) as Hwf.
  set (sd := side_of (Order.is_buy o)) in *.
  destruct (remove_order_internal_wf sd h o b b1 Hwf Ho eq_refl Hrem) as [Hwf1 Hdet].
  assert (Hrest : resting b h) by (apply (sb_resting _ _ Hs h o Ho); discriminate).
  destruct (remove_resting_ok b h o Hwf Ho Hrest)
    as (k & l & n & members & Hlev & Hpos & Hn & Her & Heq).
  fold sd in Hlev, Heq. rewrite Heq in Hrem. injection Hrem as <-.
  unfold level_at in Hlev.
  pose proof (map_find_elem _ _ _ _ _ Hlev) as [Hk Hkeq].
  destruct (member_level b sd k l n h o Hwf Hk Hn Ho) as (_ & _ & Hnan & _).
  pose proof (wf_tables b Hwf sd) as Hok.
  pose proof (wf_nodes b Hwf sd k l Hk) as Hnd.
  pose proof (wf_totals b Hwf sd k l Hk) as Hrange.
  pose proof (sb_total _ _ Hs sd k l Hk) as Htot.
  rewrite (members_quantity_erase _ n h _ members Hnd Hn Her) in Htot.
  rewrite (quantity_of_stored _ _ _ Ho) in Htot.
  assert (Hmpos : forall n' x, (n', x) ∈ members ->
            0 < quantity_of (order_storage b) x).
  { intros n' x Hx. apply (list_erase_sub _ _ _ Her) in Hx.
    eapply member_quantity_positive; eassumption. }
  destruct (members_quantity_pos (order_storage b) members Hmpos) as [Hge Hgt].
  assert (Hq : 0 < Order.quantity o)
    by (apply (sb_quantity _ _ Hs h o Ho); discriminate).
  assert (Hw : wrap64 (Limit.total_quantity l - Order.quantity o) =
               members_quantity (order_storage b) members).
  { rewrite wrap64_small; [lia |]. unfold u64 in *. lia. }
  split.
  - exact Hwf1.
  - book_simpl. intros h' o' Ho' _.
    destruct (decide (h' = h)) as [-> | Hne].
    + apply (sb_quantity _ _ Hs h o'); [exact Ho' | discriminate].
    + apply (sb_quantity _ _ Hs h' o'); [exact Ho' | discriminate].
  - intros sd' k' l' Hk'. book_simpl.
    destruct (decide (sd' = sd)) as [-> | Hne].
    + book_simpl_in Hk'. apply elem_removed_table in Hk'; [| assumption | assumption].
      destruct Hk' as [[Hk' _] | (l0 & _ & -> & _)].
      * exact (sb_total _ _ Hs sd k' l' Hk').
      * simpl. exact Hw.
    + rewrite side_table_set_other in Hk' by congruence.
      exact (sb_total _ _ Hs sd' k' l' Hk').
  - intros sd' k' l' Hk'.
    destruct (decide (sd' = sd)) as [-> | Hne].
    + book_simpl_in Hk'. apply elem_removed_table in Hk'; [| assumption | assumption].
      destruct Hk' as [[Hk' _] | (l0 & _ & -> & Hz)].
      * exact (sb_members _ _ Hs sd k' l' Hk').
      * simpl. intros ->. apply Hz. rewrite Hw. reflexivity.
    + rewrite side_table_set_other in Hk' by congruence.
      exact (sb_members _ _ Hs sd' k' l' Hk').
  - book_simpl. intros h' o' Ho' Hne.
    assert (Hh' : h' <> h) by congruence.
    destruct (sb_resting _ _ Hs h' o' Ho') as (sd' & k' & l' & n' & Hk' & Hn');
      [discriminate |].
    destruct (decide (sd' = sd)) as [-> | Hsd].
    + destruct (keq_dec (comp_of sd) k' (Order.price o)) as [Heq' | Hne'].
      * assert (Hf' := elem_map_find (comp_of sd) _ _ k' l' Hok Hnan Hk' Heq').
        rewrite Hlev in Hf'. injection Hf' as <- <-.
        assert (Hn'' : (n', h') ∈ members).
        { apply (list_erase_elem n _ _ Hnd Her). split; [exact Hn' |].
          intros ->. apply Hh'.
          exact (node_unique (Limit.orders l) n h' h Hnd Hn' Hn). }
        exists sd, k, (Limit.mk (wrap64 (Limit.total_quantity l - Order.quantity o))
                         members), n'.
        split; [| exact Hn'']. book_simpl.
        eapply elem_removed_same; try eassumption.
        rewrite Hw. pose proof (Hmpos n' h' Hn'').
        assert (members <> []) by (intros ->; inversion Hn''). specialize (Hgt H0). lia.
      * exists sd, k', l', n'. split; [| exact Hn']. book_simpl.
        apply elem_removed_other; assumption.
    + exists sd', k', l', n'. split; [| exact Hn'].
      rewrite side_table_set_other by congruence. exact Hk'.
  - intros h' [= <-]. exact Hdet.
Qed.

Lemma quantity_of_insert (st : gmap addr Order.t) h o o' x :
  st !! h = Some o -> Order.quantity o' = Order.quantity o ->
  quantity_of (<[h := o']> st) x = quantity_of st x.
Proof.
  intros Ho Hq. unfold quantity_of. rewrite lookup_insert.
  case_decide as Hx; [subst x; rewrite Ho; exact Hq | reflexivity].
Qed.

Lemma added_solid b h o :
  solid_but (Some h) b -> order_storage b !! h = Some o ->
  0 < Order.quantity o ->
  level_total (side_of (Order.is_buy o)) (Order.price o) b + Order.quantity o
    < two64 ->
  is_nan (Order.price o) = false ->
  solid_but None (added (side_of (Order.is_buy o)) h o b).
Proof.
  intros Hs Ho Hq Hroom Hnan. pose proof (sb_wf _ _ Hs) as Hwf.
  pose proof (sb_detached _ _ Hs h eq_refl) as Hdet.
  set (sd := side_of (Order.is_buy o)) in *.
  pose proof (wf_tables b Hwf sd) as Hok.
  assert (Hqo : forall x,
            quantity_of (order_storage (added sd h o b)) x =
            quantity_of (order_storage b) x).
  { intros x. unfold added. book_simpl.
    apply quantity_of_insert with (o := o); [exact Ho | reflexivity]. }
  assert (Hmq : forall l,
            members_quantity (order_storage (added sd h o b)) l =
            members_quantity (order_storage b) l).
  { intros l. apply members_quantity_ext. intros; apply Hqo. }
  assert (Hin : exists k l0,
            (k, limit_push (next_addr b) h (Order.quantity o) l0)
              ∈ side_table sd (added sd h o b)).
  { unfold added. book_simpl.
    destruct (map_find (comp_of sd) (Order.price o) (side_table sd b))
      as [[k0 l0] |] eqn:Hf.
    - exists k0, l0. apply map_find_elem in Hf as [Hk0 Heq].
      apply elem_written_same; (apply _ || assumption).
    - exists (Order.price o), Limit.empty.
      apply elem_written_new; (apply _ || assumption). }
  split.
  - apply added_wf; auto.
  - intros h' o'. unfold added. book_simpl. rewrite lookup_insert.
    case_decide as Hh.
    + intros [= <-] _. exact Hq.
    + intros Ho' _. apply (sb_quantity _ _ Hs h' o' Ho'). congruence.
  - intros sd' k' l' Hk'. rewrite Hmq.
    destruct (decide (sd' = sd)) as [-> | Hne].
    + unfold added in Hk'. book_simpl_in Hk'.
      apply elem_written in Hk'; [| apply _ | assumption | assumption].
      destruct Hk' as [[Hk' _] | (l0 & -> & Hkeq & Hk')];
        [exact (sb_total _ _ Hs sd k' l' Hk') |].
      simpl. rewrite members_quantity_app. simpl.
      rewrite (quantity_of_stored _ _ _ Ho).
      destruct Hk' as [Hk' | (-> & -> & Hnone)].
      * assert (Hf := elem_map_find (comp_of sd) _ _ k' l0 Hok Hnan Hk' Hkeq).
        unfold level_total, level_at in Hroom. rewrite Hf in Hroom.
        pose proof (wf_totals b Hwf sd k' l0 Hk') as Hr.
        rewrite <- (sb_total _ _ Hs sd k' l0 Hk').
        rewrite wrap64_small; [lia |]. unfold u64 in *. lia.
      * simpl. rewrite wrap64_small; [lia |]. unfold u64.
        unfold level_total, level_at in Hroom. rewrite Hnone in Hroom. lia.
    + rewrite side_table_added in Hk' by assumption.
      exact (sb_total _ _ Hs sd' k' l' Hk').
  - intros sd' k' l' Hk'.
    destruct (decide (sd' = sd)) as [-> | Hne].
    + unfold added in Hk'. book_simpl_in Hk'.
      apply elem_written in Hk'; [| apply _ | assumption | assumption].
      destruct Hk' as [[Hk' _] | (l0 & -> & _)];
        [exact (sb_members _ _ Hs sd k' l' Hk') |].
      simpl. destruct (Limit.orders l0); discriminate.
    + rewrite side_table_added in Hk' by assumption.
      exact (sb_members _ _ Hs sd' k' l' Hk').
  - intros h' o' Ho' _.
    destruct (decide (h' = h)) as [-> | Hh].
    + destruct Hin as (k & l0 & Hin).
      exists sd, k, (limit_push (next_addr b) h (Order.quantity o) l0), (next_addr b).
      split; [exact Hin |]. simpl. apply elem_of_app. right. left.
    + assert (Ho'' : order_storage b !! h' = Some o').
      { unfold added in Ho'. book_simpl_in Ho'.
        rewrite lookup_insert_ne in Ho' by congruence. exact Ho'. }
      destruct (sb_resting _ _ Hs h' o' Ho'') as (sd' & k' & l' & n' & Hk' & Hn');
        [congruence |].
      destruct (decide (sd' = sd)) as [-> | Hne].
      * destruct (keq_dec (comp_of sd) k' (Order.price o)) as [Heq | Hneq].
        -- exists sd, k', (limit_push (next_addr b) h (Order.quantity o) l'), n'.
           split; [| simpl; apply elem_of_app; left; exact Hn'].
           unfold added. book_simpl.
           apply elem_written_same; (apply _ || assumption).
        -- exists sd, k', l', n'. split; [| exact Hn'].
           unfold added. book_simpl.
           apply elem_written_other; (apply _ || assumption).
      * exists sd', k', l', n'. split; [| exact Hn'].
        rewrite side_table_added by assumption. exact Hk'.
  - discriminate.
Qed.

Lemma stored_solid_but b h o o' :
  solid_but (Some h) b -> order_storage b !! h = Some o ->
  Order.order_id o' = Order.order_id o ->
  Order.position_in_limit o' = Order.position_in_limit o ->
  solid_but (Some h) (set_storage (<[h := o']> (order_storage b)) b).
Proof.
  intros Hs Ho Hid Hpos. pose proof (sb_wf _ _ Hs) as Hwf.
  pose proof (sb_detached _ _ Hs h eq_refl) as Hdet.
  split.
  - apply wf_store with (o := o); auto.
  - intros h' o0. simpl. intros Ho0 Hne.
    rewrite lookup_insert_ne in Ho0 by congruence.
    exact (sb_quantity _ _ Hs h' o0 Ho0 Hne).
  - intros sd k l. rewrite side_table_set_storage. simpl. intros Hk.
    rewrite (sb_total _ _ Hs sd k l Hk). symmetry.
    apply members_quantity_ext. intros n x Hx. unfold quantity_of.
    rewrite lookup_insert_ne; [reflexivity |].
    intros <-. exact (Hdet sd k l n Hk Hx).
  - intros sd k l. rewrite side_table_set_storage. apply (sb_members _ _ Hs).
  - intros h' o0. simpl. intros Ho0 Hne.
    rewrite lookup_insert_ne in Ho0 by congruence.
    destruct (sb_resting _ _ Hs h' o0 Ho0 Hne) as (sd & k & l & n & Hk & Hn).
    exists sd, k, l, n. rewrite side_table_set_storage. auto.
  - intros h' [= <-]. apply detached_set_storage, Hdet.
Qed.

Lemma allocated_solid is_buy price quantity now b :
  solid_but None b -> next_order_id b < two64 - 1 ->
  solid_but (Some (next_addr b)) (allocated is_buy price quantity now b).
Proof.
  intros Hs Hid. pose proof (sb_wf _ _ Hs) as Hwf.
  destruct (allocated_wf is_buy price quantity now b Hwf Hid) as [Hwf1 Hdet].
  split.
  - exact Hwf1.
  - intros h' o0. unfold allocated. simpl. intros Ho0 Hne.
    rewrite lookup_insert_ne in Ho0 by congruence.
    apply (sb_quantity _ _ Hs h' o0 Ho0). discriminate.
  - intros sd k l. rewrite side_table_allocated. intros Hk.
    rewrite (sb_total _ _ Hs sd k l Hk). symmetry.
    apply members_quantity_ext. intros n x Hx. unfold quantity_of, allocated. simpl.
    rewrite lookup_insert_ne; [reflexivity |].
    destruct (node_allocated b sd k l n x Hwf Hk Hx). lia.
  - intros sd k l. rewrite side_table_allocated. apply (sb_members _ _ Hs).
  - intros h' o0. unfold allocated at 1. simpl. intros Ho0 Hne.
    rewrite lookup_insert_ne in Ho0 by congruence.
    destruct (sb_resting _ _ Hs h' o0 Ho0) as (sd & k & l & n & Hk & Hn);
      [discriminate |].
    exists sd, k, l, n. rewrite side_table_allocated. auto.
  - intros h' [= <-]. exact Hdet.
Qed.

Lemma destroyed_solid id h b :
  solid_but (Some h) b -> order_lookup b !! id = Some h ->
  solid_but None (set_storage (delete h (order_storage b))
                    (set_lookup (delete id (order_lookup b)) b)).
Proof.
  intros Hs Hl. pose proof (sb_wf _ _ Hs) as Hwf.
  pose proof (sb_detached _ _ Hs h eq_refl) as Hdet.
  split.
  - apply wf_destroy; assumption.
  - intros h' o0. simpl. rewrite lookup_delete. case_decide as Hh; [discriminate |].
    intros Ho0 _. apply (sb_quantity _ _ Hs h' o0 Ho0). congruence.
  - intros sd k l. rewrite side_table_set_storage, side_table_set_lookup. simpl.
    intros Hk. rewrite (sb_total _ _ Hs sd k l Hk). symmetry.
    apply members_quantity_ext. intros n x Hx. unfold quantity_of.
    rewrite lookup_delete_ne; [reflexivity |].
    intros <-. exact (Hdet sd k l n Hk Hx).
  - intros sd k l. rewrite side_table_set_storage, side_table_set_lookup.
    apply (sb_members _ _ Hs).
  - intros h' o0. simpl. rewrite lookup_delete. case_decide as Hh; [discriminate |].
    intros Ho0 _.
    destruct (sb_resting _ _ Hs h' o0 Ho0) as (sd & k & l & n & Hk & Hn);
      [congruence |].
    exists sd, k, l, n. rewrite side_table_set_storage, side_table_set_lookup. auto.
  - discriminate.
Qed.

Lemma amend_quantity_eq b id h o p q :
  order_lookup b !! id = Some h -> order_storage b !! h = Some o ->
  d_neq (Order.price o) p = false ->
  amendOrder id p q b = Ok (true, adjusted h o q b).
Proof.
  intros Hl Ho Hp. rewrite amendOrder_eq, Hl, Ho. cbv zeta. rewrite Hp.
  unfold adjust_total. rewrite (d_neq_false_not_nan _ _ Hp).
  rewrite side_table_set_storage. reflexivity.
Qed.

Lemma adjusted_solid b id h o p q :
  solid_but None b ->
  order_lookup b !! id = Some h -> order_storage b !! h = Some o ->
  d_neq (Order.price o) p = false -> 0 < q ->
  level_total (side_of (Order.is_buy o)) p b + q < two64 ->
  solid_but None (adjusted h o q b).
Proof.
  intros Hs Hl Ho Hp Hq Hroom. pose proof (sb_wf _ _ Hs) as Hwf.
  set (sd := side_of (Order.is_buy o)) in *.
  assert (Hrest : resting b h) by (apply (sb_resting _ _ Hs h o Ho); discriminate).
  destruct (remove_resting_ok b h o Hwf Ho Hrest)
    as (k & l & n & members & Hlev & Hpos & Hn & Her & _).
  fold sd in Hlev. unfold level_at in Hlev.
  pose proof (map_find_elem _ _ _ _ _ Hlev) as [Hk Hkeq].
  pose proof (d_neq_false_not_nan _ _ Hp) as Hnan.
  pose proof (wf_tables b Hwf sd) as Hok.
  pose proof (wf_nodes b Hwf sd k l Hk) as Hnd.
  pose proof (wf_totals b Hwf sd k l Hk) as Hrange.
  assert (Hqo : 0 < Order.quantity o)
    by (apply (sb_quantity _ _ Hs h o Ho); discriminate).
  assert (Hroom' : Limit.total_quantity l + q < two64).
  { unfold level_total, level_at in Hroom.
    rewrite <- (map_find_congr sd (Order.price o) p) in Hroom.
    - fold sd in Hroom. rewrite Hlev in Hroom. exact Hroom.
    - unfold d_neq in Hp. apply negb_false_iff in Hp. exact Hp. }
  assert (Hst : forall x, x <> h ->
            quantity_of (order_storage (adjusted h o q b)) x =
            quantity_of (order_storage b) x).
  { intros x Hx. unfold adjusted, quantity_of. book_simpl.
    rewrite lookup_insert_ne by congruence. reflexivity. }
  assert (Hown : forall sd' k' l' n',
            (k', l') ∈ side_table sd' b -> (n', h) ∈ Limit.orders l' ->
            sd' = sd /\ k' = k /\ l' = l /\ n' = n).
  { intros sd' k' l' n' Hk' Hn'.
    destruct (member_level b sd' k' l' n' h o Hwf Hk' Hn' Ho)
      as (Hsd & Hpos' & _ & Hf).
    subst sd'. fold sd in Hf. rewrite Hlev in Hf. injection Hf as <- <-.
    split; [reflexivity |]. split; [reflexivity |]. split; [reflexivity |].
    congruence. }
  assert (Hothers : forall sd' k' l',
            (k', l') ∈ side_table sd' b -> (sd' = sd -> (k', l') <> (k, l)) ->
            members_quantity (order_storage (adjusted h o q b)) (Limit.orders l') =
            members_quantity (order_storage b) (Limit.orders l')).
  { intros sd' k' l' Hk' Hdiff. apply members_quantity_ext.
    intros n' x Hx. apply Hst. intros ->.
    destruct (Hown sd' k' l' n' Hk' Hx) as (-> & -> & -> & _).
    exact (Hdiff eq_refl eq_refl). }
  assert (Hmine : members_quantity (order_storage (adjusted h o q b)) (Limit.orders l)
                  = Limit.total_quantity l + (q - Order.quantity o)).
  { rewrite (members_quantity_erase _ n h _ members Hnd Hn Her).
    rewrite (sb_total _ _ Hs sd k l Hk).
    rewrite (members_quantity_erase (order_storage b) n h _ members Hnd Hn Her).
    rewrite (quantity_of_stored _ _ _ Ho).
    rewrite (quantity_of_stored _ h (with_quantity q o))
      by (unfold adjusted; book_simpl; apply lookup_insert_eq).
    simpl.
    rewrite (members_quantity_ext (order_storage b) _ members); [lia |].
    intros n' x Hx. apply Hst. intros ->.
    apply (list_erase_elem n _ _ Hnd Her) in Hx as [Hx Hne].
    destruct (Hown sd k l n' Hk Hx) as (_ & _ & _ & ->). congruence. }
  assert (Hlevels : forall sd' k' l',
            (k', l') ∈ side_table sd' (adjusted h o q b) ->
            ((k', l') ∈ side_table sd' b /\ (sd' = sd -> (k', l') <> (k, l))) \/
            (sd' = sd /\ k' = k /\
             l' = Limit.mk (Limit.total_quantity l + (q - Order.quantity o))
                    (Limit.orders l))).
  { intros sd' k' l' Hk'. unfold adjusted in Hk'. fold sd in Hk'.
    destruct (decide (sd' = sd)) as [-> | Hne].
    - book_simpl_in Hk'.
      apply elem_written in Hk'; [| apply _ | assumption | assumption].
      destruct Hk' as [[Hk' Hneq] | (l0 & -> & Hkeq' & Hk')].
      + left. split; [exact Hk' |]. intros _ [= -> ->]. exact (Hneq Hkeq).
      + right. destruct Hk' as [Hk' | (_ & _ & Hnone)]; [| congruence].
        assert (Hf := elem_map_find (comp_of sd) _ _ k' l0 Hok Hnan Hk' Hkeq').
        rewrite Hlev in Hf. injection Hf as <- <-.
        split; [reflexivity |]. split; [reflexivity |]. f_equal.
        rewrite amend_delta_wrap, wrap64_small; [reflexivity |].
        pose proof (sb_total _ _ Hs sd k l Hk) as Htot.
        rewrite (members_quantity_erase _ n h _ members Hnd Hn Her) in Htot.
        rewrite (quantity_of_stored _ _ _ Ho) in Htot.
        assert (0 <= members_quantity (order_storage b) members).
        { apply members_quantity_pos. intros n' x Hx.
          apply (list_erase_sub _ _ _ Her) in Hx.
          eapply member_quantity_positive; eassumption. }
        unfold u64 in *. lia.
    - left. rewrite side_table_set_other in Hk' by congruence.
      rewrite side_table_set_storage in Hk'. split; [exact Hk' | congruence]. }
  split.
  - eapply amendOrder_wf; [exact Hwf |].
    apply (amend_quantity_eq b id h o p q Hl Ho Hp).
  - intros h' o'. unfold adjusted. book_simpl. rewrite lookup_insert.
    case_decide as Hh.
    + intros [= <-] _. exact Hq.
    + intros Ho' _. apply (sb_quantity _ _ Hs h' o' Ho'). discriminate.
  - intros sd' k' l' Hk'.
    destruct (Hlevels sd' k' l' Hk') as [[Hold Hdiff] | (-> & -> & ->)].
    + rewrite (Hothers sd' k' l' Hold Hdiff). exact (sb_total _ _ Hs sd' k' l' Hold).
    + simpl. rewrite Hmine. reflexivity.
  - intros sd' k' l' Hk'.
    destruct (Hlevels sd' k' l' Hk') as [[Hold _] | (-> & -> & ->)].
    + exact (sb_members _ _ Hs sd' k' l' Hold).
    + simpl. exact (sb_members _ _ Hs sd k l Hk).
  - intros h' o' Ho' _.
    assert (Hr' : resting b h').
    { destruct (decide (h' = h)) as [-> | Hh]; [exact Hrest |].
      unfold adjusted in Ho'. book_simpl_in Ho'.
      rewrite lookup_insert_ne in Ho' by congruence.
      apply (sb_resting _ _ Hs h' o' Ho'). discriminate. }
    destruct Hr' as (sd' & k' & l' & n' & Hk' & Hn').
    destruct (decide (sd' = sd)) as [-> | Hne].
    + destruct (keq_dec (comp_of sd) k' (Order.price o)) as [Heq | Hneq].
      * eexists sd, k', _, n'. split.
        -- unfold adjusted. fold sd. book_simpl.
           apply elem_written_same; (apply _ || eassumption).
        -- simpl. exact Hn'.
      * exists sd, k', l', n'. split; [| exact Hn'].
        unfold adjusted. fold sd. book_simpl.
        apply elem_written_other; (apply _ || assumption).
    + exists sd', k', l', n'. split; [| exact Hn'].
      unfold adjusted. fold sd. rewrite side_table_set_other by congruence.
      rewrite side_table_set_storage. exact Hk'.
  - discriminate.
Qed.

Lemma SFltb_total a b :
  is_nan a = false -> is_nan b = false ->
  SFltb a b = false -> SFltb b a = false -> SFeqb a b = true.
Proof.
  unfold SFltb, SFeqb, SFcompare.
  destruct a as [[]|[]| |[] ma ea], b as [[]|[]| |[] mb eb]; simpl;
    intros Ha Hb H1 H2; try discriminate; try reflexivity; cmp_cases.
Qed.

Lemma keq_not_d_neq sd a b :
  is_nan a = false -> is_nan b = false ->
  keq (comp_of sd) a b -> d_neq a b = false.
Proof.
  intros Ha Hb [H1 H2]. unfold d_neq. apply negb_false_iff.
  destruct sd; simpl in *; unfold greater, less in *;
    apply SFltb_total; assumption.
Qed.

Lemma keq_trans comp `{!StrictWeak comp} a b c :
  is_nan b = false -> keq comp a b -> keq comp b c -> keq comp a c.
Proof.
  intros Hb [H1 H2] [H3 H4]. split.
  - destruct (comp a c) eqn:E; [| reflexivity].
    destruct (sw_neg_trans a b c Hb E); congruence.
  - destruct (comp c a) eqn:E; [| reflexivity].
    destruct (sw_neg_trans c b a Hb E); congruence.
Qed.

(** Removing an order leaves the level of any other price as it is. *)
Lemma map_find_removed_other sd o limit members t p :
  table_ok (comp_of sd) t -> is_nan (Order.price o) = false -> is_nan p = false ->
  ~ keq (comp_of sd) (Order.price o) p ->
  map_find (comp_of sd) p (removed_table sd o limit members t) =
  map_find (comp_of sd) p t.
Proof.
  intros Hok Hnan Hp Hne.
  pose proof (removed_table_ok sd o limit members t Hok) as Hok'.
  assert (Hfwd : forall k l,
            map_find (comp_of sd) p (removed_table sd o limit members t) = Some (k, l) ->
            map_find (comp_of sd) p t = Some (k, l)).
  { intros k l Hf. apply map_find_elem in Hf as [Hin Hkeq].
    apply elem_removed_table in Hin; [| assumption | assumption].
    destruct Hin as [[Hin _] | (l0 & Hf0 & _)].
    - apply elem_map_find; (apply _ || assumption).
    - exfalso. apply map_find_elem in Hf0 as [Hin0 Hkeq0]. apply Hne.
      apply keq_trans with (b := k); [apply _ | | apply keq_sym; assumption | assumption].
      destruct Hok as [_ Hn]. rewrite Forall_forall in Hn. apply Hn.
      apply list_elem_of_fmap. exists (k, l0). auto. }
  assert (Hbwd : forall k l,
            map_find (comp_of sd) p t = Some (k, l) ->
            map_find (comp_of sd) p (removed_table sd o limit members t) = Some (k, l)).
  { intros k l Hf. apply map_find_elem in Hf as [Hin Hkeq].
    apply elem_map_find; [apply _ | assumption | assumption | | assumption].
    apply elem_removed_other; try assumption.
    intros Hkeq'. apply Hne.
    apply keq_trans with (b := k); [apply _ | | apply keq_sym; assumption | assumption].
    destruct Hok as [_ Hn]. rewrite Forall_forall in Hn. apply Hn.
    apply list_elem_of_fmap. exists (k, l). auto. }
  destruct (map_find (comp_of sd) p t) as [[k l] |] eqn:E2.
  - apply Hbwd. reflexivity.
  - destruct (map_find (comp_of sd) p (removed_table sd o limit members t))
      as [[k l] |]; [| reflexivity].
    specialize (Hfwd k l eq_refl). discriminate.
Qed.

(** Every guarded book satisfies the invariant. *)
Lemma guarded_solid b : guarded b -> solid_but None b.
Proof.
  induction 1 as [| b is_buy price quantity now id b' _ IH Hq Hroom Hid Hn
                  | b id r b' _ IH Hc
                  | b id price quantity r b' _ IH Hq Hroom Ha].
  - apply solid_empty_book.
  - rewrite newOrder_eq in Hn.
    destruct (add_order_internal _ _ _) as [b1 |] eqn:Hadd; [| discriminate].
    simpl in Hn. injection Hn as <- <-.
    apply add_order_internal_inv in Hadd as (o & Ho & Hnan & ->).
    assert (Ho' := Ho). unfold allocated in Ho'. simpl in Ho'.
    rewrite lookup_insert_eq in Ho'. injection Ho' as <-.
    apply (added_solid _ _ _ (allocated_solid is_buy price quantity now b IH Hid) Ho);
      simpl; try assumption;
      try (unfold level_total, level_at in *; rewrite side_table_allocated;
           exact Hroom).
  - rewrite cancelOrder_eq in Hc.
    destruct (order_lookup b !! id) as [h |] eqn:Hl;
      [| injection Hc as <- <-; exact IH].
    destruct (order_storage b !! h) as [o |] eqn:Ho; [| discriminate].
    destruct (remove_order_internal _ _ _) as [b1 |] eqn:Hr; [| discriminate].
    simpl in Hc. injection Hc as <- <-.
    destruct (remove_order_internal_frame _ _ _ _ Hr) as (_ & Hlk & _).
    apply destroyed_solid; [eapply remove_solid; eassumption |].
    rewrite Hlk. exact Hl.
  - destruct (order_lookup b !! id) as [h |] eqn:Hl.
    2: { unfold amendOrder in Ha. rewrite Hl in Ha. injection Ha as <- <-. exact IH. }
    destruct (order_storage b !! h) as [o |] eqn:Ho.
    2: { unfold amendOrder in Ha. rewrite Hl, Ho in Ha. discriminate. }
    specialize (Hroom h o eq_refl Ho).
    destruct (d_neq (Order.price o) price) eqn:Hp.
    + rewrite (amend_price_change_eq b id h o price quantity Hl Ho Hp) in Ha.
      destruct (remove_order_internal _ _ _) as [b1 |] eqn:Hr; [| discriminate].
      destruct (is_nan price) eqn:Hnan; [discriminate |].
      injection Ha as <- <-.
      pose proof (remove_solid b h o b1 IH Ho Hr) as Hs1.
      destruct (remove_order_internal_frame _ _ _ _ Hr) as (Hst & _).
      assert (Ho1 : order_storage b1 !! h = Some o) by (rewrite Hst; exact Ho).
      unfold amended.
      apply (added_solid _ h (with_price_quantity price quantity o)
               (stored_solid_but b1 h o (with_price_quantity price quantity o)
                  Hs1 Ho1 eq_refl eq_refl));
        simpl; try assumption; [apply lookup_insert_eq |].
      assert (Hsame : level_total (side_of (Order.is_buy o)) price
                        (set_storage
                           (<[h := with_price_quantity price quantity o]>
                              (order_storage b1)) b1) =
                      level_total (side_of (Order.is_buy o)) price b).
      { unfold level_total, level_at. rewrite side_table_set_storage.
        pose proof (sb_wf _ _ IH) as Hwf.
        assert (Hrest : resting b h)
          by (apply (sb_resting _ _ IH h o Ho); discriminate).
        destruct (remove_resting_ok b h o Hwf Ho Hrest)
          as (k & l & n & members & Hlev & _ & Hn & _ & Heq).
        rewrite Heq in Hr. injection Hr as <-. book_simpl.
        apply map_find_elem in Hlev as [Hk _].
        destruct (member_level b _ k l n h o Hwf Hk Hn Ho) as (_ & _ & Hnano & _).
        rewrite map_find_removed_other; try assumption; [reflexivity | |].
        - apply (wf_tables b Hwf).
        - intros Hkeq.
          rewrite (keq_not_d_neq _ _ _ Hnano Hnan Hkeq) in Hp. discriminate. }
      rewrite Hsame. exact Hroom.
    + rewrite (amend_quantity_eq b id h o price quantity Hl Ho Hp) in Ha.
      injection Ha as <- <-.
      eapply adjusted_solid; eassumption.
Qed.

Lemma play_guarded_guarded c b b' :
  guarded b -> play_guarded c b = Some b' -> guarded b'.
Proof.
  intros Hg. destruct c as [is_buy price quantity now | id | id p q]; simpl.
  - destruct (Z.ltb_spec 0 quantity); [| discriminate].
    destruct (Z.ltb_spec (level_total (side_of is_buy) price b + quantity) two64);
      [| discriminate].
    destruct (Z.ltb_spec (next_order_id b) (two64 - 1)); [| discriminate]. simpl.
    destruct (newOrder _ _ _ _ _) as [[id b1] |] eqn:Hn; [| discriminate].
    intros [= <-]. eapply guarded_new; eauto.
  - destruct (cancelOrder _ _) as [[r b1] |] eqn:Hc; [| discriminate].
    intros [= <-]. eapply guarded_cancel; eauto.
  - destruct (Z.ltb_spec 0 q); [| discriminate]. simpl.
    destruct (match order_lookup b !! id with Some _ => _ | None => _ end) eqn:Hroom;
      [| discriminate].
    destruct (amendOrder _ _ _ _) as [[r b1] |] eqn:Ha; [| discriminate].
    intros [= <-]. eapply guarded_amend; eauto.
    intros h o Hl Ho. rewrite Hl, Ho in Hroom. apply Z.ltb_lt. exact Hroom.
Qed.

Lemma guarded_book_after_guarded cs : guarded (guarded_book_after cs).
Proof.
  unfold guarded_book_after.
  assert (H : forall b b', guarded b -> replay_guarded cs b = Some b' -> guarded b').
  { induction cs as [| c cs IH]; simpl; intros b b' Hg.
    - intros [= <-]. exact Hg.
    - destruct (play_guarded c b) as [b1 |] eqn:Hp; [| discriminate].
      apply IH. eapply play_guarded_guarded; eassumption. }
  destruct (replay_guarded cs empty_book) as [b |] eqn:E.
  - eapply H; [apply guarded_empty | exact E].
  - apply guarded_empty.
Defined.

Lemma level_total_range b sd p : wf b -> u64 (level_total sd p b).
Proof.
  intros Hwf. unfold level_total, level_at.
  destruct (map_find _ _ _) as [[k l] |] eqn:E.
  - apply map_find_elem in E as [Hk _]. exact (wf_totals b Hwf sd k l Hk).
  - unfold u64, two64. lia.
Qed.

Lemma guarded_reachable b : guarded b -> reachable b.
Proof.
  induction 1 as [| b is_buy price quantity now id b' _ IH Hq Hroom Hid Hn
                  | b id r b' _ IH Hc
                  | b id price quantity r b' Hg IH Hq Hroom Ha].
  - apply reachable_empty.
  - eapply reachable_new; eauto.
    pose proof (level_total_range b (side_of is_buy) price (reachable_wf b IH)).
    unfold u64 in *. lia.
  - eapply reachable_cancel; eauto.
  - destruct (order_lookup b !! id) as [h |] eqn:Hl.
    + destruct (order_storage b !! h) as [o |] eqn:Ho.
      * eapply reachable_amend; eauto. specialize (Hroom h o eq_refl Ho).
        pose proof (level_total_range b (side_of (Order.is_buy o)) price
                      (reachable_wf b IH)).
        unfold u64 in *. lia.
      * unfold amendOrder in Ha. rewrite Hl, Ho in Ha. discriminate.
    + unfold amendOrder in Ha. rewrite Hl in Ha. injection Ha as <- <-. exact IH.
Qed.

(** C1, as the code has it.  In every book reached by calls whose
    quantities are positive and keep each level's total below 2^64, the
    [total_quantity] of every level of either table is the sum of the
    quantities of the orders in its member list; [newOrder], [cancelOrder]
    and [amendOrder] under these conditions lead to such books again. *)
Theorem quantity_sum_holds_when_guarded b :
  guarded b -> quantity_sum_invariant b.
Proof.
  intros Hg sd k l Hk. exact (sb_total _ _ (guarded_solid b Hg) sd k l Hk).
Qed.

(** C2, as the code has it.  In every book reached by calls whose
    quantities are positive and keep each level's total below 2^64, every
    level in a table has a positive total and a member, and every order
    of the arena is a member of a level. *)
Theorem levels_exist_when_guarded b :
  guarded b -> level_existence_invariant b.
Proof.
  intros Hg. pose proof (guarded_solid b Hg) as Hs. split.
  - intros sd k l Hk. split; [| exact (sb_members _ _ Hs sd k l Hk)].
    rewrite (sb_total _ _ Hs sd k l Hk).
    apply members_quantity_pos; [| exact (sb_members _ _ Hs sd k l Hk)].
    intros n x Hx. eapply member_quantity_positive; eassumption.
  - intros h o Ho. apply (sb_resting _ _ Hs h o Ho). discriminate.
Qed.

(** C1 fails on reachable books: after the script of
    [orphan_amended_book] the level at 100.0 has total 7 and no member,
    and two bids of [2^63] leave a level of total 0. *)
Lemma quantity_sum_fails_unguarded :
  (reachable orphan_amended_book /\ ~ quantity_sum_invariant orphan_amended_book) /\
  (reachable overflowed_book /\ ~ quantity_sum_invariant overflowed_book).
Proof.
  split; (split; [apply book_after_reachable |]); intros H.
  - specialize (H Bids (dbl 100) (Limit.mk 7 [])).
    assert (Hin : (dbl 100, Limit.mk 7 []) ∈ side_table Bids orphan_amended_book)
      by (vm_compute; left).
    specialize (H Hin). vm_compute in H. discriminate.
  - specialize (H Bids (dbl 100) (Limit.mk 0 [(1%nat, 0%nat); (3%nat, 2%nat)])).
    assert (Hin : (dbl 100, Limit.mk 0 [(1%nat, 0%nat); (3%nat, 2%nat)])
                    ∈ side_table Bids overflowed_book)
      by (vm_compute; left).
    specialize (H Hin). vm_compute in H. discriminate.
Qed.

Lemma quantity_sum_holds_when_guarded_witness :
  quantity_sum_invariant guarded_example_book.
Proof.
  apply (quantity_sum_holds_when_guarded guarded_example_book).
  apply guarded_book_after_guarded.
Defined.

(** C2 fails on a reachable book: one bid of quantity 0 leaves a level of
    total 0 in the table. *)
Lemma zero_total_level_exists :
  reachable zero_quantity_book /\ ~ level_existence_invariant zero_quantity_book.
Proof.
  split; [apply book_after_reachable |]. intros [H _].
  specialize (H Bids (dbl 100) (Limit.mk 0 [(1%nat, 0%nat)])).
  assert (Hin : (dbl 100, Limit.mk 0 [(1%nat, 0%nat)])
                  ∈ side_table Bids zero_quantity_book)
    by (vm_compute; left).
  destruct (H Hin) as [Hpos _]. simpl in Hpos. lia.
Qed.

Lemma levels_exist_when_guarded_witness :
  level_existence_invariant guarded_example_book.
Proof.
  apply (levels_exist_when_guarded guarded_example_book).
  apply guarded_book_after_guarded.
Defined.

Lemma quantity_only_amend_keeps_priority_witness :
  exists b' o' total,
    amendOrder 1 (dbl 100) 20 two_bids_book = Ok (true, b') /\
    order_storage b' !! 0%nat = Some o' /\
    Order.quantity o' = 20 /\
    Order.order_id o'
      = Order.order_id (Order.mk 1 true (dbl 100) 10 0 (Some 1%nat)) /\
    Order.is_buy o' = Order.is_buy (Order.mk 1 true (dbl 100) 10 0 (Some 1%nat)) /\
    Order.price o' = Order.price (Order.mk 1 true (dbl 100) 10 0 (Some 1%nat)) /\
    Order.timestamp_ns o'
      = Order.timestamp_ns (Order.mk 1 true (dbl 100) 10 0 (Some 1%nat)) /\
    Order.position_in_limit o'
      = Order.position_in_limit (Order.mk 1 true (dbl 100) 10 0 (Some 1%nat)) /\
    (forall h', h' <> 0%nat ->
       order_storage b' !! h' = order_storage two_bids_book !! h') /\
    level_at (side_of (Order.is_buy (Order.mk 1 true (dbl 100) 10 0 (Some 1%nat))))
      (Order.price (Order.mk 1 true (dbl 100) 10 0 (Some 1%nat))) b' =
      Some (dbl 100,
            Limit.mk total
              (Limit.orders (Limit.mk 15 [(1%nat, 0%nat); (3%nat, 2%nat)]))) /\
    total = wrap64 (Limit.total_quantity
                      (Limit.mk 15 [(1%nat, 0%nat); (3%nat, 2%nat)])
                    + (20 - Order.quantity
                              (Order.mk 1 true (dbl 100) 10 0 (Some 1%nat)))) /\
    (u64 (Limit.total_quantity (Limit.mk 15 [(1%nat, 0%nat); (3%nat, 2%nat)])
          + (20 - Order.quantity (Order.mk 1 true (dbl 100) 10 0 (Some 1%nat)))) ->
     total - Limit.total_quantity (Limit.mk 15 [(1%nat, 0%nat); (3%nat, 2%nat)])
     = 20 - Order.quantity (Order.mk 1 true (dbl 100) 10 0 (Some 1%nat))).
Proof.
  apply (quantity_only_amend_keeps_priority two_bids_book 1 0%nat
           (Order.mk 1 true (dbl 100) 10 0 (Some 1%nat)) (dbl 100) 20 (dbl 100)
           (Limit.mk 15 [(1%nat, 0%nat); (3%nat, 2%nat)]));
    vm_compute; reflexivity.
Defined.

(** The third scenario of the specification: the level total after the
    quantity-only amendment is 25. *)
Example scenario_quantity_only_amend :
  exists b', amendOrder 1 (dbl 100) 20 two_bids_book = Ok (true, b') /\
             level_at Bids (dbl 100) b' =
             Some (dbl 100, Limit.mk 25 [(1%nat, 0%nat); (3%nat, 2%nat)]).
Proof. eexists. split; vm_compute; reflexivity. Qed.


(** The fourth scenario of the specification. *)
Example scenario_price_amend :
  exists b', amendOrder 1 (dbl 99) 20 two_bids_book = Ok (true, b') /\
             bids b' = [(dbl 100, Limit.mk 5 [(3%nat, 2%nat)]);
                        (dbl 99, Limit.mk 20 [(4%nat, 0%nat)])].
Proof. eexists. split; vm_compute; reflexivity. Qed.

Lemma zero_quantity_order_is_visible_witness :
  exists b',
    newOrder true (dbl 100) 0 0 empty_book = Ok (next_order_id empty_book, b') /\
    order_lookup empty_book !! next_order_id empty_book = None /\
    order_lookup b' !! next_order_id empty_book = Some (next_addr empty_book) /\
    order_storage b' !! next_addr empty_book =
      Some (Order.mk (next_order_id empty_book) true (dbl 100) 0 (wrap64 0)
              (Some (S (next_addr empty_book)))) /\
    match level_at (side_of true) (dbl 100) empty_book with
    | Some (k, l) =>
        level_at (side_of true) (dbl 100) b' =
        Some (k, Limit.mk (Limit.total_quantity l)
                   (Limit.orders l
                    ++ [(S (next_addr empty_book), next_addr empty_book)]))
    | None =>
        level_at (side_of true) (dbl 100) b' =
          Some (dbl 100,
                Limit.mk 0 [(S (next_addr empty_book), next_addr empty_book)]) /\
        (forall depth,
           (length (side_table (side_of true) b') <= depth)%nat ->
           Z.of_nat depth <= vector_max_size ->
           getSnapshot depth b' =
             Returns (snapshot_of Bids depth b', snapshot_of Asks depth b') /\
           PriceLevel.mk (dbl 100) 0 ∈ snapshot_of (side_of true) depth b') /\
        (side_table (side_of true) empty_book = [] ->
         bbo_side (side_of true) b' = PriceLevel.mk (dbl 100) 0)
    end.
Proof.
  apply (zero_quantity_order_is_visible empty_book true (dbl 100) 0).
  - apply reachable_empty.
  - reflexivity.
Defined.

(** C6 at the failing input.  On the book holding one bid of quantity 0 at
    100.0, [newOrder] of a bid of 5 at 100.0 followed by [cancelOrder] of
    that bid returns [true] and leaves the bid table empty: the level at
    100.0, its member and the best bid are gone, while the first order is
    still in the index. *)
Theorem round_trip_erases_zero_total_level :
  reachable zero_quantity_book /\
  exists b1 b2,
    newOrder true (dbl 100) 5 0 zero_quantity_book = Ok (2, b1) /\
    cancelOrder 2 b1 = Ok (true, b2) /\
    view_table (order_storage zero_quantity_book) (bids zero_quantity_book) =
      [(dbl 100, 0, [Some (1, true, dbl 100, 0)])] /\
    view_table (order_storage b2) (bids b2) = [] /\
    bbo_side Bids zero_quantity_book = PriceLevel.mk (dbl 100) 0 /\
    bbo_side Bids b2 = PriceLevel.mk (S754_zero false) 0 /\
    order_lookup b2 !! 1 = Some 0%nat /\
    ~ resting b2 0%nat.
Proof.
  split; [apply book_after_reachable |].
  eexists. eexists. split; [vm_compute; reflexivity |].
  split; [vm_compute; reflexivity |].
  split; [vm_compute; reflexivity |].
  split; [vm_compute; reflexivity |].
  split; [vm_compute; reflexivity |].
  split; [vm_compute; reflexivity |].
  split; [vm_compute; reflexivity |].
  intros (sd & k & l & n & Hk & _). destruct sd; simpl in Hk; inversion Hk.
Qed.

(** The order left without a level has a dangling iterator: once another
    bid has made a level at its price again, cancelling it erases through
    that iterator. *)
Example orphaned_order_cancel_is_undefined :
  cancelOrder 1
    (book_after [NewOrder true (dbl 100) 0 0; NewOrder true (dbl 100) 5 0;
                 CancelOrder 2; NewOrder true (dbl 100) 3 0]) = Undefined.
Proof. vm_compute. reflexivity. Qed.

(** ** When the round trip does restore the book *)

Lemma list_erase_snoc n h (l : list (addr * addr)) :
  n ∉ l.*1 -> list_erase n (l ++ [(n, h)]) = Some l.
Proof.
  induction l as [| [n0 h0] l IH]; simpl; intros Hn.
  - rewrite Nat.eqb_refl. reflexivity.
  - apply not_elem_of_cons in Hn as [Hne Hn].
    destruct (Nat.eqb_spec n0 n) as [-> | _]; [congruence |].
    rewrite (IH Hn). reflexivity.
Qed.

Lemma wrap64_add_sub t q : u64 t -> wrap64 (wrap64 (t + q) - q) = t.
Proof.
  intros Ht. unfold wrap64. rewrite Zminus_mod_idemp_l.
  replace (t + q - q) with t by lia. apply Z.mod_small. exact Ht.
Qed.

Lemma map_update_restores comp `{!StrictWeak comp} p f t k l :
  map_find comp p t = Some (k, l) ->
  map_update comp p (fun _ => l) (map_update comp p f (map_subscript comp p t)) = t.
Proof.
  induction t as [| [k0 v] t IH]; simpl; [discriminate |].
  destruct (comp k0 p) eqn:E1; simpl.
  - rewrite E1. simpl. rewrite E1. intros H. rewrite (IH H). reflexivity.
  - destruct (comp p k0) eqn:E2; [discriminate |].
    intros [= <- <-]. simpl. rewrite E1, E2. simpl. rewrite E1, E2. reflexivity.
Qed.

Lemma map_erase_restores comp `{!StrictWeak comp} p f t :
  map_find comp p t = None ->
  map_erase comp p (map_update comp p f (map_subscript comp p t)) = t.
Proof.
  induction t as [| [k0 v] t IH]; simpl.
  - intros _. rewrite sw_irrefl. simpl. rewrite sw_irrefl. reflexivity.
  - destruct (comp k0 p) eqn:E1; simpl.
    + rewrite E1. simpl. rewrite E1. intros H. rewrite (IH H). reflexivity.
    + destruct (comp p k0) eqn:E2; [| discriminate].
      intros _. simpl. rewrite sw_irrefl. simpl. rewrite sw_irrefl. reflexivity.
Qed.

(** [newOrder] followed by [cancelOrder] of the new identifier gives back
    both tables, the arena and the index, provided the level of the price
    is absent or has a total other than 0. *)
Lemma round_trip_restores b is_buy p q now :
  reachable b -> u64 q -> is_nan p = false ->
  level_at (side_of is_buy) p b = None \/ level_total (side_of is_buy) p b <> 0 ->
  exists b1 b2,
    newOrder is_buy p q now b = Ok (next_order_id b, b1) /\
    cancelOrder (next_order_id b) b1 = Ok (true, b2) /\
    bids b2 = bids b /\ asks b2 = asks b /\
    order_storage b2 = order_storage b /\ order_lookup b2 = order_lookup b.
Proof.
  intros Hr Hq Hnan Hlevel. pose proof (reachable_wf b Hr) as Hwf.
  set (sd := side_of is_buy) in *.
  set (o := Order.mk (next_order_id b) is_buy p q (wrap64 now) None).
  set (h := next_addr b).
  assert (Hfresh : order_storage b !! h = None).
  { destruct (order_storage b !! h) as [o' |] eqn:E; [| reflexivity].
    destruct (wf_alloc b Hwf _ o' E). unfold h in *. lia. }
  assert (Hnew : order_lookup b !! next_order_id b = None).
  { destruct (order_lookup b !! next_order_id b) as [h' |] eqn:E; [| reflexivity].
    destruct (wf_index b Hwf _ h' E). lia. }
  exists (added sd h o (allocated is_buy p q now b)).
  assert (Htab : exists t,
            remove_order_internal sd h (added sd h o (allocated is_buy p q now b)) =
            Ok (set_side_table sd t (added sd h o (allocated is_buy p q now b))) /\
            t = side_table sd b).
  { unfold remove_order_internal.
    assert (Hst : order_storage (added sd h o (allocated is_buy p q now b)) !! h =
                  Some (with_position (S h) o)).
    { unfold added, allocated. book_simpl. apply lookup_insert_eq. }
    rewrite Hst. simpl. rewrite Hnan.
    assert (Hside : side_table sd (added sd h o (allocated is_buy p q now b)) =
                    map_update (comp_of sd) p (limit_push (S h) h q)
                      (map_subscript (comp_of sd) p (side_table sd b))).
    { unfold added. book_simpl. rewrite side_table_allocated. reflexivity. }
    rewrite Hside, map_find_update_subscript by apply _.
    unfold level_at, level_total, level_at in Hlevel.
    destruct (map_find (comp_of sd) p (side_table sd b)) as [[k l] |] eqn:Hf.
    - destruct Hlevel as [Hlevel | Hlevel]; [discriminate |].
      pose proof (map_find_elem _ _ _ _ _ Hf) as [Hk _].
      simpl. rewrite list_erase_snoc.
      + rewrite wrap64_add_sub by exact (wf_totals b Hwf sd k l Hk).
        destruct (Z.eqb_spec (Limit.total_quantity l) 0); [congruence |].
        eexists. split; [reflexivity |].
        destruct l as [total members]. simpl.
        apply map_update_restores with (k := k); [apply _ | exact Hf].
      + intros Hin. apply list_elem_of_fmap in Hin as [[n1 h1] [Heq Hin]].
        simpl in Heq. subst n1.
        destruct (node_allocated b sd k l _ h1 Hwf Hk Hin). unfold h in *. lia.
    - simpl. rewrite Nat.eqb_refl.
      rewrite wrap64_add_sub by (unfold u64, two64; lia). simpl.
      eexists. split; [reflexivity |].
      apply map_erase_restores; [apply _ | exact Hf]. }
  destruct Htab as (t & Hrem & ->).
  eexists. split; [apply newOrder_ok; exact Hnan |].
  split.
  - rewrite cancelOrder_eq.
    assert (Hl : order_lookup (added sd h o (allocated is_buy p q now b))
                   !! next_order_id b = Some h).
    { unfold added, allocated. book_simpl. apply lookup_insert_eq. }
    assert (Hst : order_storage (added sd h o (allocated is_buy p q now b)) !! h =
                  Some (with_position (S h) o)).
    { unfold added, allocated. book_simpl. apply lookup_insert_eq. }
    rewrite Hl, Hst. simpl. fold sd. rewrite Hrem. reflexivity.
  - unfold added, allocated. book_simpl.
    rewrite insert_insert_eq, !delete_insert_id by assumption.
    destruct is_buy; simpl; auto.
Qed.

(** ** The example books *)

(** The book [main] ends with: what its last [printBook] shows. *)
Example main_book_snapshot :
  getSnapshot 10 main_book =
  Returns ([PriceLevel.mk (dbl 100) 10; PriceLevel.mk (dbl 99) 25],
           [PriceLevel.mk (dbl 100) 15;
            PriceLevel.mk (binary_normalize 53 1024 201 (-1) false) 10;
            PriceLevel.mk (dbl 101) 5]).
Proof. vm_compute. reflexivity. Qed.

(** The first two scenarios of the specification. *)
Example scenario_two_bids :
  bids two_bids_book = [(dbl 100, Limit.mk 15 [(1%nat, 0%nat); (3%nat, 2%nat)])] /\
  bbo_side Bids two_bids_book = PriceLevel.mk (dbl 100) 15.
Proof. split; vm_compute; reflexivity. Qed.

Example two_sided_book_snapshot :
  getSnapshot 10 two_sided_book =
  Returns ([PriceLevel.mk (dbl 100) 10; PriceLevel.mk (dbl 99) 20],
           [PriceLevel.mk (dbl 101) 5; PriceLevel.mk (dbl 102) 10]).
Proof. vm_compute. reflexivity. Qed.

Example guarded_example_book_snapshot :
  getSnapshot 10 guarded_example_book =
  Returns ([PriceLevel.mk (dbl 99) 20], [PriceLevel.mk (dbl 101) 5]).
Proof. vm_compute. reflexivity. Qed.

(** [amendOrder] takes quantity 0 as well: the level stays, with total 0. *)
Example amend_to_zero_leaves_zero_total_level :
  exists b',
    amendOrder 1 (dbl 100) 0 (book_after [NewOrder true (dbl 100) 10 0])
      = Ok (true, b') /\
    bids b' = [(dbl 100, Limit.mk 0 [(1%nat, 0%nat)])].
Proof. eexists. split; vm_compute; reflexivity. Qed.

(** [getSnapshot] and [printBook] beyond [max_size()]. *)
Example snapshot_beyond_max_size :
  getSnapshot (Z.to_nat (2 ^ 59)) main_book = Throws length_error /\
  printBook (Z.to_nat (2 ^ 59)) main_book = Throws length_error.
Proof.
  assert (H : vector_max_size < Z.of_nat (Z.to_nat (2 ^ 59))).
  { rewrite Z2Nat.id by lia. reflexivity. }
  unfold printBook. rewrite (getSnapshot_throws _ _ H). split; reflexivity.
Qed.

(** The price literals used are IEEE doubles. *)
Example literals_are_doubles :
  forallb (valid_binary 53 1024)
    [dbl 0; dbl (-1); dbl 99; dbl 100; dbl 101; dbl 102; dbl 105;
     binary_normalize 53 1024 201 (-1) false; d_inf] = true.
Proof. vm_compute. reflexivity. Qed.

(** * Further properties of the program *)

(** ** Queries *)

Lemma rows_sorted comp (t : table) :
  StronglySorted (fun a c => comp a c = true) (t.*1) ->
  StronglySorted
    (fun x y => comp (PriceLevel.price x) (PriceLevel.price y) = true)
    (map level_row t).
Proof.
  induction t as [| [k l] t IH]; simpl; intros Hs; [constructor |].
  apply StronglySorted_inv in Hs as [Hs Hall]. constructor; [apply IH, Hs |].
  apply Forall_forall. intros x Hx.
  apply list_elem_of_fmap in Hx as [[k' l'] [-> Hx]]. simpl.
  rewrite Forall_forall in Hall. apply Hall. apply list_elem_of_fmap. exists (k', l'). auto.
Qed.

Lemma StronglySorted_take {A} (R : A -> A -> Prop) n (l : list A) :
  StronglySorted R l -> StronglySorted R (take n l).
Proof.
  intros Hs. rewrite <- (take_drop n l) in Hs.
  exact (StronglySorted_app_1_l _ _ _ Hs).
Qed.

(** X1.  In every reachable book the bid table is in strictly descending
    price order and the ask table in strictly ascending price order, and no
    key is NaN: the first level of a table is the best price of its side. *)
Theorem tables_are_ordered b :
  reachable b ->
  StronglySorted (fun a c => SFltb c a = true) ((bids b).*1) /\
  StronglySorted (fun a c => SFltb a c = true) ((asks b).*1) /\
  Forall (fun k => is_nan k = false) ((bids b).*1 ++ (asks b).*1).
Proof.
  intros Hr. pose proof (reachable_wf b Hr) as Hwf.
  destruct (wf_tables b Hwf Bids) as [Hb Hnb].
  destruct (wf_tables b Hwf Asks) as [Ha Hna].
  split; [exact Hb |]. split; [exact Ha |].
  apply Forall_app. split; assumption.
Qed.

Lemma tables_are_ordered_witness :
  StronglySorted (fun a c => SFltb c a = true) ((bids main_book).*1) /\
  StronglySorted (fun a c => SFltb a c = true) ((asks main_book).*1) /\
  Forall (fun k => is_nan k = false) ((bids main_book).*1 ++ (asks main_book).*1).
Proof.
  apply (tables_are_ordered main_book). apply book_after_reachable.
Defined.

(** X2.  [getSnapshot(depth)] throws [std::length_error] exactly when
    [depth] exceeds the [max_size()] of the vectors.  Otherwise it
    returns, for each side, the first [min(depth, n)] of the side's [n]
    levels, in table order, each with its price and total; depth 0 gives
    two empty vectors. *)
Theorem snapshot_is_first_levels depth b :
  match getSnapshot depth b with
  | Returns (out_bids, out_asks) =>
      Z.of_nat depth <= vector_max_size /\
      out_bids = take depth (map level_row (bids b)) /\
      out_asks = take depth (map level_row (asks b)) /\
      length out_bids = (depth `min` length (bids b))%nat /\
      length out_asks = (depth `min` length (asks b))%nat
  | Throws e => vector_max_size < Z.of_nat depth /\ e = length_error
  end.
Proof.
  destruct (Z.le_gt_cases (Z.of_nat depth) vector_max_size) as [Hle | Hgt].
  - rewrite getSnapshot_returns by exact Hle.
    rewrite !length_take, !length_map. auto.
  - rewrite getSnapshot_throws by exact Hgt. auto.
Qed.

(** X3.  In every reachable book the prices of the bids [getSnapshot]
    leaves in its first vector are strictly descending and those of the
    asks in its second vector strictly ascending. *)
Theorem snapshot_is_ordered depth b :
  reachable b ->
  StronglySorted
    (fun x y => SFltb (PriceLevel.price y) (PriceLevel.price x) = true)
    (snapshot_of Bids depth b) /\
  StronglySorted
    (fun x y => SFltb (PriceLevel.price x) (PriceLevel.price y) = true)
    (snapshot_of Asks depth b).
Proof.
  intros Hr. pose proof (reachable_wf b Hr) as Hwf.
  destruct (wf_tables b Hwf Bids) as [Hb _].
  destruct (wf_tables b Hwf Asks) as [Ha _].
  rewrite !snapshot_of_rows.
  destruct (Z.of_nat depth <=? vector_max_size); [| split; constructor].
  split.
  - apply StronglySorted_take. exact (rows_sorted greater _ Hb).
  - apply StronglySorted_take. exact (rows_sorted less _ Ha).
Qed.

Lemma snapshot_is_ordered_witness :
  StronglySorted
    (fun x y => SFltb (PriceLevel.price y) (PriceLevel.price x) = true)
    (snapshot_of Bids 2 main_book) /\
  StronglySorted
    (fun x y => SFltb (PriceLevel.price x) (PriceLevel.price y) = true)
    (snapshot_of Asks 2 main_book).
Proof.
  apply (snapshot_is_ordered 2 main_book). apply book_after_reachable.
Defined.

(** X4.  For a depth of at least 1 and within the [max_size()] of the
    vectors, the best level [getBBO] reports for a side is the first entry
    of that side of [getSnapshot]; when the snapshot of the side is empty
    the side has no level and [getBBO] reports the pair (0.0, 0). *)
Theorem bbo_is_head_of_snapshot depth sd b :
  (0 < depth)%nat -> Z.of_nat depth <= vector_max_size ->
  getSnapshot depth b
    = Returns (snapshot_of Bids depth b, snapshot_of Asks depth b) /\
  match snapshot_of sd depth b with
  | x :: _ => bbo_side sd b = x
  | [] => side_table sd b = [] /\
          bbo_side sd b = PriceLevel.mk (S754_zero false) 0
  end.
Proof.
  intros Hd Hmax.
  assert (Hle : (Z.of_nat depth <=? vector_max_size) = true)
    by (apply Z.leb_le; exact Hmax).
  rewrite !snapshot_of_rows, Hle.
  split; [apply getSnapshot_returns, Hmax |].
  destruct depth as [| d]; [lia |].
  destruct sd; simpl.
  - destruct (bids b) as [| [k l] t]; simpl; auto.
  - destruct (asks b) as [| [k l] t]; simpl; auto.
Qed.

Lemma bbo_is_head_of_snapshot_witness :
  getSnapshot 3 main_book
    = Returns (snapshot_of Bids 3 main_book, snapshot_of Asks 3 main_book) /\
  match snapshot_of Asks 3 main_book with
  | x :: _ => bbo_side Asks main_book = x
  | [] => side_table Asks main_book = [] /\
          bbo_side Asks main_book = PriceLevel.mk (S754_zero false) 0
  end.
Proof.
  apply (bbo_is_head_of_snapshot 3 Asks main_book); [lia |].
  vm_compute. discriminate.
Defined.

Lemma comp_asym comp `{!StrictWeak comp} a c :
  comp a c = true -> comp c a = false.
Proof.
  intros H. destruct (comp c a) eqn:E; [| reflexivity].
  pose proof (sw_trans a c a H E) as H'. rewrite sw_irrefl in H'. discriminate.
Qed.

(** X5.  In every reachable book no order that rests in a level has a
    better price than the one [getBBO] reports for its side: no resting
    buy order is priced above the best bid and no resting sell order
    below the best ask. *)
Theorem no_resting_order_beats_bbo b h o :
  reachable b -> order_storage b !! h = Some o -> resting b h ->
  if Order.is_buy o
  then SFltb (PriceLevel.price (bbo_side Bids b)) (Order.price o) = false
  else SFltb (Order.price o) (PriceLevel.price (bbo_side Asks b)) = false.
Proof.
  intros Hr Ho (sd & k & l & n & Hk & Hn). pose proof (reachable_wf b Hr) as Hwf.
  destruct (wf_members b Hwf sd k l n h Hk Hn)
    as (o' & Ho' & Hsd & Hnan & Hkeq & _).
  rewrite Ho in Ho'. injection Ho' as <-.
  pose proof (wf_tables b Hwf sd) as Hok.
  assert (Hbest : comp_of sd (Order.price o)
                    (PriceLevel.price (bbo_side sd b)) = false).
  { assert (Hb : bbo_side sd b = best_of (side_table sd b))
      by (destruct sd; reflexivity).
    rewrite Hb. destruct (side_table sd b) as [| [k0 l0] t] eqn:E;
      [inversion Hk |].
    simpl. apply table_ok_cons_inv in Hok as (_ & Hk0 & Hlt).
    apply elem_of_cons in Hk as [[= -> ->] | Hk]; [apply Hkeq |].
    pose proof (Hlt k l Hk) as Hc.
    destruct (comp_of sd (Order.price o) k0) eqn:E1; [| reflexivity].
    assert (Hnk : is_nan k = false).
    { destruct (wf_tables b Hwf sd) as [_ Hn']. rewrite E in Hn'.
      rewrite Forall_forall in Hn'. apply Hn'.
      apply list_elem_of_fmap. exists (k, l).
      split; [reflexivity | right; exact Hk]. }
    destruct (sw_neg_trans (comp := comp_of sd) (Order.price o) k k0 Hnk E1)
      as [H | H].
    - destruct Hkeq as [Hkeq _]. congruence.
    - rewrite (comp_asym (comp_of sd) k0 k Hc) in H. discriminate. }
  subst sd. destruct (Order.is_buy o); exact Hbest.
Qed.

Lemma no_resting_order_beats_bbo_witness :
  if Order.is_buy (Order.mk 2 true (dbl 99) 20 0 (Some 3%nat))
  then SFltb (PriceLevel.price (bbo_side Bids two_sided_book))
         (Order.price (Order.mk 2 true (dbl 99) 20 0 (Some 3%nat))) = false
  else SFltb (Order.price (Order.mk 2 true (dbl 99) 20 0 (Some 3%nat)))
         (PriceLevel.price (bbo_side Asks two_sided_book)) = false.
Proof.
  apply (no_resting_order_beats_bbo two_sided_book 2%nat
           (Order.mk 2 true (dbl 99) 20 0 (Some 3%nat))).
  - apply book_after_reachable.
  - vm_compute. reflexivity.
  - exists Bids, (dbl 99), (Limit.mk 20 [(3%nat, 2%nat)]), 3%nat.
    split; vm_compute; [right; left | left].
Defined.

(** ** Levels other than the one an operation writes *)

Section OtherLevels.
Context (comp : double -> double -> bool) `{!StrictWeak comp}.

Lemma key_of_ok_table k l t :
  table_ok comp t -> (k, l) ∈ t -> is_nan k = false.
Proof.
  intros [_ Hn] Hin. rewrite Forall_forall in Hn. apply Hn.
  apply list_elem_of_fmap. exists (k, l). auto.
Qed.

Lemma map_find_written_other k f t p :
  table_ok comp t -> is_nan k = false -> is_nan p = false ->
  ~ keq comp k p ->
  map_find comp p (map_update comp k f (map_subscript comp k t)) =
  map_find comp p t.
Proof.
  intros Hok Hk Hp Hne.
  assert (Hok' : table_ok comp (map_update comp k f (map_subscript comp k t)))
    by (apply table_ok_update, table_ok_subscript; assumption).
  assert (Hbwd : forall k' l',
            map_find comp p t = Some (k', l') ->
            map_find comp p (map_update comp k f (map_subscript comp k t))
              = Some (k', l')).
  { intros k' l' Hf. apply map_find_elem in Hf as [Hin Hkeq].
    apply elem_map_find; try assumption.
    apply elem_written_other; try assumption.
    intros Hkeq'. apply Hne.
    apply keq_trans with (b := k');
      first [assumption | apply _ | (apply keq_sym; assumption)
            | exact (key_of_ok_table k' l' t Hok Hin)]. }
  destruct (map_find comp p t) as [[k' l'] |] eqn:E.
  - apply Hbwd. reflexivity.
  - destruct (map_find comp p (map_update comp k f (map_subscript comp k t)))
      as [[k' l'] |] eqn:E'; [| reflexivity].
    exfalso. apply map_find_elem in E' as [Hin Hkeq].
    apply elem_written in Hin; try assumption.
    destruct Hin as [[Hin _] | (l0 & _ & Hkeq' & Hin)].
    + rewrite (elem_map_find comp p t k' l' Hok Hp Hin Hkeq) in E. discriminate.
    + assert (Hnk : is_nan k' = false).
      { destruct Hin as [Hin | (_ & -> & _)];
          [exact (key_of_ok_table k' l0 t Hok Hin) | assumption]. }
      apply Hne. apply keq_trans with (b := k');
        first [assumption | apply _ | (apply keq_sym; assumption)].
Qed.

Lemma map_find_erased k t :
  table_ok comp t -> is_nan k = false ->
  map_find comp k (map_erase comp k t) = None.
Proof.
  intros Hok Hk.
  destruct (map_find comp k (map_erase comp k t)) as [[k' l'] |] eqn:E;
    [| reflexivity].
  apply map_find_elem in E as [Hin Hkeq].
  apply elem_erase in Hin as [_ Hne]; try assumption.
  contradiction.
Qed.

Lemma map_find_updated k f t k' l :
  table_ok comp t -> is_nan k = false ->
  map_find comp k t = Some (k', l) ->
  map_find comp k (map_update comp k f t) = Some (k', f l).
Proof.
  intros Hok Hk Hf. pose proof (map_find_elem _ _ _ _ _ Hf) as [_ Hkeq].
  apply elem_map_find; try assumption; [apply table_ok_update; assumption |].
  apply elem_update; try assumption. right. eauto.
Qed.

Lemma map_update_same k f t k' l :
  map_find comp k t = Some (k', l) -> f l = l ->
  map_update comp k f (map_subscript comp k t) = t.
Proof.
  intros Hf Hfl. induction t as [| [k0 v] t IH]; simpl in *; [discriminate |].
  destruct (comp k0 k) eqn:E1; simpl.
  - rewrite E1. rewrite (IH Hf). reflexivity.
  - destruct (comp k k0) eqn:E2; [discriminate |].
    injection Hf as -> ->. simpl. rewrite E1, E2, Hfl. reflexivity.
Qed.
End OtherLevels.

Lemma list_erase_split n h (l members : list (addr * addr)) :
  NoDup (l.*1) -> (n, h) ∈ l -> list_erase n l = Some members ->
  exists l1 l2, l = l1 ++ (n, h) :: l2 /\ members = l1 ++ l2.
Proof.
  revert members. induction l as [| [n0 h0] l IH]; simpl; intros members Hnd Hin He.
  - inversion Hin.
  - apply NoDup_cons in Hnd as [Hn0 Hnd].
    destruct (Nat.eqb_spec n0 n) as [-> | Hne].
    + injection He as <-.
      apply elem_of_cons in Hin as [[= <-] | Hin].
      * exists [], l. auto.
      * exfalso. apply Hn0. apply list_elem_of_fmap. exists (n, h). auto.
    + destruct (list_erase n l) as [l0 |] eqn:E; [| discriminate].
      injection He as <-.
      apply elem_of_cons in Hin as [[= <- <-] | Hin]; [congruence |].
      destruct (IH l0 Hnd Hin eq_refl) as (l1 & l2 & -> & ->).
      exists ((n0, h0) :: l1), l2. auto.
Qed.

Lemma d_neq_not_keq sd a c :
  is_nan a = false -> is_nan c = false ->
  d_neq a c = true -> ~ keq (comp_of sd) a c.
Proof.
  intros Ha Hc Hne Hkeq. rewrite (keq_not_d_neq sd a c Ha Hc Hkeq) in Hne.
  discriminate.
Qed.

Lemma side_table_opposite sd t b :
  side_table (opposite sd) (set_side_table sd t b) = side_table (opposite sd) b.
Proof. destruct sd; reflexivity. Qed.

(** ** What the operations return and leave alone *)

Lemma newOrder_inv is_buy price quantity now b id b' :
  newOrder is_buy price quantity now b = Ok (id, b') ->
  id = next_order_id b /\ is_nan price = false /\
  b' = added (side_of is_buy) (next_addr b)
         (Order.mk (next_order_id b) is_buy price quantity (wrap64 now) None)
         (allocated is_buy price quantity now b).
Proof.
  rewrite newOrder_eq.
  destruct (add_order_internal _ _ _) as [b1 |] eqn:Ha; [| discriminate].
  simpl. intros [= <- <-].
  apply add_order_internal_inv in Ha as (o & Ho & Hnan & ->).
  unfold allocated in Ho. simpl in Ho. rewrite lookup_insert_eq in Ho.
  injection Ho as <-. auto.
Qed.

Lemma cancelOrder_inv id b r b' :
  cancelOrder id b = Ok (r, b') ->
  (r = false /\ b' = b /\ order_lookup b !! id = None) \/
  (r = true /\ exists h o b1,
     order_lookup b !! id = Some h /\ order_storage b !! h = Some o /\
     remove_order_internal (side_of (Order.is_buy o)) h b = Ok b1 /\
     b' = set_storage (delete h (order_storage b1))
            (set_lookup (delete id (order_lookup b1)) b1)).
Proof.
  rewrite cancelOrder_eq.
  destruct (order_lookup b !! id) as [h |] eqn:Hl;
    [| intros [= <- <-]; left; auto].
  destruct (order_storage b !! h) as [o |] eqn:Ho; [| discriminate].
  destruct (remove_order_internal _ _ _) as [b1 |] eqn:Hr; [| discriminate].
  simpl. intros [= <- <-]. right. split; [reflexivity |].
  exists h, o, b1. auto.
Qed.

Lemma amendOrder_inv id p q b r b' :
  amendOrder id p q b = Ok (r, b') ->
  (r = false /\ b' = b /\ order_lookup b !! id = None) \/
  (r = true /\ exists h o,
     order_lookup b !! id = Some h /\ order_storage b !! h = Some o /\
     ((d_neq (Order.price o) p = true /\ is_nan p = false /\
       exists b1, remove_order_internal (side_of (Order.is_buy o)) h b = Ok b1 /\
                  b' = amended h o p q b1) \/
      (d_neq (Order.price o) p = false /\ b' = adjusted h o q b))).
Proof.
  intros Ha.
  destruct (order_lookup b !! id) as [h |] eqn:Hl.
  2: { unfold amendOrder in Ha. rewrite Hl in Ha. injection Ha as <- <-.
       left. auto. }
  destruct (order_storage b !! h) as [o |] eqn:Ho.
  2: { unfold amendOrder in Ha. rewrite Hl, Ho in Ha. discriminate. }
  right. destruct (d_neq (Order.price o) p) eqn:Hp.
  - rewrite (amend_price_change_eq b id h o p q Hl Ho Hp) in Ha.
    destruct (remove_order_internal _ _ _) as [b1 |] eqn:Hr; [| discriminate].
    destruct (is_nan p) eqn:Hnan; [discriminate |]. injection Ha as <- <-.
    split; [reflexivity |]. exists h, o.
    split; [first [reflexivity | assumption] |].
    split; [first [reflexivity | assumption] |]. left. eauto.
  - rewrite (amend_quantity_eq b id h o p q Hl Ho Hp) in Ha.
    injection Ha as <- <-.
    split; [reflexivity |]. exists h, o. auto.
Qed.

(** Every stored order is the one the index gives for its identifier. *)
Lemma reachable_indexed b :
  reachable b ->
  forall h o, order_storage b !! h = Some o ->
              order_lookup b !! Order.order_id o = Some h.
Proof.
  induction 1 as [| b is_buy price quantity now id b' Hr IH _ Hid Hn
                  | b id r b' Hr IH Hc
                  | b id price quantity r b' Hr IH _ Ha];
    intros h0 o0.
  - simpl. rewrite lookup_empty. discriminate.
  - pose proof (reachable_wf b Hr) as Hwf.
    apply newOrder_inv in Hn as (-> & _ & ->).
    unfold added, allocated. book_simpl.
    rewrite insert_insert_eq, lookup_insert. case_decide as Hh.
    + subst h0. intros [= <-]. simpl. apply lookup_insert_eq.
    + intros Ho0. specialize (IH h0 o0 Ho0).
      destruct (wf_index b Hwf _ _ IH) as [Hlt _].
      rewrite lookup_insert_ne by lia. exact IH.
  - apply cancelOrder_inv in Hc
      as [(_ & -> & _) | (_ & h & o & b1 & Hl & Ho & Hrem & ->)]; [apply IH |].
    destruct (remove_order_internal_frame _ _ _ _ Hrem) as (Hst & Hlk & _).
    simpl. rewrite Hst, Hlk, lookup_delete. case_decide as Hh; [discriminate |].
    intros Ho0. specialize (IH h0 o0 Ho0).
    rewrite lookup_delete_ne; [exact IH |].
    intros Heq. rewrite <- Heq, Hl in IH. congruence.
  - pose proof (reachable_wf b Hr) as Hwf.
    apply amendOrder_inv in Ha
      as [(_ & -> & _) | (_ & h & o & Hl & Ho & Hcase)]; [apply IH |].
    destruct (wf_index b Hwf id h Hl) as [_ (o1 & Ho1 & Hid1)].
    rewrite Ho in Ho1. injection Ho1 as <-.
    destruct Hcase as [(_ & _ & b1 & Hrem & ->) | (_ & ->)].
    + destruct (remove_order_internal_frame _ _ _ _ Hrem) as (Hst & Hlk & _).
      unfold amended, added. book_simpl.
      rewrite insert_insert_eq, Hst, Hlk, lookup_insert. case_decide as Hh.
      * intros [= <-]. simpl. subst h0. rewrite Hid1. exact Hl.
      * apply IH.
    + unfold adjusted. book_simpl. rewrite lookup_insert. case_decide as Hh.
      * intros [= <-]. simpl. subst h0. rewrite Hid1. exact Hl.
      * apply IH.
Qed.

(** Identifiers start at 1. *)
Lemma reachable_ids_positive b :
  reachable b ->
  1 <= next_order_id b /\
  forall id h, order_lookup b !! id = Some h -> 1 <= id.
Proof.
  induction 1 as [| b is_buy price quantity now id b' Hr IH _ Hid Hn
                  | b id r b' Hr IH Hc
                  | b id price quantity r b' Hr IH _ Ha].
  - simpl. split; [lia |]. intros id h. rewrite lookup_empty. discriminate.
  - destruct IH as [IH1 IH2]. apply newOrder_inv in Hn as (-> & _ & ->).
    unfold added, allocated. book_simpl.
    rewrite wrap64_small by (unfold u64; lia). split; [lia |].
    intros id h. rewrite lookup_insert. case_decide as Hi.
    + intros _. lia.
    + apply IH2.
  - destruct IH as [IH1 IH2].
    apply cancelOrder_inv in Hc
      as [(_ & -> & _) | (_ & h & o & b1 & Hl & Ho & Hrem & ->)]; [auto |].
    destruct (remove_order_internal_frame _ _ _ _ Hrem) as (_ & Hlk & Hnx & _).
    simpl. rewrite Hnx, Hlk. split; [exact IH1 |].
    intros id0 h0. rewrite lookup_delete. case_decide; [discriminate |]. apply IH2.
  - destruct IH as [IH1 IH2].
    apply amendOrder_inv in Ha
      as [(_ & -> & _) | (_ & h & o & Hl & Ho & Hcase)]; [auto |].
    destruct Hcase as [(_ & _ & b1 & Hrem & ->) | (_ & ->)].
    + destruct (remove_order_internal_frame _ _ _ _ Hrem) as (_ & Hlk & Hnx & _).
      unfold amended, added. book_simpl. rewrite Hnx, Hlk. auto.
    + unfold adjusted. book_simpl. auto.
Qed.

(** X6.  Order identifiers are issued in increasing order from 1: in a
    reachable book [newOrder] returns the value of the counter, which is
    at least 1, above every identifier in the index and not in the index
    itself, and leaves the counter one higher. *)
Theorem order_ids_increase b is_buy p q now id b' :
  reachable b -> next_order_id b < two64 - 1 ->
  newOrder is_buy p q now b = Ok (id, b') ->
  1 <= id /\ id = next_order_id b /\ next_order_id b' = id + 1 /\
  order_lookup b !! id = None /\
  (forall id' h, order_lookup b !! id' = Some h -> 1 <= id' < id) /\
  (forall id' h, order_lookup b' !! id' = Some h -> 1 <= id' < next_order_id b').
Proof.
  intros Hr Hid Hn. pose proof (reachable_wf b Hr) as Hwf.
  destruct (reachable_ids_positive b Hr) as [H1 H2].
  apply newOrder_inv in Hn as (-> & _ & ->).
  assert (Hold : forall id' h, order_lookup b !! id' = Some h ->
                               1 <= id' < next_order_id b).
  { intros id' h Hl. split; [exact (H2 id' h Hl) |].
    apply (wf_index b Hwf id' h Hl). }
  unfold added, allocated. book_simpl.
  rewrite wrap64_small by (unfold u64; lia).
  split; [exact H1 |]. split; [reflexivity |]. split; [reflexivity |].
  split; [| split; [exact Hold |]].
  - destruct (order_lookup b !! next_order_id b) as [h |] eqn:E; [| reflexivity].
    specialize (Hold _ _ E). lia.
  - intros id' h. rewrite lookup_insert. case_decide as Hi.
    + intros _. lia.
    + intros Hl. specialize (Hold _ _ Hl). lia.
Qed.

Lemma order_ids_increase_witness :
  1 <= 2 /\ 2 = next_order_id (book_after [NewOrder true (dbl 100) 10 0]) /\
  next_order_id two_bids_book = 2 + 1 /\
  order_lookup (book_after [NewOrder true (dbl 100) 10 0]) !! 2 = None /\
  (forall id' h,
     order_lookup (book_after [NewOrder true (dbl 100) 10 0]) !! id' = Some h ->
     1 <= id' < 2) /\
  (forall id' h, order_lookup two_bids_book !! id' = Some h ->
                 1 <= id' < next_order_id two_bids_book).
Proof.
  apply (order_ids_increase (book_after [NewOrder true (dbl 100) 10 0])
           true (dbl 100) 5 0 2 two_bids_book).
  - apply book_after_reachable.
  - vm_compute. reflexivity.
  - vm_compute. reflexivity.
Defined.

(** ** The index, the arena and the member lists *)

(** X7.  In every reachable book the index and the arena describe the same
    orders: an identifier maps to a handle exactly when the arena holds at
    that handle an order with this identifier, so no two orders of the
    arena share an identifier. *)
Theorem index_and_arena_agree b :
  reachable b ->
  (forall id h,
     order_lookup b !! id = Some h <->
     exists o, order_storage b !! h = Some o /\ Order.order_id o = id) /\
  (forall h1 h2 o1 o2,
     order_storage b !! h1 = Some o1 -> order_storage b !! h2 = Some o2 ->
     Order.order_id o1 = Order.order_id o2 -> h1 = h2).
Proof.
  intros Hr. pose proof (reachable_wf b Hr) as Hwf. split.
  - intros id h. split.
    + intros Hl. apply (wf_index b Hwf id h Hl).
    + intros (o & Ho & <-). apply reachable_indexed; assumption.
  - intros h1 h2 o1 o2 H1 H2 Hid.
    pose proof (reachable_indexed b Hr h1 o1 H1) as L1.
    pose proof (reachable_indexed b Hr h2 o2 H2) as L2.
    rewrite Hid, L2 in L1. congruence.
Qed.

Lemma index_and_arena_agree_witness :
  (forall id h,
     order_lookup main_book !! id = Some h <->
     exists o, order_storage main_book !! h = Some o /\ Order.order_id o = id) /\
  (forall h1 h2 o1 o2,
     order_storage main_book !! h1 = Some o1 ->
     order_storage main_book !! h2 = Some o2 ->
     Order.order_id o1 = Order.order_id o2 -> h1 = h2).
Proof. apply (index_and_arena_agree main_book). apply book_after_reachable. Defined.

Lemma handles_unique (l : list (addr * addr)) :
  NoDup (l.*1) ->
  (forall n1 n2 h, (n1, h) ∈ l -> (n2, h) ∈ l -> n1 = n2) ->
  NoDup (l.*2).
Proof.
  induction l as [| [n h] l IH]; simpl; intros Hnd Hf; [constructor |].
  apply NoDup_cons in Hnd as [Hn Hnd]. apply NoDup_cons. split.
  - intros Hin. apply list_elem_of_fmap in Hin as [[n' h'] [Heq Hin]].
    simpl in Heq. subst h'. apply Hn.
    assert (n = n') as -> by (apply (Hf n n' h); [left | right; exact Hin]).
    apply list_elem_of_fmap. exists (n', h). auto.
  - apply IH; [exact Hnd |]. intros n1 n2 h0 H1 H2.
    apply (Hf n1 n2 h0); right; assumption.
Qed.

(** X8.  In every reachable book a member of a level is a live, indexed
    order of the level's side whose price compares equal to the level's
    key; it is a member of this level only, at one node, and no level
    lists an order twice. *)
Theorem member_is_live_order_of_its_level b sd k l n h :
  reachable b -> (k, l) ∈ side_table sd b -> (n, h) ∈ Limit.orders l ->
  (exists o,
     order_storage b !! h = Some o /\
     order_lookup b !! Order.order_id o = Some h /\
     sd = side_of (Order.is_buy o) /\
     d_neq (Order.price o) k = false /\
     level_at sd (Order.price o) b = Some (k, l)) /\
  (forall sd' k' l' n',
     (k', l') ∈ side_table sd' b -> (n', h) ∈ Limit.orders l' ->
     sd' = sd /\ k' = k /\ l' = l /\ n' = n) /\
  NoDup ((Limit.orders l).*2).
Proof.
  intros Hr Hk Hn. pose proof (reachable_wf b Hr) as Hwf.
  destruct (wf_members b Hwf sd k l n h Hk Hn)
    as (o & Ho & Hsd & Hnan & Hkeq & Hpos).
  destruct (member_level b sd k l n h o Hwf Hk Hn Ho) as (_ & _ & _ & Hf).
  split; [| split].
  - exists o. split; [exact Ho |].
    split; [apply reachable_indexed; assumption |].
    split; [symmetry; exact Hsd |]. split; [| exact Hf].
    apply (keq_not_d_neq sd); try assumption.
    exact (key_of_ok_table (comp_of sd) k l _ (wf_tables b Hwf sd) Hk).
  - intros sd' k' l' n' Hk' Hn'.
    destruct (member_level b sd' k' l' n' h o Hwf Hk' Hn' Ho)
      as (Hsd' & Hpos' & _ & Hf').
    assert (sd' = sd) as -> by congruence.
    rewrite Hf in Hf'. injection Hf' as <- <-.
    repeat split; congruence.
  - apply handles_unique; [exact (wf_nodes b Hwf sd k l Hk) |].
    intros n1 n2 h0 H1 H2.
    destruct (wf_members b Hwf sd k l n1 h0 Hk H1) as (o1 & Ho1 & _ & _ & _ & P1).
    destruct (wf_members b Hwf sd k l n2 h0 Hk H2) as (o2 & Ho2 & _ & _ & _ & P2).
    congruence.
Qed.

Lemma member_is_live_order_of_its_level_witness :
  (exists o,
     order_storage two_bids_book !! 2%nat = Some o /\
     order_lookup two_bids_book !! Order.order_id o = Some 2%nat /\
     Bids = side_of (Order.is_buy o) /\
     d_neq (Order.price o) (dbl 100) = false /\
     level_at Bids (Order.price o) two_bids_book =
       Some (dbl 100, Limit.mk 15 [(1%nat, 0%nat); (3%nat, 2%nat)])) /\
  (forall sd' k' l' n',
     (k', l') ∈ side_table sd' two_bids_book -> (n', 2%nat) ∈ Limit.orders l' ->
     sd' = Bids /\ k' = dbl 100 /\
     l' = Limit.mk 15 [(1%nat, 0%nat); (3%nat, 2%nat)] /\ n' = 3%nat) /\
  NoDup ((Limit.orders (Limit.mk 15 [(1%nat, 0%nat); (3%nat, 2%nat)])).*2).
Proof.
  apply (member_is_live_order_of_its_level two_bids_book Bids (dbl 100)
           (Limit.mk 15 [(1%nat, 0%nat); (3%nat, 2%nat)]) 3%nat 2%nat).
  - apply book_after_reachable.
  - vm_compute. left.
  - simpl. right. left.
Defined.

(** ** Calls on guarded books *)

(** X9.  On a guarded book [cancelOrder] and, for a price that is not NaN,
    [amendOrder] return for every identifier: no dangling iterator is
    followed.  They return [true] exactly when the identifier is in the
    index. *)
Theorem guarded_calls_return b id p q :
  guarded b -> is_nan p = false ->
  (exists b', cancelOrder id b
              = Ok (bool_decide (is_Some (order_lookup b !! id)), b')) /\
  (exists b', amendOrder id p q b
              = Ok (bool_decide (is_Some (order_lookup b !! id)), b')).
Proof.
  intros Hg Hnan. pose proof (guarded_solid b Hg) as Hs.
  pose proof (sb_wf _ b Hs) as Hwf.
  destruct (order_lookup b !! id) as [h |] eqn:Hl.
  - destruct (wf_index b Hwf id h Hl) as [_ (o & Ho & _)].
    assert (Hrest : resting b h) by (apply (sb_resting _ b Hs h o Ho); discriminate).
    rewrite bool_decide_eq_true_2 by eauto. split.
    + destruct (remove_resting_ok b h o Hwf Ho Hrest)
        as (k & l & n & members & _ & _ & _ & _ & Hrem).
      rewrite cancelOrder_eq, Hl, Ho, Hrem. simpl. eauto.
    + destruct (amend_resting_ok b id h p q Hwf Hl Hrest Hnan)
        as (b' & _ & Ha & _). eauto.
  - rewrite bool_decide_eq_false_2 by (intros [? ?]; discriminate).
    unfold cancelOrder, amendOrder. rewrite Hl. eauto.
Qed.

Lemma guarded_calls_return_witness :
  (exists b', cancelOrder 1 guarded_example_book
              = Ok (bool_decide (is_Some (order_lookup guarded_example_book !! 1)),
                    b')) /\
  (exists b', amendOrder 1 (dbl 98) 7 guarded_example_book
              = Ok (bool_decide (is_Some (order_lookup guarded_example_book !! 1)),
                    b')).
Proof.
  apply (guarded_calls_return guarded_example_book 1 (dbl 98) 7).
  - apply guarded_book_after_guarded.
  - reflexivity.
Defined.

(** X10.  Once [cancelOrder] has returned [true] for an identifier of a
    reachable book, the identifier is in the index no more and no order of
    the arena carries it; further calls of [cancelOrder] and [amendOrder]
    with it return [false] and change nothing, and the identifier stays
    below the counter, so that [newOrder] does not issue it again. *)
Theorem cancelled_order_is_gone b id b1 p q :
  reachable b -> cancelOrder id b = Ok (true, b1) ->
  order_lookup b1 !! id = None /\
  (forall h o, order_storage b1 !! h = Some o -> Order.order_id o <> id) /\
  cancelOrder id b1 = Ok (false, b1) /\
  amendOrder id p q b1 = Ok (false, b1) /\
  id < next_order_id b1.
Proof.
  intros Hr Hc. pose proof (reachable_wf b Hr) as Hwf.
  pose proof (cancelled_not_in_index b id b1 Hc) as Hnone.
  pose proof (reachable_cancel b id true b1 Hr Hc) as Hr1.
  split; [exact Hnone |]. split; [| split; [| split]].
  - intros h o Ho Hid.
    pose proof (reachable_indexed b1 Hr1 h o Ho) as Hl.
    rewrite Hid, Hnone in Hl. discriminate.
  - unfold cancelOrder. rewrite Hnone. reflexivity.
  - unfold amendOrder. rewrite Hnone. reflexivity.
  - apply cancelOrder_inv in Hc
      as [(Hf & _) | (_ & h & o & b0 & Hl & Ho & Hrem & ->)]; [discriminate |].
    destruct (remove_order_internal_frame _ _ _ _ Hrem) as (_ & _ & Hnx & _).
    simpl. rewrite Hnx. apply (wf_index b Hwf id h Hl).
Qed.

Lemma cancelled_order_is_gone_witness :
  order_lookup (book_after [NewOrder true (dbl 100) 10 0;
                            NewOrder true (dbl 100) 5 0; CancelOrder 2]) !! 2
    = None /\
  (forall h o,
     order_storage (book_after [NewOrder true (dbl 100) 10 0;
                                NewOrder true (dbl 100) 5 0; CancelOrder 2]) !! h
       = Some o ->
     Order.order_id o <> 2) /\
  cancelOrder 2 (book_after [NewOrder true (dbl 100) 10 0;
                             NewOrder true (dbl 100) 5 0; CancelOrder 2])
    = Ok (false, book_after [NewOrder true (dbl 100) 10 0;
                             NewOrder true (dbl 100) 5 0; CancelOrder 2]) /\
  amendOrder 2 (dbl 99) 7 (book_after [NewOrder true (dbl 100) 10 0;
                                       NewOrder true (dbl 100) 5 0; CancelOrder 2])
    = Ok (false, book_after [NewOrder true (dbl 100) 10 0;
                             NewOrder true (dbl 100) 5 0; CancelOrder 2]) /\
  2 < next_order_id (book_after [NewOrder true (dbl 100) 10 0;
                                 NewOrder true (dbl 100) 5 0; CancelOrder 2]).
Proof.
  apply (cancelled_order_is_gone two_bids_book 2
           (book_after [NewOrder true (dbl 100) 10 0;
                        NewOrder true (dbl 100) 5 0; CancelOrder 2]) (dbl 99) 7).
  - apply book_after_reachable.
  - vm_compute. reflexivity.
Defined.

(** ** What a call does to the levels *)

(** X11.  [cancelOrder] of an order that rests in a level of a reachable
    book returns [true] and takes exactly this order away: the level of
    its price loses the order's node, the other members keeping their
    order, and the order's quantity (modulo 2^64), and is erased when the
    total becomes 0; the levels of all other prices and the table of the
    other side stay as they are; the order leaves the index and the arena,
    where nothing else changes, and the identifier counter is not
    touched. *)
Theorem cancel_removes_exactly_the_order b id h o :
  reachable b ->
  order_lookup b !! id = Some h -> order_storage b !! h = Some o ->
  resting b h ->
  exists b' k l l1 l2 n,
    cancelOrder id b = Ok (true, b') /\
    level_at (side_of (Order.is_buy o)) (Order.price o) b = Some (k, l) /\
    Limit.orders l = l1 ++ (n, h) :: l2 /\
    level_at (side_of (Order.is_buy o)) (Order.price o) b' =
      (if wrap64 (Limit.total_quantity l - Order.quantity o) =? 0 then None
       else Some (k, Limit.mk (wrap64 (Limit.total_quantity l - Order.quantity o))
                       (l1 ++ l2))) /\
    (forall p, is_nan p = false -> d_neq (Order.price o) p = true ->
       level_at (side_of (Order.is_buy o)) p b'
       = level_at (side_of (Order.is_buy o)) p b) /\
    side_table (opposite (side_of (Order.is_buy o))) b'
      = side_table (opposite (side_of (Order.is_buy o))) b /\
    order_lookup b' = delete id (order_lookup b) /\
    order_storage b' = delete h (order_storage b) /\
    next_order_id b' = next_order_id b.
Proof.
  intros Hr Hl Ho Hrest. pose proof (reachable_wf b Hr) as Hwf.
  set (sd := side_of (Order.is_buy o)).
  destruct (remove_resting_ok b h o Hwf Ho Hrest)
    as (k & l & n & members & Hlev & Hpos & Hin & Her & Hrem).
  fold sd in Hlev, Hrem.
  pose proof (wf_tables b Hwf sd) as Hok.
  pose proof (map_find_elem _ _ _ _ _ Hlev) as [Hk Hkeq].
  destruct (member_level b sd k l n h o Hwf Hk Hin Ho) as (_ & _ & Hnan & _).
  destruct (list_erase_split n h _ members (wf_nodes b Hwf sd k l Hk) Hin Her)
    as (l1 & l2 & Hl12 & ->).
  eexists. exists k, l, l1, l2, n.
  split; [rewrite cancelOrder_eq, Hl, Ho; fold sd; rewrite Hrem; reflexivity |].
  split; [exact Hlev |]. split; [exact Hl12 |].
  unfold level_at in *. book_simpl.
  split; [| split; [| split; [| auto]]].
  - unfold removed_table.
    destruct (wrap64 (Limit.total_quantity l - Order.quantity o) =? 0).
    + apply map_find_erased; first [assumption | apply _].
    + rewrite (map_find_updated (comp_of sd) _ _ _ k l Hok Hnan Hlev).
      reflexivity.
  - intros p Hp Hne. apply map_find_removed_other; try assumption.
    apply d_neq_not_keq; assumption.
  - apply side_table_opposite.
Qed.

Lemma cancel_removes_exactly_the_order_witness :
  exists b' k l l1 l2 n,
    cancelOrder 1 two_bids_book = Ok (true, b') /\
    level_at (side_of (Order.is_buy (Order.mk 1 true (dbl 100) 10 0 (Some 1%nat))))
      (Order.price (Order.mk 1 true (dbl 100) 10 0 (Some 1%nat))) two_bids_book
      = Some (k, l) /\
    Limit.orders l = l1 ++ (n, 0%nat) :: l2 /\
    level_at (side_of (Order.is_buy (Order.mk 1 true (dbl 100) 10 0 (Some 1%nat))))
      (Order.price (Order.mk 1 true (dbl 100) 10 0 (Some 1%nat))) b' =
      (if wrap64 (Limit.total_quantity l
                  - Order.quantity (Order.mk 1 true (dbl 100) 10 0 (Some 1%nat)))
          =? 0
       then None
       else Some (k, Limit.mk
                       (wrap64 (Limit.total_quantity l
                                - Order.quantity
                                    (Order.mk 1 true (dbl 100) 10 0 (Some 1%nat))))
                       (l1 ++ l2))) /\
    (forall p, is_nan p = false ->
       d_neq (Order.price (Order.mk 1 true (dbl 100) 10 0 (Some 1%nat))) p = true ->
       level_at (side_of (Order.is_buy (Order.mk 1 true (dbl 100) 10 0 (Some 1%nat))))
         p b'
       = level_at
           (side_of (Order.is_buy (Order.mk 1 true (dbl 100) 10 0 (Some 1%nat))))
           p two_bids_book) /\
    side_table
      (opposite (side_of (Order.is_buy (Order.mk 1 true (dbl 100) 10 0 (Some 1%nat)))))
      b'
      = side_table
          (opposite
             (side_of (Order.is_buy (Order.mk 1 true (dbl 100) 10 0 (Some 1%nat)))))
          two_bids_book /\
    order_lookup b' = delete 1 (order_lookup two_bids_book) /\
    order_storage b' = delete 0%nat (order_storage two_bids_book) /\
    next_order_id b' = next_order_id two_bids_book.
Proof.
  apply (cancel_removes_exactly_the_order two_bids_book 1 0%nat
           (Order.mk 1 true (dbl 100) 10 0 (Some 1%nat))).
  - apply book_after_reachable.
  - vm_compute. reflexivity.
  - vm_compute. reflexivity.
  - exists Bids, (dbl 100), (Limit.mk 15 [(1%nat, 0%nat); (3%nat, 2%nat)]), 1%nat.
    split; vm_compute; left.
Defined.

Lemma map_subscript_length comp k t :
  length (map_subscript comp k t) =
  (length t + match map_find comp k t with Some _ => 0 | None => 1 end)%nat.
Proof.
  induction t as [| [k0 v] t IH]; simpl; [reflexivity |].
  destruct (comp k0 k); simpl; [rewrite IH; reflexivity |].
  destruct (comp k k0); simpl; lia.
Qed.

Lemma map_update_length comp k f t :
  length (map_update comp k f t) = length t.
Proof.
  induction t as [| [k0 v] t IH]; simpl; [reflexivity |].
  destruct (comp k0 k); simpl; [rewrite IH; reflexivity |].
  destruct (comp k k0); reflexivity.
Qed.

(** X12.  [newOrder] at a price that is not NaN puts the order at the back
    of the level of its price on its side and adds its quantity to the
    level's total (modulo 2^64); a price without a level gets a new level
    with this one member, so that the side has one level more.  The levels
    of all other prices of the side are as before. *)
Theorem new_order_joins_the_back b is_buy p q now :
  reachable b -> is_nan p = false ->
  exists b',
    newOrder is_buy p q now b = Ok (next_order_id b, b') /\
    level_at (side_of is_buy) p b' =
      Some (match level_at (side_of is_buy) p b with
            | Some (k, l) =>
                (k, Limit.mk (wrap64 (Limit.total_quantity l + q))
                      (Limit.orders l ++ [(S (next_addr b), next_addr b)]))
            | None => (p, Limit.mk (wrap64 q) [(S (next_addr b), next_addr b)])
            end) /\
    (forall p', is_nan p' = false -> d_neq p p' = true ->
       level_at (side_of is_buy) p' b' = level_at (side_of is_buy) p' b) /\
    length (side_table (side_of is_buy) b') =
      (length (side_table (side_of is_buy) b)
       + match level_at (side_of is_buy) p b with Some _ => 0 | None => 1 end)%nat.
Proof.
  intros Hr Hnan. pose proof (reachable_wf b Hr) as Hwf.
  pose proof (wf_tables b Hwf (side_of is_buy)) as Hok.
  eexists. split; [apply newOrder_ok; exact Hnan |].
  unfold level_at, added. book_simpl.
  rewrite !side_table_allocated. simpl.
  split; [| split].
  - rewrite map_find_update_subscript by apply _.
    destruct (map_find _ p _) as [[k l] |]; reflexivity.
  - intros p' Hp' Hne.
    apply map_find_written_other; try assumption; [apply _ |].
    apply d_neq_not_keq; assumption.
  - rewrite map_update_length, map_subscript_length. reflexivity.
Qed.

Lemma new_order_joins_the_back_witness :
  exists b',
    newOrder true (dbl 100) 7 0 two_bids_book
      = Ok (next_order_id two_bids_book, b') /\
    level_at (side_of true) (dbl 100) b' =
      Some (match level_at (side_of true) (dbl 100) two_bids_book with
            | Some (k, l) =>
                (k, Limit.mk (wrap64 (Limit.total_quantity l + 7))
                      (Limit.orders l
                       ++ [(S (next_addr two_bids_book), next_addr two_bids_book)]))
            | None => (dbl 100,
                       Limit.mk (wrap64 7)
                         [(S (next_addr two_bids_book), next_addr two_bids_book)])
            end) /\
    (forall p', is_nan p' = false -> d_neq (dbl 100) p' = true ->
       level_at (side_of true) p' b' = level_at (side_of true) p' two_bids_book) /\
    length (side_table (side_of true) b') =
      (length (side_table (side_of true) two_bids_book)
       + match level_at (side_of true) (dbl 100) two_bids_book with
         | Some _ => 0
         | None => 1
         end)%nat.
Proof.
  apply (new_order_joins_the_back two_bids_book true (dbl 100) 7 0).
  - apply book_after_reachable.
  - reflexivity.
Defined.

Lemma with_quantity_same o : with_quantity (Order.quantity o) o = o.
Proof. destruct o; reflexivity. Qed.

Lemma set_side_table_same sd b : set_side_table sd (side_table sd b) b = b.
Proof. destruct sd, b; reflexivity. Qed.

Lemma set_storage_same b : set_storage (order_storage b) b = b.
Proof. destruct b; reflexivity. Qed.

(** X13.  [amendOrder] of a resting order of a reachable book to a price
    that compares equal to its price and to the quantity it has returns
    [true] and leaves the book exactly as it was. *)
Theorem amend_to_same_values_changes_nothing b id h o p :
  reachable b ->
  order_lookup b !! id = Some h -> order_storage b !! h = Some o ->
  resting b h -> d_neq (Order.price o) p = false ->
  amendOrder id p (Order.quantity o) b = Ok (true, b).
Proof.
  intros Hr Hl Ho Hrest Hp. pose proof (reachable_wf b Hr) as Hwf.
  rewrite (amend_quantity_eq b id h o p _ Hl Ho Hp). do 2 f_equal.
  destruct (remove_resting_ok b h o Hwf Ho Hrest)
    as (k & l & n & members & Hlev & _).
  pose proof (map_find_elem _ _ _ _ _ Hlev) as [Hk _].
  unfold adjusted. rewrite with_quantity_same, (insert_id _ _ _ Ho).
  rewrite set_storage_same.
  rewrite (map_update_same _ _ _ _ k l Hlev); [apply set_side_table_same |].
  rewrite Z.sub_diag. change (to_int64 (wrap64 0)) with 0.
  rewrite Z.add_0_r, wrap64_small by exact (wf_totals b Hwf _ k l Hk).
  destruct l; reflexivity.
Qed.

Lemma amend_to_same_values_changes_nothing_witness :
  amendOrder 1 (dbl 100)
    (Order.quantity (Order.mk 1 true (dbl 100) 10 0 (Some 1%nat))) two_bids_book
  = Ok (true, two_bids_book).
Proof.
  apply (amend_to_same_values_changes_nothing two_bids_book 1 0%nat
           (Order.mk 1 true (dbl 100) 10 0 (Some 1%nat)) (dbl 100)).
  - apply book_after_reachable.
  - vm_compute. reflexivity.
  - vm_compute. reflexivity.
  - exists Bids, (dbl 100), (Limit.mk 15 [(1%nat, 0%nat); (3%nat, 2%nat)]), 1%nat.
    split; vm_compute; left.
  - vm_compute. reflexivity.
Defined.

(** X14.  [amendOrder] that returns [true] changes neither the index nor
    the identifier counter; the order keeps its identifier, its side and
    its time stamp and has the new quantity, and its price is the new one
    when that compares unequal to the old one and the old one otherwise;
    no other order of the arena is written and the table of the other
    side stays as it is. *)
Theorem amend_keeps_identity b id p q h o b' :
  order_lookup b !! id = Some h -> order_storage b !! h = Some o ->
  amendOrder id p q b = Ok (true, b') ->
  order_lookup b' = order_lookup b /\
  next_order_id b' = next_order_id b /\
  (exists o',
     order_storage b' !! h = Some o' /\
     Order.order_id o' = Order.order_id o /\
     Order.is_buy o' = Order.is_buy o /\
     Order.timestamp_ns o' = Order.timestamp_ns o /\
     Order.quantity o' = q /\
     Order.price o' = if d_neq (Order.price o) p then p else Order.price o) /\
  (forall h', h' <> h -> order_storage b' !! h' = order_storage b !! h') /\
  side_table (opposite (side_of (Order.is_buy o))) b'
    = side_table (opposite (side_of (Order.is_buy o))) b.
Proof.
  intros Hl Ho Ha.
  apply amendOrder_inv in Ha
    as [(Hf & _) | (_ & h0 & o0 & Hl0 & Ho0 & Hcase)]; [discriminate |].
  rewrite Hl in Hl0. injection Hl0 as <-.
  rewrite Ho in Ho0. injection Ho0 as <-.
  destruct Hcase as [(Hp & _ & b1 & Hrem & ->) | (Hp & ->)]; rewrite Hp.
  - destruct (remove_order_internal_frame _ _ _ _ Hrem)
      as (Hst & Hlk & Hnx & _ & Hoth).
    unfold amended, added. book_simpl. rewrite Hst, Hlk, Hnx.
    split; [reflexivity |]. split; [reflexivity |]. split; [| split].
    + eexists. split; [apply lookup_insert_eq |]. simpl. auto.
    + intros h' Hne. rewrite !lookup_insert_ne by congruence. reflexivity.
    + rewrite side_table_opposite, side_table_set_storage.
      apply Hoth. destruct (side_of (Order.is_buy o)); discriminate.
  - unfold adjusted. book_simpl.
    split; [reflexivity |]. split; [reflexivity |]. split; [| split].
    + eexists. split; [apply lookup_insert_eq |]. simpl. auto.
    + intros h' Hne. rewrite lookup_insert_ne by congruence. reflexivity.
    + rewrite side_table_opposite, side_table_set_storage. reflexivity.
Qed.

Lemma amend_keeps_identity_witness :
  order_lookup (book_after [NewOrder true (dbl 100) 10 0;
                            NewOrder true (dbl 100) 5 0; AmendOrder 1 (dbl 99) 20])
    = order_lookup two_bids_book /\
  next_order_id (book_after [NewOrder true (dbl 100) 10 0;
                             NewOrder true (dbl 100) 5 0; AmendOrder 1 (dbl 99) 20])
    = next_order_id two_bids_book /\
  (exists o',
     order_storage (book_after [NewOrder true (dbl 100) 10 0;
                                NewOrder true (dbl 100) 5 0;
                                AmendOrder 1 (dbl 99) 20]) !! 0%nat = Some o' /\
     Order.order_id o'
       = Order.order_id (Order.mk 1 true (dbl 100) 10 0 (Some 1%nat)) /\
     Order.is_buy o' = Order.is_buy (Order.mk 1 true (dbl 100) 10 0 (Some 1%nat)) /\
     Order.timestamp_ns o'
       = Order.timestamp_ns (Order.mk 1 true (dbl 100) 10 0 (Some 1%nat)) /\
     Order.quantity o' = 20 /\
     Order.price o' =
       if d_neq (Order.price (Order.mk 1 true (dbl 100) 10 0 (Some 1%nat))) (dbl 99)
       then dbl 99
       else Order.price (Order.mk 1 true (dbl 100) 10 0 (Some 1%nat))) /\
  (forall h', h' <> 0%nat ->
     order_storage (book_after [NewOrder true (dbl 100) 10 0;
                                NewOrder true (dbl 100) 5 0;
                                AmendOrder 1 (dbl 99) 20]) !! h'
     = order_storage two_bids_book !! h') /\
  side_table
    (opposite (side_of (Order.is_buy (Order.mk 1 true (dbl 100) 10 0 (Some 1%nat)))))
    (book_after [NewOrder true (dbl 100) 10 0;
                 NewOrder true (dbl 100) 5 0; AmendOrder 1 (dbl 99) 20])
  = side_table
      (opposite
         (side_of (Order.is_buy (Order.mk 1 true (dbl 100) 10 0 (Some 1%nat)))))
      two_bids_book.
Proof.
  apply (amend_keeps_identity two_bids_book 1 (dbl 99) 20 0%nat
           (Order.mk 1 true (dbl 100) 10 0 (Some 1%nat))).
  - vm_compute. reflexivity.
  - vm_compute. reflexivity.
  - vm_compute. reflexivity.
Defined.

(** ** The print-out *)

Lemma printed_levels_rows xs rest :
  printed_levels (flat_map print_level xs ++ rest) = xs ++ printed_levels rest.
Proof.
  induction xs as [| [d q] xs IH]; simpl; [reflexivity |].
  rewrite IH. reflexivity.
Qed.

Lemma printed_lines_app out1 out2 :
  printed_lines (out1 ++ out2) = (printed_lines out1 + printed_lines out2)%nat.
Proof.
  induction out1 as [| t out1 IH]; simpl; [reflexivity |].
  destruct t; simpl; rewrite IH; reflexivity.
Qed.

Lemma printed_lines_rows xs :
  printed_lines (flat_map print_level xs) = length xs.
Proof. induction xs as [| x xs IH]; simpl; [| rewrite IH]; reflexivity. Qed.

(** X15.  [printBook(depth)] throws [std::length_error], before it has
    written anything, exactly when [depth] exceeds the [max_size()] of the
    vectors.  Otherwise it writes one line for each level of the snapshot
    of that depth: first the asks from the last level of the snapshot to
    the first, so that the best ask comes last, then the bids from the
    first level on, so that the best bid follows it.  With the eight lines
    of headings, rules and the closing blank line, the print-out has
    [8 + min(depth, asks) + min(depth, bids)] lines. *)
Theorem print_shows_snapshot depth b :
  match printBook depth b with
  | Returns out =>
      Z.of_nat depth <= vector_max_size /\
      printed_levels out =
        rev (take depth (map level_row (asks b)))
        ++ take depth (map level_row (bids b)) /\
      printed_lines out =
        (8 + depth `min` length (asks b) + depth `min` length (bids b))%nat
  | Throws e => vector_max_size < Z.of_nat depth /\ e = length_error
  end.
Proof.
  unfold printBook.
  destruct (Z.le_gt_cases (Z.of_nat depth) vector_max_size) as [Hle | Hgt].
  - rewrite getSnapshot_returns by exact Hle. cbn [mbind outcome_bind fst snd].
    split; [exact Hle |]. split.
    + cbn [app printed_levels]. rewrite printed_levels_rows.
      cbn [app printed_levels]. rewrite printed_levels_rows. simpl.
      rewrite app_nil_r. reflexivity.
    + rewrite !printed_lines_app, !printed_lines_rows. simpl.
      rewrite length_rev, !length_take, !length_map. lia.
  - rewrite getSnapshot_throws by exact Hgt. simpl. auto.
Qed.

(** ** Undefined behaviour *)

(** No stored order has a NaN price, and no two stored orders name the
    same member-list node. *)
Lemma reachable_stored b :
  reachable b ->
  (forall h o, order_storage b !! h = Some o -> is_nan (Order.price o) = false) /\
  (forall h1 h2 o1 o2 n,
     order_storage b !! h1 = Some o1 -> order_storage b !! h2 = Some o2 ->
     Order.position_in_limit o1 = Some n -> Order.position_in_limit o2 = Some n ->
     h1 = h2).
Proof.
  induction 1 as [| b is_buy price quantity now id b' Hr [IHn IHp] _ Hid Hn
                  | b id r b' Hr [IHn IHp] Hc
                  | b id price quantity r b' Hr [IHn IHp] _ Ha].
  - split; intros *; simpl; rewrite lookup_empty; discriminate.
  - pose proof (reachable_wf b Hr) as Hwf.
    apply newOrder_inv in Hn as (-> & Hnan & ->).
    unfold added, allocated. book_simpl. rewrite insert_insert_eq. split.
    + intros h o. rewrite lookup_insert. case_decide as Hh.
      * intros [= <-]. exact Hnan.
      * apply IHn.
    + intros h1 h2 o1 o2 n. rewrite !lookup_insert.
      case_decide as H1; case_decide as H2; try congruence.
      * intros [= <-] Ho2 [= <-] P2.
        destruct (wf_alloc b Hwf h2 o2 Ho2) as [_ Hlt].
        specialize (Hlt _ P2). lia.
      * intros Ho1 [= <-] P1 [= <-].
        destruct (wf_alloc b Hwf h1 o1 Ho1) as [_ Hlt].
        specialize (Hlt _ P1). lia.
      * apply IHp.
  - apply cancelOrder_inv in Hc
      as [(_ & -> & _) | (_ & h & o & b1 & Hl & Ho & Hrem & ->)]; [auto |].
    destruct (remove_order_internal_frame _ _ _ _ Hrem) as (Hst & _).
    simpl. rewrite Hst. split.
    + intros h0 o0 Ho0. apply lookup_delete_Some in Ho0 as [_ Ho0]. eauto.
    + intros h1 h2 o1 o2 n Ho1 Ho2.
      apply lookup_delete_Some in Ho1 as [_ Ho1].
      apply lookup_delete_Some in Ho2 as [_ Ho2]. eauto.
  - pose proof (reachable_wf b Hr) as Hwf.
    apply amendOrder_inv in Ha
      as [(_ & -> & _) | (_ & h & o & Hl & Ho & Hcase)]; [auto |].
    destruct Hcase as [(_ & Hnan & b1 & Hrem & ->) | (_ & ->)].
    + destruct (remove_order_internal_frame _ _ _ _ Hrem) as (Hst & _ & _ & Hna & _).
      unfold amended, added. book_simpl. rewrite insert_insert_eq, Hst, Hna. split.
      * intros h0 o0. rewrite lookup_insert. case_decide as Hh.
        -- intros [= <-]. exact Hnan.
        -- apply IHn.
      * intros h1 h2 o1 o2 n. rewrite !lookup_insert.
        case_decide as H1; case_decide as H2; try congruence.
        -- intros [= <-] Ho2 [= <-] P2.
           destruct (wf_alloc b Hwf h2 o2 Ho2) as [_ Hlt].
           specialize (Hlt _ P2). lia.
        -- intros Ho1 [= <-] P1 [= <-].
           destruct (wf_alloc b Hwf h1 o1 Ho1) as [_ Hlt].
           specialize (Hlt _ P1). lia.
        -- apply IHp.
    + unfold adjusted. book_simpl. split.
      * intros h0 o0. rewrite lookup_insert. case_decide as Hh.
        -- intros [= <-]. simpl. eauto.
        -- apply IHn.
      * intros h1 h2 o1 o2 n. rewrite !lookup_insert.
        case_decide as H1; case_decide as H2; try congruence.
        -- intros [= <-] Ho2 P1 P2. subst h1. symmetry.
           exact (IHp h2 h o2 o n Ho2 Ho P2 P1).
        -- intros Ho1 [= <-] P1 P2. subst h2.
           exact (IHp h1 h o1 o n Ho1 Ho P1 P2).
        -- apply IHp.
Qed.

Lemma list_erase_node pos (l members : list (addr * addr)) :
  list_erase pos l = Some members -> exists h, (pos, h) ∈ l.
Proof.
  revert members. induction l as [| [n h] l IH]; simpl; intros members He;
    [discriminate |].
  destruct (Nat.eqb_spec n pos) as [-> | Hne].
  - exists h. left.
  - destruct (list_erase pos l) as [l0 |]; [| discriminate].
    destruct (IH l0 eq_refl) as [h' Hin]. exists h'. right. exact Hin.
Qed.

(** [remove_order_internal] erases through a dangling iterator exactly for
    a displaced order. *)
Lemma remove_undefined_iff b h o :
  reachable b -> order_storage b !! h = Some o ->
  remove_order_internal (side_of (Order.is_buy o)) h b = Undefined <->
  displaced b h o.
Proof.
  intros Hr Ho. pose proof (reachable_wf b Hr) as Hwf.
  destruct (reachable_stored b Hr) as [Hnn Hpos].
  pose proof (Hnn h o Ho) as Hnan. unfold displaced, level_at. split.
  - intros Hu. split.
    + intros Hrest.
      destruct (remove_resting_ok b h o Hwf Ho Hrest)
        as (k & l & n & members & _ & _ & _ & _ & Hrem). congruence.
    + unfold remove_order_internal in Hu. rewrite Ho, Hnan in Hu.
      destruct (map_find _ _ _) as [kl |]; [eauto | discriminate].
  - intros [Hnr [[k l] Hlev]].
    unfold remove_order_internal. rewrite Ho, Hnan, Hlev.
    destruct (Order.position_in_limit o) as [n |] eqn:Hp; [| reflexivity].
    destruct (list_erase n (Limit.orders l)) as [members |] eqn:He;
      [| reflexivity].
    exfalso. apply Hnr. destruct (list_erase_node _ _ _ He) as [h' Hin].
    pose proof (map_find_elem _ _ _ _ _ Hlev) as [Hk _].
    destruct (wf_members b Hwf _ k l n h' Hk Hin) as (o' & Ho' & _ & _ & _ & Hp').
    assert (h' = h) as -> by exact (Hpos h' h o' o n Ho' Ho Hp' Hp).
    exists (side_of (Order.is_buy o)), k, l, n. auto.
Qed.

(** X16.  Where [cancelOrder] and [amendOrder] have undefined behaviour
    on a reachable book, for an identifier in the index.  [cancelOrder]
    has it exactly when the order is displaced: no level refers to it, but
    its price has a level, so that the erase goes through an iterator into
    a member list that was destroyed with its level.  [amendOrder] with a
    price that is not NaN has it exactly when the price changes and the
    order is displaced; a quantity-only amendment has none. *)
Theorem undefined_behaviour_is_displaced b id h o :
  reachable b ->
  order_lookup b !! id = Some h -> order_storage b !! h = Some o ->
  (cancelOrder id b = Undefined <-> displaced b h o) /\
  (forall p q,
     is_nan p = false ->
     (amendOrder id p q b = Undefined <->
      d_neq (Order.price o) p = true /\ displaced b h o)).
Proof.
  intros Hr Hl Ho.
  pose proof (remove_undefined_iff b h o Hr Ho) as Hrem. split.
  - rewrite cancelOrder_eq, Hl, Ho. rewrite <- Hrem.
    destruct (remove_order_internal _ _ _); simpl; split;
      first [discriminate | reflexivity].
  - intros p q Hnan. destruct (d_neq (Order.price o) p) eqn:Hp.
    + rewrite (amend_price_change_eq b id h o p q Hl Ho Hp), Hnan.
      rewrite <- Hrem.
      destruct (remove_order_internal _ _ _); split.
      * discriminate.
      * intros [_ Hf]. discriminate.
      * auto.
      * reflexivity.
    + rewrite (amend_quantity_eq b id h o p q Hl Ho Hp).
      split; [discriminate | intros [Hf _]; discriminate].
Qed.

Lemma undefined_behaviour_is_displaced_witness :
  (cancelOrder 1 displaced_order_book = Undefined <->
   displaced displaced_order_book 0%nat
     (Order.mk 1 true (dbl 100) 0 0 (Some 1%nat))) /\
  (forall p q,
     is_nan p = false ->
     (amendOrder 1 p q displaced_order_book = Undefined <->
      d_neq (Order.price (Order.mk 1 true (dbl 100) 0 0 (Some 1%nat))) p = true /\
      displaced displaced_order_book 0%nat
        (Order.mk 1 true (dbl 100) 0 0 (Some 1%nat)))).
Proof.
  apply (undefined_behaviour_is_displaced displaced_order_book 1 0%nat
           (Order.mk 1 true (dbl 100) 0 0 (Some 1%nat))).
  - apply book_after_reachable.
  - vm_compute. reflexivity.
  - vm_compute. reflexivity.
Defined.

(** X17.  Calls on an order of a reachable book whose price has no level (the
    level went while the order was a member).  [cancelOrder] finds no
    level, takes the order out of the index and the arena and leaves both
    tables as they are.  A quantity-only [amendOrder] makes a level at the
    order's price through [operator[]]: it has no member, and its total is
    the difference of the new and the old quantity modulo 2^64. *)
Theorem order_without_level b id h o p q :
  reachable b ->
  order_lookup b !! id = Some h -> order_storage b !! h = Some o ->
  level_at (side_of (Order.is_buy o)) (Order.price o) b = None ->
  (exists b',
     cancelOrder id b = Ok (true, b') /\
     bids b' = bids b /\ asks b' = asks b /\
     order_lookup b' = delete id (order_lookup b) /\
     order_storage b' = delete h (order_storage b)) /\
  (d_neq (Order.price o) p = false ->
   exists b',
     amendOrder id p q b = Ok (true, b') /\
     level_at (side_of (Order.is_buy o)) (Order.price o) b' =
       Some (Order.price o, Limit.mk (wrap64 (q - Order.quantity o)) [])).
Proof.
  intros Hr Hl Ho Hlev. destruct (reachable_stored b Hr) as [Hnn _].
  pose proof (Hnn h o Ho) as Hnan. unfold level_at in *. split.
  - rewrite cancelOrder_eq, Hl, Ho. unfold remove_order_internal.
    rewrite Ho, Hnan, Hlev. simpl. eexists. split; [reflexivity |].
    simpl. auto.
  - intros Hp. rewrite (amend_quantity_eq b id h o p q Hl Ho Hp).
    eexists. split; [reflexivity |]. unfold adjusted. book_simpl.
    rewrite map_find_update_subscript by apply _. rewrite Hlev.
    rewrite amend_delta_wrap. reflexivity.
Qed.

Lemma order_without_level_witness :
  (exists b',
     cancelOrder 1 orphaned_order_book = Ok (true, b') /\
     bids b' = bids orphaned_order_book /\ asks b' = asks orphaned_order_book /\
     order_lookup b' = delete 1 (order_lookup orphaned_order_book) /\
     order_storage b' = delete 0%nat (order_storage orphaned_order_book)) /\
  (d_neq (Order.price (Order.mk 1 true (dbl 100) 0 0 (Some 1%nat))) (dbl 100)
   = false ->
   exists b',
     amendOrder 1 (dbl 100) 7 orphaned_order_book = Ok (true, b') /\
     level_at (side_of (Order.is_buy (Order.mk 1 true (dbl 100) 0 0 (Some 1%nat))))
       (Order.price (Order.mk 1 true (dbl 100) 0 0 (Some 1%nat))) b' =
       Some (Order.price (Order.mk 1 true (dbl 100) 0 0 (Some 1%nat)),
             Limit.mk
               (wrap64 (7 - Order.quantity
                              (Order.mk 1 true (dbl 100) 0 0 (Some 1%nat)))) [])).
Proof.
  apply (order_without_level orphaned_order_book 1 0%nat
           (Order.mk 1 true (dbl 100) 0 0 (Some 1%nat)) (dbl 100) 7).
  - apply book_after_reachable.
  - vm_compute. reflexivity.
  - vm_compute. reflexivity.
  - vm_compute. reflexivity.
Defined.

(** ** The program's [main] *)

(** X18.  [main] runs to its end with exit status 0 whatever the clock
    reads: none of its calls has undefined behaviour or throws.  What it
    writes does not depend on the clock, and ends with the print-out of
    the book its nine calls leave. *)
Theorem main_runs_to_completion now :
  exists out pre last,
    main now = Ok (out, Exit 0) /\
    main (fun _ => 0) = Ok (out, Exit 0) /\
    printBook 10 main_book = Returns last /\
    out = pre ++ last.
Proof.
  set (out := match main (fun _ => 0) with
              | Ok (out, _) => out
              | Undefined => []
              end).
  set (last := match printBook 10 main_book with
               | Returns printed => printed
               | Throws _ => []
               end).
  exists out, (take (length out - length last) out), last.
  split; [| split; [| split]]; vm_compute; reflexivity.
Qed.

(** ** A change of price, level by level *)

(** X19.  [amendOrder] of a resting order of a reachable book to a price
    that is not NaN and compares unequal to the order's price returns
    [true] and moves the order: the level of the old price loses the
    order's node and its old quantity and is erased when its total becomes
    0 (modulo 2^64); the level of the new price, made if there was none,
    gets the order as its last member and the new quantity; the levels of
    all other prices of the side stay as they are. *)
Theorem price_amend_moves_the_order b id h o p q :
  reachable b ->
  order_lookup b !! id = Some h -> order_storage b !! h = Some o ->
  resting b h -> is_nan p = false -> d_neq (Order.price o) p = true ->
  exists b' k l l1 l2 n,
    amendOrder id p q b = Ok (true, b') /\
    level_at (side_of (Order.is_buy o)) (Order.price o) b = Some (k, l) /\
    Limit.orders l = l1 ++ (n, h) :: l2 /\
    level_at (side_of (Order.is_buy o)) (Order.price o) b' =
      (if wrap64 (Limit.total_quantity l - Order.quantity o) =? 0 then None
       else Some (k, Limit.mk (wrap64 (Limit.total_quantity l - Order.quantity o))
                       (l1 ++ l2))) /\
    level_at (side_of (Order.is_buy o)) p b' =
      Some (match level_at (side_of (Order.is_buy o)) p b with
            | Some (k', l') =>
                (k', Limit.mk (wrap64 (Limit.total_quantity l' + q))
                       (Limit.orders l' ++ [(next_addr b, h)]))
            | None => (p, Limit.mk (wrap64 q) [(next_addr b, h)])
            end) /\
    (forall p', is_nan p' = false ->
       d_neq (Order.price o) p' = true -> d_neq p p' = true ->
       level_at (side_of (Order.is_buy o)) p' b'
       = level_at (side_of (Order.is_buy o)) p' b).
Proof.
  intros Hr Hl Ho Hrest Hnp Hp. pose proof (reachable_wf b Hr) as Hwf.
  set (sd := side_of (Order.is_buy o)).
  destruct (remove_resting_ok b h o Hwf Ho Hrest)
    as (k & l & n & members & Hlev & Hpos & Hin & Her & Hrem).
  fold sd in Hlev, Hrem.
  pose proof (wf_tables b Hwf sd) as Hok.
  pose proof (map_find_elem _ _ _ _ _ Hlev) as [Hk Hkeq].
  destruct (member_level b sd k l n h o Hwf Hk Hin Ho) as (_ & _ & Hnan & _).
  destruct (list_erase_split n h _ members (wf_nodes b Hwf sd k l Hk) Hin Her)
    as (l1 & l2 & Hl12 & ->).
  pose proof (removed_table_ok sd o l (l1 ++ l2) _ Hok) as Hok1.
  assert (Hne : ~ keq (comp_of sd) (Order.price o) p)
    by (apply d_neq_not_keq; assumption).
  assert (Hne' : ~ keq (comp_of sd) p (Order.price o))
    by (intros Hq; apply Hne, keq_sym, Hq).
  eexists. exists k, l, l1, l2, n.
  split.
  { rewrite (amend_price_change_eq b id h o p q Hl Ho Hp). fold sd.
    rewrite Hrem, Hnp. reflexivity. }
  split; [exact Hlev |]. split; [exact Hl12 |].
  unfold level_at in *. unfold amended, added. fold sd. book_simpl.
  split; [| split].
  - rewrite map_find_written_other by (assumption || apply _).
    unfold removed_table.
    destruct (wrap64 (Limit.total_quantity l - Order.quantity o) =? 0).
    + apply map_find_erased; first [assumption | apply _].
    + rewrite (map_find_updated (comp_of sd) _ _ _ k l Hok Hnan Hlev).
      reflexivity.
  - rewrite map_find_update_subscript by apply _.
    rewrite map_find_removed_other by assumption.
    destruct (map_find (comp_of sd) p (side_table sd b)) as [[k' l'] |];
      reflexivity.
  - intros p' Hp' Hne1 Hne2.
    rewrite map_find_written_other
      by (first [assumption | apply _ | (apply d_neq_not_keq; assumption)]).
    apply map_find_removed_other; try assumption.
    apply d_neq_not_keq; assumption.
Qed.

Lemma price_amend_moves_the_order_witness :
  exists b' k l l1 l2 n,
    amendOrder 1 (dbl 99) 20 two_bids_book = Ok (true, b') /\
    level_at (side_of (Order.is_buy (Order.mk 1 true (dbl 100) 10 0 (Some 1%nat))))
      (Order.price (Order.mk 1 true (dbl 100) 10 0 (Some 1%nat))) two_bids_book
      = Some (k, l) /\
    Limit.orders l = l1 ++ (n, 0%nat) :: l2 /\
    level_at (side_of (Order.is_buy (Order.mk 1 true (dbl 100) 10 0 (Some 1%nat))))
      (Order.price (Order.mk 1 true (dbl 100) 10 0 (Some 1%nat))) b' =
      (if wrap64 (Limit.total_quantity l
                  - Order.quantity (Order.mk 1 true (dbl 100) 10 0 (Some 1%nat)))
          =? 0
       then None
       else Some (k, Limit.mk
                       (wrap64 (Limit.total_quantity l
                                - Order.quantity
                                    (Order.mk 1 true (dbl 100) 10 0 (Some 1%nat))))
                       (l1 ++ l2))) /\
    level_at (side_of (Order.is_buy (Order.mk 1 true (dbl 100) 10 0 (Some 1%nat))))
      (dbl 99) b' =
      Some (match level_at
                    (side_of (Order.is_buy
                                (Order.mk 1 true (dbl 100) 10 0 (Some 1%nat))))
                    (dbl 99) two_bids_book with
            | Some (k', l') =>
                (k', Limit.mk (wrap64 (Limit.total_quantity l' + 20))
                       (Limit.orders l' ++ [(next_addr two_bids_book, 0%nat)]))
            | None => (dbl 99, Limit.mk (wrap64 20) [(next_addr two_bids_book, 0%nat)])
            end) /\
    (forall p', is_nan p' = false ->
       d_neq (Order.price (Order.mk 1 true (dbl 100) 10 0 (Some 1%nat))) p' = true ->
       d_neq (dbl 99) p' = true ->
       level_at (side_of (Order.is_buy (Order.mk 1 true (dbl 100) 10 0 (Some 1%nat))))
         p' b'
       = level_at
           (side_of (Order.is_buy (Order.mk 1 true (dbl 100) 10 0 (Some 1%nat))))
           p' two_bids_book).
Proof.
  apply (price_amend_moves_the_order two_bids_book 1 0%nat
           (Order.mk 1 true (dbl 100) 10 0 (Some 1%nat)) (dbl 99) 20).
  - apply book_after_reachable.
  - vm_compute. reflexivity.
  - vm_compute. reflexivity.
  - exists Bids, (dbl 100), (Limit.mk 15 [(1%nat, 0%nat); (3%nat, 2%nat)]), 1%nat.
    split; vm_compute; left.
  - reflexivity.
  - vm_compute. reflexivity.
Defined.

(** ** Snapshots and look-ups *)

(** X20.  In a reachable book every entry of a snapshot is a level that a
    look-up of its price finds: the level has the entry's price as its key
    and the entry's quantity as its total. *)
Theorem snapshot_rows_are_levels b sd depth x :
  reachable b -> x ∈ snapshot_of sd depth b ->
  exists l,
    level_at sd (PriceLevel.price x) b = Some (PriceLevel.price x, l) /\
    Limit.total_quantity l = PriceLevel.total_quantity x /\
    level_total sd (PriceLevel.price x) b = PriceLevel.total_quantity x.
Proof.
  intros Hr Hx. pose proof (reachable_wf b Hr) as Hwf.
  pose proof (wf_tables b Hwf sd) as Hok.
  rewrite snapshot_of_rows in Hx.
  destruct (Z.of_nat depth <=? vector_max_size); [| inversion Hx].
  assert (Hx' : x ∈ map level_row (side_table sd b)).
  { rewrite <- (take_drop depth (map level_row (side_table sd b))).
    apply elem_of_app. left. exact Hx. }
  apply list_elem_of_fmap in Hx' as [[k l] [-> Hk]]. simpl.
  assert (Hf : level_at sd k b = Some (k, l)).
  { unfold level_at. apply elem_map_find; try assumption.
    - apply _.
    - exact (key_of_ok_table (comp_of sd) k l _ Hok Hk).
    - apply keq_refl. apply _. }
  exists l. split; [exact Hf |]. split; [reflexivity |].
  unfold level_total. rewrite Hf. reflexivity.
Qed.

Lemma snapshot_rows_are_levels_witness :
  exists l,
    level_at Asks (PriceLevel.price (PriceLevel.mk (dbl 101) 5)) main_book
      = Some (PriceLevel.price (PriceLevel.mk (dbl 101) 5), l) /\
    Limit.total_quantity l = PriceLevel.total_quantity (PriceLevel.mk (dbl 101) 5) /\
    level_total Asks (PriceLevel.price (PriceLevel.mk (dbl 101) 5)) main_book
      = PriceLevel.total_quantity (PriceLevel.mk (dbl 101) 5).
Proof.
  apply (snapshot_rows_are_levels main_book Asks 10 (PriceLevel.mk (dbl 101) 5)).
  - apply book_after_reachable.
  - vm_compute. right. right. left.
Defined.
